(** * EPG merge: a shallow embedding of [scripts/merge_epg.py]

    The script merges several XMLTV documents into one.  Channels are
    deduplicated by display-name, channels that are new get consecutive
    numeric ids above the largest id of the base document, programmes are
    re-pointed to the merged ids and finally re-inserted right behind their
    channel.

    The embedding follows the script function by function.  What the script
    takes from Python and its libraries is modelled as follows.

    - [str]: the UTF-8 encoding of the text, a [string] of bytes.
      Whitespace is what [str.isspace] takes for whitespace: the ASCII
      blanks and separators, U+0085, U+00A0, U+1680, U+2000 to U+200A,
      U+2028, U+2029, U+202F, U+205F and U+3000.
    - [str(n)]: the decimal rendering of [n].  The interpreter's limit on
      the length of a digit string is not modelled.
    - [int(s)]: any function that reads back what [str] writes and refuses
      the empty string (class [PyInt]); which further strings [int] reads
      (digits of other scripts, signs, underscores, surrounding whitespace)
      is left open, and the properties hold for every choice.  The reading
      of ASCII literals is one choice, used to run the model on examples.
    - [xml.etree.ElementTree.Element]: tag, attributes, text and children.
      [tail] only matters to the serializer and is left out.
    - [set]: a duplicate-free list in an iteration order that is a parameter
      of the development (class [SetIter]).
    - [dict]: [gmap].
    - object identity: the script keeps references to channel elements of the
      accumulated root in [name_map].  Channel elements are never removed
      from the root nor reordered; a reference is therefore modelled as the
      rank of the element among the root's channel children, and a mutation
      of the referenced element is an update of the root at that rank.
    - [print]: a list of messages, in order.
    - exceptions: the result of a step is [Ok] or [Raise].
    - [datetime.now]: the formatted time is an argument, [now].
    - [os.makedirs], [ET.indent] and [write]: taken to succeed.  The
      document of an outcome is the root as [merge_files] hands it to
      [ET.indent] and [write]; the whitespace that [ET.indent] puts into
      blank texts and tails is not modelled. *)

From Stdlib Require Import ZArith Ascii String Decimal DecimalString DecimalZ DecimalPos.
From stdpp Require Import base tactics option gmap strings numbers list.

Local Open Scope string_scope.
Local Open Scope list_scope.

(** ** Python strings and integers *)

(** A [str] is modelled by its UTF-8 encoding, a [string] of bytes;
    [byte c] is the value of the byte [c]. *)
Definition byte (c : ascii) : N := N_of_ascii c.

(** [c.isspace()] for the characters of one byte: TAB, LF, VT, FF, CR, the
    four separators FS, GS, RS, US, and the space. *)
Definition py_isspace (c : ascii) : bool :=
  match c with
  | "009" | "010" | "011" | "012" | "013"
  | "028" | "029" | "030" | "031" | " " => true
  | _ => false
  end%char.

(** [isspace] for the characters of two bytes: U+0085 (C2 85) and U+00A0
    (C2 A0). *)
Definition py_isspace2 (c1 c2 : ascii) : bool :=
  (byte c1 =? 194)%N && ((byte c2 =? 133)%N || (byte c2 =? 160)%N).

(** [isspace] for the characters of three bytes: U+1680 (E1 9A 80),
    U+2000 to U+200A (E2 80 80 to E2 80 8A), U+2028, U+2029 and U+202F
    (E2 80 A8, E2 80 A9, E2 80 AF), U+205F (E2 81 9F) and U+3000
    (E3 80 80).  No character of four bytes is whitespace. *)
Definition py_isspace3 (c1 c2 c3 : ascii) : bool :=
  ((byte c1 =? 225)%N && (byte c2 =? 154)%N && (byte c3 =? 128)%N)
  || ((byte c1 =? 226)%N && (byte c2 =? 128)%N &&
      (((128 <=? byte c3)%N && (byte c3 <=? 138)%N)
       || (byte c3 =? 168)%N || (byte c3 =? 169)%N || (byte c3 =? 175)%N))
  || ((byte c1 =? 226)%N && (byte c2 =? 129)%N && (byte c3 =? 159)%N)
  || ((byte c1 =? 227)%N && (byte c2 =? 128)%N && (byte c3 =? 128)%N).

(** [s.lstrip()] *)
Fixpoint lstrip (s : string) : string :=
  match s with
  | EmptyString => EmptyString
  | String c1 r1 =>
      if py_isspace c1 then lstrip r1 else
      match r1 with
      | EmptyString => s
      | String c2 r2 =>
          if py_isspace2 c1 c2 then lstrip r2 else
          match r2 with
          | EmptyString => s
          | String c3 r3 => if py_isspace3 c1 c2 c3 then lstrip r3 else s
          end
      end
  end.

(** [s.isspace()], or [s] is empty: the string consists of whitespace. *)
Fixpoint all_space (s : string) : bool :=
  match s with
  | EmptyString => true
  | String c1 r1 =>
      if py_isspace c1 then all_space r1 else
      match r1 with
      | EmptyString => false
      | String c2 r2 =>
          if py_isspace2 c1 c2 then all_space r2 else
          match r2 with
          | EmptyString => false
          | String c3 r3 => py_isspace3 c1 c2 c3 && all_space r3
          end
      end
  end.

(** [s.rstrip()]: the string is cut where what follows is whitespace. *)
Fixpoint rstrip (s : string) : string :=
  match s with
  | EmptyString => EmptyString
  | String c r => if all_space s then EmptyString else String c (rstrip r)
  end.

(** [s.strip()] *)
Definition strip (s : string) : string := rstrip (lstrip s).

Definition is_digit (c : ascii) : bool :=
  match c with
  | "0" | "1" | "2" | "3" | "4" | "5" | "6" | "7" | "8" | "9" => true
  | _ => false
  end%char.

(** The digits of an integer literal, underscores dropped.  An underscore is
    accepted only between two digits; [prev] tells whether the previous
    character was a digit. *)
Fixpoint int_digits (prev : bool) (s : string) : option string :=
  match s with
  | EmptyString => if prev then Some EmptyString else None
  | String c r =>
      if Ascii.eqb c "_" then
        if prev then int_digits false r else None
      else if is_digit c then String c <$> int_digits true r
      else None
  end.

Definition int_unsigned (body : string) : option Z :=
  d ← int_digits false body;
  Z.of_uint <$> NilZero.uint_of_string d.

(** [int(s)] on the literals written in ASCII digits: [Some n] for the
    value, [None] for [ValueError]. *)
Definition int_literal (s : string) : option Z :=
  match strip s with
  | String "-" body => Z.opp <$> int_unsigned body
  | String "+" body => int_unsigned body
  | body => int_unsigned body
  end.

(** [str(n)] *)
Definition py_str (n : Z) : string := NilZero.string_of_int (Z.to_int n).

(** [int(s)]: [Some n] for the value, [None] for [ValueError].  [int] reads
    more than the literals in ASCII digits (the decimal digits of every
    script count, and the interpreter refuses very long literals); what the
    script relies on is that [int] reads back what [str] writes and refuses
    the empty string.  The development holds for every such function. *)
Class PyInt := {
  py_int : string → option Z;
  py_int_str n : py_int (py_str n) = Some n;
  py_int_empty : py_int "" = None
}.

(** Truthiness of an optional string: [None] and [""] are falsy. *)
Definition truthy (o : option string) : bool :=
  match o with
  | Some (String _ _) => true
  | _ => false
  end.

(** ** ElementTree *)

#[warnings="-register-all"]
Inductive Element : Type := mkElement {
  tag : string;
  attrib : gmap string string;
  text : option string;
  children : list Element
}.

(** [e.get(k)] *)
Definition get (e : Element) (k : string) : option string := attrib e !! k.

(** [e.set(k, v)] *)
Definition set (e : Element) (k v : string) : Element :=
  mkElement (tag e) (<[k := v]> (attrib e)) (text e) (children e).

(** [e.findall(t)] for a plain tag [t]: the direct children with that tag,
    in document order, as a fresh list. *)
Definition findall (e : Element) (t : string) : list Element :=
  filter (λ c, tag c = t) (children e).

(** [e.append(c)] *)
Definition append (e c : Element) : Element :=
  mkElement (tag e) (attrib e) (text e) (children e ++ [c]).

Definition with_children (e : Element) (l : list Element) : Element :=
  mkElement (tag e) (attrib e) (text e) l.

(** [for p in e.findall(t): e.remove(p)] *)
Definition remove_all (e : Element) (t : string) : Element :=
  with_children e (filter (λ c, tag c ≠ t) (children e)).

(** [l.insert(pos, x)] for [pos] between [0] and [len(l)] *)
Definition list_insert_at {A} (pos : nat) (x : A) (l : list A) : list A :=
  take pos l ++ x :: drop pos l.

(** [ET.Element("display-name")] with [text = n] *)
Definition new_display_name (n : string) : Element :=
  mkElement "display-name" ∅ (Some n) [].

(** ** Sets of names *)

(** The iteration order of a Python [set] built by inserting the members of
    a list: some duplicate-free enumeration of the members.  The order is
    fixed for one run of the interpreter. *)
Class SetIter := {
  set_iter : list string → list string;
  set_iter_NoDup l : NoDup (set_iter l);
  set_iter_elem l x : x ∈ set_iter l ↔ x ∈ l
}.

(** One such order, used to run the model on examples. *)
Definition dedup_order : SetIter :=
  {| set_iter := remove_dups;
     set_iter_NoDup := NoDup_remove_dups;
     set_iter_elem := λ l x, elem_of_remove_dups l x |}.

Section get_all_names.
Context `{SetIter} `{PI : PyInt}.

(** The member a display-name child contributes to the name set:
    [dn.text.strip()] when [dn.text] is truthy. *)
Definition name_of (dn : Element) : option string :=
  if truthy (text dn) then strip <$> text dn else None.

(** [get_all_names]
    [{dn.text.strip() for dn in ch.findall("display-name") if dn.text}] *)
Definition get_all_names (ch : Element) : list string :=
  set_iter (omap name_of (findall ch "display-name")).
End get_all_names.

(** ** The file system and the console *)

Inductive file :=
  | Missing                      (* [os.path.exists] is false *)
  | Malformed                    (* [ET.parse] raises *)
  | Xml (root : Element).        (* [ET.parse(path).getroot()] *)

Inductive message :=
  | MsgMerging (inputs : list string) (output : string)  (* the banner line *)
  | MsgFileMissing (path : string)
  | MsgParseFailed (path : string)
  | MsgNoChannel (old_ch_id : option string)   (* no channel for a programme *)
  | MsgDone (output : string)
  | MsgNotGenerated (output : string).

(** [parse_tree]: the root of the parsed tree, or [None] with a message. *)
Definition parse_tree (fs : string → file) (path : string)
    : option Element * list message :=
  match fs path with
  | Missing => (None, [MsgFileMissing path])
  | Malformed => (None, [MsgParseFailed path])
  | Xml root => (Some root, [])
  end.

(** ** merge_files *)

(** [AttributeError] is what a method call on [None] raises.  [LookupError]
    is the model's own: a rank in [name_map] that names no channel of the
    root.  The script holds the element itself, so it cannot occur there,
    and [merge_channel_inv] shows that it does not occur here. *)
Inductive exn := AttributeError | LookupError.

Inductive result (A : Type) :=
  | Ok (a : A)
  | Raise (e : exn) (printed : list message).
Arguments Ok {A} a.
Arguments Raise {A} e printed.

Definition bind {A B} (r : result A) (f : A → result B) : result B :=
  match r with
  | Ok a => f a
  | Raise e out => Raise e out
  end.

(** The local variables of [merge_files], and what has been printed.
    [base_root] stands for [base_tree] too: both are set together, and the
    tree's root is the object [base_root] names. *)
Record merge_state := MergeState {
  base_root : option Element;
  name_map : gmap string nat;                     (* display-name -> channel *)
  id_map : gmap (option string) (option string);  (* old id -> new id *)
  max_id : Z;
  programmes_map : gmap string (list Element);    (* new id -> programmes *)
  printed : list message
}.

Definition init_state (out : list message) : merge_state :=
  MergeState None ∅ ∅ 0%Z ∅ out.

Definition print (m : message) (st : merge_state) : merge_state :=
  MergeState (base_root st) (name_map st) (id_map st) (max_id st)
    (programmes_map st) (printed st ++ [m]).

(** The channel of rank [k] among the children of a root. *)
Definition channel_at (root : Element) (k : nat) : option Element :=
  findall root "channel" !! k.

(** Update of the channel of rank [k] in a list of children. *)
Fixpoint alter_channel (f : Element → Element) (k : nat) (l : list Element)
    : list Element :=
  match l with
  | [] => []
  | x :: r =>
      if decide (tag x = "channel") then
        match k with
        | O => f x :: r
        | S k' => x :: alter_channel f k' r
        end
      else x :: alter_channel f k r
  end.

(** [list(root).index(ch)] for the channel [ch] of rank [k] *)
Fixpoint index_of_channel (k : nat) (l : list Element) : option nat :=
  match l with
  | [] => None
  | x :: r =>
      if decide (tag x = "channel") then
        match k with
        | O => Some O
        | S k' => S <$> index_of_channel k' r
        end
      else S <$> index_of_channel k r
  end.

Section merge.
Context `{SetIter} `{PI : PyInt}.

(** *** The base document (the branch [idx == 0]) *)

(** One round of [for ch in base_root.findall("channel")]; [k] is the rank
    of [ch]. *)
Definition ingest_channel (k : nat) (ch : Element) (st : merge_state)
    : merge_state :=
  let cid := get ch "id" in
  if truthy cid then
    let cid := default "" cid in
    MergeState (base_root st)
      (foldl (λ m n, <[n := k]> m) (name_map st) (get_all_names ch))
      (id_map st)
      (match py_int cid with
       | Some v => Z.max (max_id st) v
       | None => max_id st
       end)
      (<[cid := []]> (programmes_map st))
      (printed st)
  else st.

Fixpoint ingest_channels (k : nat) (chs : list Element) (st : merge_state)
    : merge_state :=
  match chs with
  | [] => st
  | ch :: r => ingest_channels (S k) r (ingest_channel k ch st)
  end.

(** One round of the first [for p in base_root.findall("programme")]. *)
Definition collect_programme (p : Element) (pm : gmap string (list Element))
    : gmap string (list Element) :=
  match get p "channel" with
  | Some ch_id =>
      match pm !! ch_id with
      | Some l => <[ch_id := l ++ [p]]> pm
      | None => pm
      end
  | None => pm
  end.

Definition ingest_base (now : string) (root : Element) (st : merge_state)
    : merge_state :=
  let root := set root "generator-info-name" "tvsilo.vip" in
  let root := set root "generator-info-url" "https://github.com/g12777/TV" in
  let root := set root "date" now in
  let st := ingest_channels 0 (findall root "channel") st in
  let pm := foldl (λ pm p, collect_programme p pm) (programmes_map st)
              (findall root "programme") in
  MergeState (Some (remove_all root "programme"))
    (name_map st) (id_map st) (max_id st) pm (printed st).

(** *** Further documents *)

(** [for n in ch_names: if n in name_map: target_ch = name_map[n]; break] *)
Fixpoint find_target (nm : gmap string nat) (ch_names : list string)
    : option nat :=
  match ch_names with
  | [] => None
  | n :: r =>
      match nm !! n with
      | Some k => Some k
      | None => find_target nm r
      end
  end.

(** One round of [for n in ch_names] in the branch of an existing target:
    the pair is the target element and [name_map]. *)
Definition add_name (k : nat) (existing_names : list string)
    (acc : Element * gmap string nat) (n : string)
    : Element * gmap string nat :=
  if decide (n ∈ existing_names) then acc
  else (append acc.1 (new_display_name n), <[n := k]> acc.2).

(** One round of [for ch in root.findall("channel")]. *)
Definition merge_channel (ch : Element) (st : merge_state)
    : result merge_state :=
  let ch_names := get_all_names ch in
  match ch_names with
  | [] => Ok st
  | _ =>
    let old_id := get ch "id" in
    match find_target (name_map st) ch_names with
    | Some k =>
        match base_root st with
        | Some root =>
            match channel_at root k with
            | Some target_ch =>
                let existing_names := get_all_names target_ch in
                let '(target_ch', nm) :=
                  foldl (add_name k existing_names)
                    (target_ch, name_map st) ch_names in
                let new_id := get target_ch' "id" in
                Ok (MergeState
                      (Some (with_children root
                         (alter_channel (λ _, target_ch') k (children root))))
                      nm
                      (<[old_id := new_id]> (id_map st))
                      (max_id st) (programmes_map st) (printed st))
            | None => Raise LookupError (printed st)
            end
        | None => Raise LookupError (printed st)
        end
    | None =>
        let max_id := (max_id st + 1)%Z in
        let new_id := py_str max_id in
        let ch := set ch "id" new_id in
        match base_root st with
        | Some root =>
            let k := length (findall root "channel") in
            Ok (MergeState
                  (Some (append root ch))
                  (foldl (λ m n, <[n := k]> m) (name_map st) ch_names)
                  (<[old_id := Some new_id]> (id_map st))
                  max_id
                  (<[new_id := []]> (programmes_map st))
                  (printed st))
        | None => Raise AttributeError (printed st)
        end
    end
  end.

Fixpoint merge_channels (chs : list Element) (st : merge_state)
    : result merge_state :=
  match chs with
  | [] => Ok st
  | ch :: r => bind (merge_channel ch st) (merge_channels r)
  end.

(** One round of [for p in root.findall("programme")]. *)
Definition merge_programme (st : merge_state) (p : Element) : merge_state :=
  let old_ch_id := get p "channel" in
  let new_ch_id := mjoin (id_map st !! old_ch_id) in
  if truthy new_ch_id then
    let new_ch_id := default "" new_ch_id in
    let p := set p "channel" new_ch_id in
    let l := default [] (programmes_map st !! new_ch_id) in
    MergeState (base_root st) (name_map st) (id_map st) (max_id st)
      (<[new_ch_id := l ++ [p]]> (programmes_map st)) (printed st)
  else print (MsgNoChannel old_ch_id) st.

Definition merge_document (root : Element) (st : merge_state)
    : result merge_state :=
  bind (merge_channels (findall root "channel") st) (λ st,
  Ok (foldl merge_programme st (findall root "programme"))).

(** The body of [for idx, f in enumerate(input_files)]. *)
Definition merge_input (now : string) (fs : string → file)
    (idx : nat) (f : string) (st : merge_state) : result merge_state :=
  let '(tree, out) := parse_tree fs f in
  let st := foldl (λ st m, print m st) st out in
  match tree with
  | None => Ok st
  | Some root =>
      match idx with
      | O => Ok (ingest_base now root st)
      | S _ => merge_document root st
      end
  end.

Fixpoint merge_inputs (now : string) (fs : string → file)
    (idx : nat) (input_files : list string) (st : merge_state)
    : result merge_state :=
  match input_files with
  | [] => Ok st
  | f :: r =>
      bind (merge_input now fs idx f st) (merge_inputs now fs (S idx) r)
  end.

(** *** Reordering *)

(** [programmes_map.get(cid, [])]: the keys of [programmes_map] are
    strings, so no entry is found for a channel without [id]. *)
Definition programmes_of (pm : gmap string (list Element))
    (cid : option string) : list Element :=
  default [] (cid ≫= (pm !!.)).

(** [for p in ...: base_root.insert(insert_pos, p); insert_pos += 1] *)
Fixpoint insert_all (insert_pos : nat) (ps : list Element)
    (l : list Element) : list Element :=
  match ps with
  | [] => l
  | p :: r => insert_all (S insert_pos) r (list_insert_at insert_pos p l)
  end.

(** One round of [for ch in base_root.findall("channel")] of the final
    loop, for the channel of rank [k]. *)
Definition reinsert_channel (pm : gmap string (list Element))
    (l : list Element) (k : nat) : list Element :=
  match index_of_channel k l with
  | Some i =>
      let cid := (l !! i) ≫= (λ ch, get ch "id") in
      insert_all (S i) (programmes_of pm cid) l
  | None => l
  end.

Definition reinsert (pm : gmap string (list Element)) (root : Element)
    : Element :=
  with_children root
    (foldl (reinsert_channel pm) (children root)
       (seq 0 (length (findall root "channel")))).

(** What [merge_files] leaves behind. *)
Inductive outcome :=
  | Written (output_file : string) (doc : Element) (out : list message)
  | NotWritten (out : list message)
  | Raised (e : exn) (out : list message).

(** The part of [merge_files] after the loop over the inputs. *)
Definition finish (output_file : string) (st : merge_state) : outcome :=
  match base_root st with
  | None => Raised AttributeError (printed st)
  | Some root =>
      let root := remove_all root "programme" in
      let root := reinsert (programmes_map st) root in
      match base_root st with
      | Some _ => Written output_file root (printed st ++ [MsgDone output_file])
      | None => NotWritten (printed st ++ [MsgNotGenerated output_file])
      end
  end.

Definition merge_files (now : string) (fs : string → file)
    (output_file : string) (input_files : list string) : outcome :=
  let st := init_state [MsgMerging input_files output_file] in
  match merge_inputs now fs 0 input_files st with
  | Ok st => finish output_file st
  | Raise e out => Raised e out
  end.
End merge.

(** ** main *)

(** The merge groups of the script. *)
Definition MERGES : list (string * list string) :=
  [("epg/1d.xml", ["epg/e.xml"; "epg/plsy1_1d.xml"; "epg/112114.xml"]);
   ("epg/7d.xml", ["epg/all.xml"; "epg/plsy1_7d.xml"])].

Section main.
Context `{SetIter} `{PI : PyInt}.

(** [for out_file, ins in MERGES: merge_files(out_file, ins)].  [clock]
    gives the time read by each call.  An exception leaves the loop; the
    list holds the outcome of every call that was made.  No input of a
    group is the output of an earlier one, so every call reads [fs]. *)
Fixpoint run_merges (clock : list string) (fs : string → file)
    (merges : list (string * list string)) : list outcome :=
  match merges with
  | [] => []
  | (out_file, ins) :: r =>
      match merge_files (hd "" clock) fs out_file ins with
      | Raised e out => [Raised e out]
      | oc => oc :: run_merges (tl clock) fs r
      end
  end.

Definition main (clock : list string) (fs : string → file) : list outcome :=
  run_merges clock fs MERGES.
End main.

(** * Vocabulary of the properties *)

(** The number of bytes of the whitespace character the string starts
    with; [0] when it starts with none. *)
Definition space_width (s : string) : nat :=
  match s with
  | String c1 r1 =>
      if py_isspace c1 then 1 else
      match r1 with
      | String c2 r2 =>
          if py_isspace2 c1 c2 then 2 else
          match r2 with
          | String c3 _ => if py_isspace3 c1 c2 c3 then 3 else 0
          | EmptyString => 0
          end
      | EmptyString => 0
      end
  | EmptyString => 0
  end.

(** The byte can start a whitespace character. *)
Definition space_lead (c : ascii) : bool :=
  py_isspace c || (byte c =? 194)%N || (byte c =? 225)%N
  || (byte c =? 226)%N || (byte c =? 227)%N.

(** No byte of the string can start a whitespace character. *)
Fixpoint no_space (s : string) : bool :=
  match s with
  | EmptyString => true
  | String c r => negb (space_lead c) && no_space r
  end.

Abbreviation is_channel := (λ c : Element, tag c = "channel").

Abbreviation not_programme := (λ c : Element, tag c ≠ "programme").

(** The result of the reordering loop: every child is followed by the
    programmes recorded for it, if it is a channel. *)
Definition assemble (pm : gmap string (list Element)) (l : list Element)
    : list Element :=
  flat_map (λ x, x :: if decide (tag x = "channel")
                      then programmes_of pm (get x "id") else []) l.

(** The keys of [programmes_map] are non-empty, and what is recorded under
    a key are programmes whose channel attribute is that key. *)
Definition programmes_wf (pm : gmap string (list Element)) : Prop :=
  map_Forall (λ k l, k ≠ "" ∧
    Forall (λ p, tag p = "programme" ∧ get p "channel" = Some k) l) pm.

(** [c'] is the element [c] after display-names have been appended to it. *)
Definition extends (c c' : Element) : Prop :=
  tag c' = tag c ∧ attrib c' = attrib c ∧ text c' = text c ∧
  ∃ names, children c' = children c ++ (new_display_name <$> names).

(** Where a channel of the accumulated root comes from: it is a channel of
    the base document, or it was introduced with the number [n] as its id. *)
Inductive origin :=
  | FromBase (c : Element)
  | Introduced (n : Z).

Definition descends (o : origin) (c' : Element) : Prop :=
  tag c' = "channel" ∧
  match o with
  | FromBase c => extends c c'
  | Introduced n => get c' "id" = Some (py_str n)
  end.

Definition origins (bcs : list Element) (m0 : Z) (n : nat) : list origin :=
  (FromBase <$> bcs) ++ (Introduced <$> seqZ (m0 + 1) (Z.of_nat n)).

(** One round of [max_id = max(max_id, int(cid))] with its guards. *)
Definition id_bound `{PI : PyInt} (m : Z) (ch : Element) : Z :=
  let cid := get ch "id" in
  if truthy cid then
    match py_int (default "" cid) with
    | Some v => Z.max m v
    | None => m
    end
  else m.

(** [max_id] once the base document has been read. *)
Definition base_max_id `{PI : PyInt} (root : Element) : Z :=
  foldl id_bound 0%Z (findall root "channel").

(** The root of the base document once it has been read. *)
Definition base_doc (now : string) (root : Element) : Element :=
  remove_all
    (set (set (set root "generator-info-name" "tvsilo.vip")
            "generator-info-url" "https://github.com/g12777/TV")
       "date" now)
    "programme".

(** What holds of the state of the loop once the base document, read to
    the root [r0], is in place. *)
Definition merge_inv `{PI : PyInt} (r0 : Element) (st : merge_state) : Prop :=
  ∃ root (n : nat),
    base_root st = Some root ∧
    tag root = tag r0 ∧ attrib root = attrib r0 ∧ text root = text r0 ∧
    max_id st = (base_max_id r0 + Z.of_nat n)%Z ∧
    Forall2 descends (origins (findall r0 "channel") (base_max_id r0) n)
      (findall root "channel") ∧
    Forall not_programme (children root) ∧
    map_Forall (λ _ k, k < length (findall root "channel")) (name_map st) ∧
    programmes_wf (programmes_map st).

(** The names the branch of an existing target appends to the target. *)
Definition added_names (existing_names ch_names : list string) : list string :=
  filter (λ n, n ∉ existing_names) ch_names.

(** The state after one round of the channel loop, no target found. *)
Definition introduced_state (st : merge_state) (root ch : Element)
    (ch_names : list string) : merge_state :=
  let new_id := py_str (max_id st + 1) in
  MergeState
    (Some (append root (set ch "id" new_id)))
    (foldl (λ m n, <[n := length (findall root "channel")]> m)
       (name_map st) ch_names)
    (<[get ch "id" := Some new_id]> (id_map st))
    (max_id st + 1)
    (<[new_id := []]> (programmes_map st))
    (printed st).

(** The id of a channel when it is truthy: what the base loop keys on. *)
Definition cid_of (c : Element) : option string :=
  if truthy (get c "id") then get c "id" else None.

(** No two channels carry the same truthy id. *)
Definition unique_ids (chs : list Element) : Prop := NoDup (omap cid_of chs).

(** The ordering contract.  Behind every channel stands a run of
    programmes whose channel attribute is the id of the channel; the run
    ends where the document ends or at an element that is no programme; and
    no programme with that channel attribute stands anywhere else.  A
    channel without id, or without programmes of its id, is thus directly
    followed by an element that is no programme. *)
Definition ordering_contract (l : list Element) : Prop :=
  ∀ pre c post,
    l = pre ++ c :: post → tag c = "channel" →
    ∃ block rest,
      post = block ++ rest ∧
      Forall (λ p, tag p = "programme" ∧
                   ∃ cid, get c "id" = Some cid ∧ get p "channel" = Some cid)
        block ∧
      (∀ x r, rest = x :: r → tag x ≠ "programme") ∧
      ∀ cid, get c "id" = Some cid →
        Forall (λ q, ¬ (tag q = "programme" ∧ get q "channel" = Some cid))
          (pre ++ rest).

(** The state of the loop while no base document has been read. *)
Definition no_base (msg : message) (output_file : string) (st : merge_state)
    : Prop :=
  base_root st = None ∧ name_map st = ∅ ∧ msg ∈ printed st ∧
  MsgNotGenerated output_file ∉ printed st.

(** The warning the programme loop prints for [p] under the id map [idm]. *)
Definition unresolved_warning (idm : gmap (option string) (option string))
    (p : Element) : option message :=
  if truthy (mjoin (idm !! get p "channel")) then None
  else Some (MsgNoChannel (get p "channel")).

(** A programme once recorded stays recorded. *)
Definition recorded (pm : gmap string (list Element)) (k : string)
    (p : Element) : Prop :=
  ∃ l, pm !! k = Some l ∧ p ∈ l.

(** All the channels that the names of an incoming channel are indexed to
    are one and the same. *)
Definition unambiguous (nm : gmap string nat) (ch_names : list string) : bool :=
  match omap (nm !!.) ch_names with
  | [] => true
  | k :: ks => forallb (Nat.eqb k) ks
  end.

Section vocabulary.
Context `{SetIter} `{PI : PyInt}.

(** The state after one round of the channel loop, target found. *)
Definition merged_state (st : merge_state) (root target_ch : Element)
    (k : nat) (ch_names : list string) (old_id : option string) : merge_state :=
  let add := added_names (get_all_names target_ch) ch_names in
  let target_ch' := foldl append target_ch (new_display_name <$> add) in
  MergeState
    (Some (with_children root
             (alter_channel (λ _, target_ch') k (children root))))
    (foldl (λ m n, <[n := k]> m) (name_map st) add)
    (<[old_id := get target_ch' "id"]> (id_map st))
    (max_id st) (programmes_map st) (printed st).

(** No display-name is carried by two channels of the list. *)
Definition names_unique (chs : list Element) : Prop :=
  NoDup (chs ≫= get_all_names).

(** No channel met by the channel loop, started in [st], is ambiguous. *)
Fixpoint clear_channels (chs : list Element) (st : merge_state) : bool :=
  match chs with
  | [] => true
  | ch :: r =>
      unambiguous (name_map st) (get_all_names ch) &&
      match merge_channel ch st with
      | Ok st' => clear_channels r st'
      | Raise _ _ => true
      end
  end.

Fixpoint clear_inputs (now : string) (fs : string → file) (idx : nat)
    (input_files : list string) (st : merge_state) : bool :=
  match input_files with
  | [] => true
  | f :: r =>
      match idx, parse_tree fs f with
      | S _, (Some root, out) =>
          clear_channels (findall root "channel")
            (foldl (λ st m, print m st) st out)
      | _, _ => true
      end &&
      match merge_input now fs idx f st with
      | Ok st' => clear_inputs now fs (S idx) r st'
      | Raise _ _ => true
      end
  end.

(** No channel met while [merge_files] runs is ambiguous. *)
Definition clear_merge (now : string) (fs : string → file)
    (output_file : string) (input_files : list string) : bool :=
  clear_inputs now fs 0 input_files
    (init_state [MsgMerging input_files output_file]).

(** Every name carried by an accumulated channel is indexed to it. *)
Definition names_indexed (st : merge_state) : Prop :=
  ∃ root, base_root st = Some root ∧
    ∀ k c n, findall root "channel" !! k = Some c →
             n ∈ get_all_names c → name_map st !! n = Some k.
End vocabulary.

(** ** Example documents *)

Definition display_name (t : string) : Element :=
  mkElement "display-name" ∅ (Some t) [].

Definition channel (id : string) (names : list string) : Element :=
  mkElement "channel" {[ "id" := id ]} None (display_name <$> names).

Definition programme (ch title : string) : Element :=
  mkElement "programme" {[ "channel" := ch ]} None
    [mkElement "title" ∅ (Some title) []].

Definition tv (l : list Element) : Element := mkElement "tv" ∅ None l.

(** A file system holding the listed documents; any other path is missing. *)
Definition files (l : list (string * Element)) (path : string) : file :=
  match list_to_map (M := gmap string Element) l !! path with
  | Some root => Xml root
  | None => Missing
  end.

(** The written root for the example documents. *)
Definition merged_tv (now : string) (l : list Element) : Element :=
  mkElement "tv"
    (<["date" := now]>
       (<["generator-info-url" := "https://github.com/g12777/TV"]>
          {["generator-info-name" := "tvsilo.vip"]}))
    None l.

Definition scenario1_base : Element :=
  tv [channel "1" ["CNN"]; programme "1" "Morning"].

Definition scenario1_fs : string → file :=
  files [("epg/base.xml", scenario1_base);
         ("epg/second.xml", tv [channel "9" ["CNN"]; programme "9" "News";
                            channel "3" ["Fox"]; programme "3" "Late"])].

Definition scenario5_base : Element := tv [channel "1" ["HBO"; "HBO2"]].

Definition scenario5_fs : string → file :=
  files [("epg/base.xml", scenario5_base);
         ("epg/second.xml", tv [channel "7" ["HBO2"; "Cinemax"]])].

(** The state of the loop after the first two documents of [stale_id_fs]
    below. *)
Definition stale_id_state : merge_state :=
  MergeState (Some (merged_tv "20260101000000" [channel "1" ["A"]]))
    {["A" := 0]} {[Some "9" := Some "1"]} 1 {["1" := []]} [].

(** Two base channels with the same id. *)
Definition duplicate_id_fs : string → file :=
  files [("epg/base.xml", tv [channel "1" ["A"]; channel "1" ["B"];
                          programme "1" "News"])].

(** The third document refers to an old id of the second. *)
Definition stale_id_fs : string → file :=
  files [("epg/a.xml", tv [channel "1" ["A"]]);
         ("epg/b.xml", tv [channel "9" ["A"]]);
         ("epg/c.xml", tv [programme "9" "News"])].

(** The channel of the second document matches two base channels. *)
Definition two_targets_fs : string → file :=
  files [("epg/a.xml", tv [channel "1" ["A"]; channel "2" ["B"]]);
         ("epg/b.xml", tv [channel "9" ["A"; "B"]])].

(** A channel without id and a programme without channel attribute. *)
Definition idless_fs : string → file :=
  files [("epg/a.xml", tv [channel "1" ["A"]]);
         ("epg/b.xml", tv [mkElement "channel" ∅ None [display_name "B"];
                       mkElement "programme" ∅ None []])].

(** A programme of the base document that refers to no channel. *)
Definition orphan_fs : string → file :=
  files [("epg/a.xml", tv [channel "1" ["A"]; programme "99" "Lost"])].

(** ** The text cleaning of the serializer *)

(** The class [[\x00-\x08\x0B\x0C\x0E-\x1F]] of [clean_text]. *)
Definition is_control (c : ascii) : bool :=
  let n := N_of_ascii c in
  (n <=? 8)%N || (n =? 11)%N || (n =? 12)%N || ((14 <=? n)%N && (n <=? 31)%N).

(** [re.sub(r'[\x00-\x08\x0B\x0C\x0E-\x1F]', '', s)] *)
Fixpoint drop_control (s : string) : string :=
  match s with
  | EmptyString => EmptyString
  | String c r => if is_control c then drop_control r else String c (drop_control r)
  end.

(** [clean_text], on a [str]. *)
Definition clean_text (s : string) : string :=
  match s with
  | EmptyString => s
  | _ => drop_control s
  end.

(** An element as the serializer sees it, with its [tail]. *)
#[warnings="-register-all"]
Inductive TElement : Type := mkTElement {
  t_tag : string;
  t_attrib : gmap string string;
  t_text : option string;
  t_tail : option string;
  t_children : list TElement
}.

(** [if x: x = clean_text(x.strip())] for [x] the text or the tail. *)
Definition clean_field (o : option string) : option string :=
  if truthy o then (λ s, clean_text (strip s)) <$> o else o.

(** [remove_whitespace_nodes].  The script rewrites the text and the tail
    of each child and then descends into the child; the descent does not
    touch the child's own text and tail, so the two steps are written here
    in the other order. *)
Fixpoint remove_whitespace_nodes (elem : TElement) : TElement :=
  mkTElement (t_tag elem) (t_attrib elem) (t_text elem) (t_tail elem)
    (map (λ child,
            let child' := remove_whitespace_nodes child in
            mkTElement (t_tag child') (t_attrib child')
              (clean_field (t_text child)) (clean_field (t_tail child))
              (t_children child'))
       (t_children elem)).

(** No character of the string is in the class of [clean_text]. *)
Fixpoint no_control (s : string) : bool :=
  match s with
  | EmptyString => true
  | String c r => negb (is_control c) && no_control r
  end.

(** Tags and attributes of a tree, without texts and tails. *)
#[warnings="-register-all"]
Inductive skeleton := Skeleton (tag : string) (attrib : gmap string string)
                        (children : list skeleton).

Fixpoint skeleton_of (e : TElement) : skeleton :=
  Skeleton (t_tag e) (t_attrib e) (map skeleton_of (t_children e)).

(** The elements below [e], in document order. *)
Fixpoint descendants (e : TElement) : list TElement :=
  flat_map (λ c, c :: descendants c) (t_children e).

Definition field_clean (o : option string) : Prop :=
  ∀ s, o = Some s → no_control s = true.

(** ** Vocabulary of further properties of [merge_files] *)

(** The ids held by the maps are ids of accumulated channels, and the
    numeric ones among these do not exceed [max_id]. *)
Definition ids_wf `{PI : PyInt} (st : merge_state) : Prop :=
  ∃ root, base_root st = Some root ∧
    (∀ k, is_Some (programmes_map st !! k) →
          ∃ c, c ∈ findall root "channel" ∧ get c "id" = Some k) ∧
    (∀ n k, name_map st !! n = Some k →
            ∃ c, findall root "channel" !! k = Some c ∧
                 truthy (get c "id") = true) ∧
    (∀ key v, id_map st !! key = Some v → truthy v = true →
              ∃ c, c ∈ findall root "channel" ∧ get c "id" = v) ∧
    (∀ c s v, c ∈ findall root "channel" → get c "id" = Some s →
              py_int s = Some v → (v ≤ max_id st)%Z).

(** The document an outcome holds, if one was written. *)
Definition written_doc (oc : outcome) : option Element :=
  match oc with
  | Written _ doc _ => Some doc
  | _ => None
  end.

(** The messages an outcome holds. *)
Definition outcome_messages (oc : outcome) : list message :=
  match oc with
  | Written _ _ out | NotWritten out | Raised _ out => out
  end.

(** The local variables of [merge_files] without what was printed. *)
Definition data_of (st : merge_state) :=
  (base_root st, name_map st, id_map st, max_id st, programmes_map st).

(** Two results that differ in the printed messages at most. *)
Definition same_result (r1 r2 : result merge_state) : Prop :=
  match r1, r2 with
  | Ok st1, Ok st2 => data_of st1 = data_of st2
  | Raise e1 _, Raise e2 _ => e1 = e2
  | _, _ => False
  end.

(** The programmes of the base document [b] that name the channel [c]. *)
Definition base_programmes (b c : Element) : list Element :=
  if truthy (get c "id")
  then filter (λ p, get p "channel" = get c "id") (findall b "programme")
  else [].

(** Neither a channel nor a programme. *)
Abbreviation is_other := (λ c : Element, tag c ≠ "channel" ∧ tag c ≠ "programme").

(** What the loop keeps, from a state [st0] on: the ids stay well formed,
    and what is recorded in [st0] stays recorded. *)
Definition keeps_recorded `{PI : PyInt} (st0 st : merge_state) : Prop :=
  ids_wf st ∧
  ∀ k p, recorded (programmes_map st0) k p → recorded (programmes_map st) k p.

(** No message of the list says that no file was generated. *)
Definition never_not_generated (out : list message) : Prop :=
  ∀ o, MsgNotGenerated o ∉ out.

(** Tag and attributes of an element and of its descendants: what the
    indentation of the serializer, which touches texts only, leaves as it
    is. *)
Fixpoint shape (e : Element) : skeleton :=
  Skeleton (tag e) (attrib e) (map shape (children e)).

(** The root holds the children [others] besides channels and programmes. *)
Definition others_kept (others : list Element) (st : merge_state) : Prop :=
  ∃ root, base_root st = Some root ∧ filter is_other (children root) = others.

(** The first group's base document and a readable second group. *)
Definition merges_fs : string → file :=
  files [("epg/e.xml", tv [channel "1" ["CNN"]]);
         ("epg/all.xml", tv [channel "5" ["BBC"]]);
         ("epg/plsy1_7d.xml", tv [channel "2" ["Fox"]])].

(** U+3000, the ideographic space, in UTF-8. *)
Definition ideographic_space : string :=
  String "227" (String "128" (String "128" "")).

(** The state of the loop once [scenario5_base] has been read. *)
Definition scenario5_state : merge_state :=
  MergeState (Some scenario5_base) {["HBO" := 0; "HBO2" := 0]} ∅ 1
    {["1" := []]} [].

(** The second document of [scenario1_fs]. *)
Definition scenario1_second : Element :=
  tv [channel "9" ["CNN"]; programme "9" "News";
      channel "3" ["Fox"]; programme "3" "Late"].

(** * Properties *)

(** ** Strings and integers *)

Lemma py_isspace_byte c : py_isspace c = true → (byte c ≤ 32)%N.
Proof.
  destruct c as [[|] [|] [|] [|] [|] [|] [|] [|]]; simpl; try done;
    intros _; vm_compute; discriminate.
Qed.

Ltac bool_facts :=
  repeat match goal with
  | H : _ && _ = true |- _ => apply andb_prop in H as [? ?]
  | H : _ || _ = true |- _ => apply orb_prop in H as [?|?]
  | H : _ || _ = false |- _ => apply orb_false_elim in H as [? ?]
  | H : (_ =? _)%N = true |- _ => apply N.eqb_eq in H
  | H : (_ =? _)%N = false |- _ => apply N.eqb_neq in H
  | H : (_ <=? _)%N = true |- _ => apply N.leb_le in H
  | H : py_isspace _ = true |- _ => apply py_isspace_byte in H
  end.

Lemma py_isspace2_lead c1 c2 :
  py_isspace2 c1 c2 = true → space_lead c2 = false.
Proof.
  unfold py_isspace2, space_lead. intros H.
  destruct (py_isspace c2) eqn:E2; bool_facts; try lia;
    repeat (apply orb_false_intro); try done; apply N.eqb_neq; lia.
Qed.

Lemma py_isspace3_lead c1 c2 c3 :
  py_isspace3 c1 c2 c3 = true → space_lead c2 = false ∧ space_lead c3 = false.
Proof.
  unfold py_isspace3, space_lead. intros H.
  destruct (py_isspace c2) eqn:E2; destruct (py_isspace c3) eqn:E3;
    bool_facts; try lia;
    (split; repeat (apply orb_false_intro); try done; apply N.eqb_neq; lia).
Qed.

Lemma py_isspace_lead c : py_isspace c = true → space_lead c = true.
Proof. unfold space_lead. by intros ->. Qed.

Lemma py_isspace2_lead1 c1 c2 : py_isspace2 c1 c2 = true → space_lead c1 = true.
Proof.
  unfold py_isspace2, space_lead. intros [H _]%andb_prop. rewrite H.
  by rewrite !orb_true_r.
Qed.

Lemma py_isspace3_lead1 c1 c2 c3 :
  py_isspace3 c1 c2 c3 = true → space_lead c1 = true.
Proof.
  unfold py_isspace3, space_lead. intros H.
  bool_facts;
    repeat match goal with H : byte c1 = _ |- _ => rewrite H; clear H end;
    simpl; by rewrite ?orb_true_r.
Qed.

(** Induction along the whitespace characters a string starts with. *)
Lemma space_ind (P : string → Prop) :
  P "" →
  (∀ c r, py_isspace c = true → P r → P (String c r)) →
  (∀ c1 c2 r, py_isspace c1 = false → py_isspace2 c1 c2 = true →
     P r → P (String c1 (String c2 r))) →
  (∀ c1 c2 c3 r, py_isspace c1 = false → py_isspace2 c1 c2 = false →
     py_isspace3 c1 c2 c3 = true → P r →
     P (String c1 (String c2 (String c3 r)))) →
  (∀ s, s ≠ "" → space_width s = 0 → P s) →
  ∀ s, P s.
Proof.
  intros H0 H1 H2 H3 Hw. fix IH 1. intros [|c1 r1]; [exact H0|].
  destruct (py_isspace c1) eqn:E1; [exact (H1 _ _ E1 (IH r1))|].
  destruct r1 as [|c2 r2]; [apply Hw; [done|]; simpl; by rewrite E1|].
  destruct (py_isspace2 c1 c2) eqn:E2; [exact (H2 _ _ _ E1 E2 (IH r2))|].
  destruct r2 as [|c3 r3]; [apply Hw; [done|]; simpl; by rewrite E1, E2|].
  destruct (py_isspace3 c1 c2 c3) eqn:E3; [exact (H3 _ _ _ _ E1 E2 E3 (IH r3))|].
  apply Hw; [done|]. simpl. by rewrite E1, E2, E3.
Qed.

Lemma lstrip_width0 s : space_width s = 0 → lstrip s = s.
Proof.
  destruct s as [|c1 [|c2 [|c3 r3]]]; simpl; try done;
    repeat (case_match; try done).
Qed.

Lemma all_space_width0 s : s ≠ "" → space_width s = 0 → all_space s = false.
Proof.
  destruct s as [|c1 [|c2 [|c3 r3]]]; simpl; try done;
    repeat (case_match; try done).
Qed.

Lemma space_width_lead c r : space_lead c = false → space_width (String c r) = 0.
Proof.
  intros Hc. simpl.
  destruct (py_isspace c) eqn:E1; [by rewrite (py_isspace_lead _ E1) in Hc|].
  destruct r as [|c2 r2]; [done|].
  destruct (py_isspace2 c c2) eqn:E2; [by rewrite (py_isspace2_lead1 _ _ E2) in Hc|].
  destruct r2 as [|c3 r3]; [done|].
  destruct (py_isspace3 c c2 c3) eqn:E3; [by rewrite (py_isspace3_lead1 _ _ _ E3) in Hc|].
  done.
Qed.

(** A string of whitespace starts with a byte that starts a whitespace
    character. *)
Lemma all_space_lead c r : all_space (String c r) = true → space_lead c = true.
Proof.
  intros Hs. destruct (space_lead c) eqn:Hc; [done|].
  rewrite all_space_width0 in Hs; [done..|]. by apply space_width_lead.
Qed.

Lemma space_width_app s t :
  space_width s ≠ 0 → space_width (s +:+ t) = space_width s.
Proof.
  destruct s as [|c1 [|c2 [|c3 r3]]]; simpl; try done;
    repeat (case_match; try done).
Qed.

(** Whitespace that follows does not complete a whitespace character. *)
Lemma space_width0_app s t :
  s ≠ "" → space_width s = 0 → all_space t = true → space_width (s +:+ t) = 0.
Proof.
  intros Hs Hw Ht.
  assert (∀ c r, t = String c r → space_lead c = true) as Hlead.
  { intros c r ->. by apply all_space_lead in Ht. }
  destruct s as [|c1 r1]; [done|]. simpl in Hw.
  destruct (py_isspace c1) eqn:E1; [done|].
  destruct r1 as [|c2 r2].
  { destruct t as [|d1 t1]; simpl; rewrite ?E1; [done|].
    destruct (py_isspace2 c1 d1) eqn:E2.
    { apply py_isspace2_lead in E2. by rewrite (Hlead _ _ eq_refl) in E2. }
    destruct t1 as [|d2 t2]; [done|].
    destruct (py_isspace3 c1 d1 d2) eqn:E3; [|done].
    apply py_isspace3_lead in E3 as [E3 _].
    by rewrite (Hlead _ _ eq_refl) in E3. }
  destruct (py_isspace2 c1 c2) eqn:E2; [done|].
  destruct r2 as [|c3 r3].
  { destruct t as [|d1 t1]; simpl; rewrite ?E1, ?E2; [done|].
    destruct (py_isspace3 c1 c2 d1) eqn:E3; [|done].
    apply py_isspace3_lead in E3 as [_ E3].
    by rewrite (Hlead _ _ eq_refl) in E3. }
  simpl. rewrite E1, E2. by destruct (py_isspace3 c1 c2 c3).
Qed.

Lemma lstrip_all_space s : all_space s = true → lstrip s = "".
Proof.
  induction s as [|c r E IH|c1 c2 r E1 E2 IH|c1 c2 c3 r E1 E2 E3 IH|s Hs Hw]
    using space_ind; simpl; try done.
  - rewrite E. done.
  - rewrite E1, E2. done.
  - rewrite E1, E2, E3. done.
  - intros Hsp. by rewrite all_space_width0 in Hsp.
Qed.

Lemma rstrip_all_space s : all_space s = true → rstrip s = "".
Proof. destruct s; [done|]. intros Hs. cbn [rstrip]. by rewrite Hs. Qed.

Lemma all_space_app s t :
  all_space s = true → all_space t = true → all_space (s +:+ t) = true.
Proof.
  intros Hs Ht. revert Hs.
  induction s as [|c r E IH|c1 c2 r E1 E2 IH|c1 c2 c3 r E1 E2 E3 IH|s Hs Hw]
    using space_ind; simpl; try done.
  - rewrite E. done.
  - rewrite E1, E2. done.
  - rewrite E1, E2, E3. done.
  - intros Hsp. by rewrite all_space_width0 in Hsp.
Qed.

Lemma all_space_app_r s t :
  all_space t = true → all_space (s +:+ t) = all_space s.
Proof.
  intros Ht.
  induction s as [|c r E IH|c1 c2 r E1 E2 IH|c1 c2 c3 r E1 E2 E3 IH|s Hs Hw]
    using space_ind; simpl; try done.
  - by rewrite E.
  - by rewrite E1, E2.
  - by rewrite E1, E2, E3, IH.
  - rewrite (all_space_width0 s) by done. apply all_space_width0.
    + by destruct s.
    + by apply space_width0_app.
Qed.

Lemma lstrip_app_l pre s : all_space pre = true → lstrip (pre +:+ s) = lstrip s.
Proof.
  induction pre as [|c r E IH|c1 c2 r E1 E2 IH|c1 c2 c3 r E1 E2 E3 IH|p Hs Hw]
    using space_ind; simpl; try done.
  - by rewrite E.
  - by rewrite E1, E2.
  - by rewrite E1, E2, E3.
  - intros Hsp. by rewrite all_space_width0 in Hsp.
Qed.

Lemma rstrip_app_r s post :
  all_space post = true → rstrip (s +:+ post) = rstrip s.
Proof.
  intros Hp. induction s as [|c r IH].
  - by apply rstrip_all_space.
  - change (String c r +:+ post) with (String c (r +:+ post)).
    cbn [rstrip]. rewrite IH.
    change (String c (r +:+ post)) with (String c r +:+ post).
    by rewrite all_space_app_r.
Qed.

Lemma strip_app_r s post : all_space post = true → strip (s +:+ post) = strip s.
Proof.
  intros Hp. unfold strip.
  induction s as [|c r E IH|c1 c2 r E1 E2 IH|c1 c2 c3 r E1 E2 E3 IH|s Hs Hw]
    using space_ind; simpl.
  - by rewrite lstrip_all_space.
  - by rewrite E.
  - by rewrite E1, E2.
  - by rewrite E1, E2, E3.
  - rewrite (lstrip_width0 s) by done.
    rewrite lstrip_width0 by (by apply space_width0_app).
    by apply rstrip_app_r.
Qed.

Lemma strip_surrounding pre s post :
  all_space pre = true → all_space post = true →
  strip (pre +:+ s +:+ post) = strip s.
Proof.
  intros Hpre Hpost. unfold strip at 1. rewrite lstrip_app_l by done.
  by apply strip_app_r.
Qed.

(** What [lstrip] and [rstrip] cut off is whitespace. *)
Lemma lstrip_split s : ∃ pre, s = pre +:+ lstrip s ∧ all_space pre = true.
Proof.
  induction s as [|c r E [pre [IH1 IH2]]|c1 c2 r E1 E2 [pre [IH1 IH2]]
                  |c1 c2 c3 r E1 E2 E3 [pre [IH1 IH2]]|s Hs Hw]
    using space_ind.
  - by exists "".
  - exists (String c pre). split; [|by simpl; rewrite E].
    simpl. rewrite E. change (String c r = String c (pre +:+ lstrip r)).
    by rewrite <-IH1.
  - exists (String c1 (String c2 pre)). split; [|by simpl; rewrite E1, E2].
    simpl. rewrite E1, E2.
    change (String c1 (String c2 r) = String c1 (String c2 (pre +:+ lstrip r))).
    by rewrite <-IH1.
  - exists (String c1 (String c2 (String c3 pre))).
    split; [|by simpl; rewrite E1, E2, E3].
    simpl. rewrite E1, E2, E3.
    change (String c1 (String c2 (String c3 r))
            = String c1 (String c2 (String c3 (pre +:+ lstrip r)))).
    by rewrite <-IH1.
  - exists "". by rewrite lstrip_width0.
Qed.

Lemma rstrip_split s : ∃ post, s = rstrip s +:+ post ∧ all_space post = true.
Proof.
  induction s as [|c r [post [IH1 IH2]]]; [by exists ""|].
  cbn [rstrip]. destruct (all_space (String c r)) eqn:E.
  - by exists (String c r).
  - exists post. split; [|done].
    change (String c r = String c (rstrip r +:+ post)). by rewrite <-IH1.
Qed.

Lemma space_width_lstrip s : space_width (lstrip s) = 0.
Proof.
  induction s as [|c r E IH|c1 c2 r E1 E2 IH|c1 c2 c3 r E1 E2 E3 IH|s Hs Hw]
    using space_ind; simpl; try done.
  - by rewrite E.
  - by rewrite E1, E2.
  - by rewrite E1, E2, E3.
  - by rewrite lstrip_width0.
Qed.

Lemma space_width_rstrip s : space_width s = 0 → space_width (rstrip s) = 0.
Proof.
  intros Hw. destruct (rstrip_split s) as (post & Hs & Hpost).
  destruct (decide (space_width (rstrip s) = 0)) as [|Hne]; [done|].
  pose proof (space_width_app _ post Hne) as Happ. rewrite <-Hs in Happ.
  congruence.
Qed.

(** What [rstrip] leaves does not end in whitespace. *)
Lemma rstrip_no_trailing s x w :
  rstrip s = x +:+ w → all_space w = true → w = "".
Proof.
  revert x. induction s as [|c r IH]; intros x Hx Hw.
  - by destruct x, w.
  - cbn [rstrip] in Hx. destruct (all_space (String c r)) eqn:E.
    { by destruct x, w. }
    destruct x as [|c' x'].
    + change (String c (rstrip r) = w) in Hx. subst w.
      destruct (rstrip_split r) as (post & Hr & Hpost).
      pose proof (all_space_app _ _ Hw Hpost) as Hall.
      change (all_space (String c (rstrip r +:+ post)) = true) in Hall.
      rewrite <-Hr in Hall. congruence.
    + change (String c (rstrip r) = String c' (x' +:+ w)) in Hx.
      injection Hx as -> Hx. by apply (IH x').
Qed.

Lemma append_empty_r s : s +:+ "" = s.
Proof.
  induction s as [|c r IH]; [done|].
  change (String c (r +:+ "") = String c r). by rewrite IH.
Qed.

Lemma rstrip_idemp s : rstrip (rstrip s) = rstrip s.
Proof.
  destruct (rstrip_split (rstrip s)) as (post & Hs & Hpost).
  pose proof (rstrip_no_trailing _ _ _ Hs Hpost) as ->.
  by rewrite append_empty_r in Hs.
Qed.

Lemma strip_idemp s : strip (strip s) = strip s.
Proof.
  unfold strip.
  rewrite (lstrip_width0 (rstrip (lstrip s))).
  - apply rstrip_idemp.
  - apply space_width_rstrip, space_width_lstrip.
Qed.

Lemma rstrip_no_space s : no_space s = true → rstrip s = s.
Proof.
  induction s as [|c r IH]; [done|].
  intros [Hc Hr]%andb_prop. cbn [rstrip]. rewrite (IH Hr).
  apply negb_true_iff in Hc.
  rewrite all_space_width0; [done..|]. by apply space_width_lead.
Qed.

Lemma strip_no_space s : no_space s = true → strip s = s.
Proof.
  intros Hs. unfold strip. destruct s as [|c r]; [done|].
  pose proof Hs as [Hc Hr]%andb_prop. apply negb_true_iff in Hc.
  rewrite lstrip_width0 by (by apply space_width_lead).
  by apply rstrip_no_space.
Qed.

(** The decimal rendering of a number is made of digits only. *)
Lemma string_of_uint_digits d b :
  (b = true ∨ d ≠ Nil) →
  int_digits b (NilEmpty.string_of_uint d) = Some (NilEmpty.string_of_uint d)
  ∧ no_space (NilEmpty.string_of_uint d) = true.
Proof.
  revert b. induction d; intros b Hb; simpl;
    try (destruct (IHd true (or_introl eq_refl)) as [-> ->]; done).
  destruct Hb as [->|?]; done.
Qed.

Lemma pos_to_uint_nonnil p : Pos.to_uint p ≠ Nil.
Proof.
  intros Hp. pose proof (DecimalPos.Unsigned.of_to p) as Hof.
  rewrite Hp in Hof. done.
Qed.

Lemma int_unsigned_to_uint p :
  int_unsigned (NilEmpty.string_of_uint (Pos.to_uint p)) = Some (Z.pos p).
Proof.
  unfold int_unsigned.
  destruct (string_of_uint_digits (Pos.to_uint p) false) as [-> _].
  { right. apply pos_to_uint_nonnil. }
  simpl. pose proof (pos_to_uint_nonnil p) as Hnil.
  pose proof (NilZero.usu _ Hnil) as Husu.
  assert (NilZero.string_of_uint (Pos.to_uint p)
          = NilEmpty.string_of_uint (Pos.to_uint p)) as Heq.
  { by destruct (Pos.to_uint p). }
  rewrite Heq in Husu. rewrite Husu. simpl. f_equal.
  exact (DecimalZ.of_to (Z.pos p)).
Qed.

(** [int(str(n)) == n] on the literals in ASCII digits *)
Lemma int_literal_str n : int_literal (py_str n) = Some n.
Proof.
  unfold int_literal, py_str. destruct n as [|p|p]; [done| |].
  - simpl. pose proof (int_unsigned_to_uint p) as Hp.
    pose proof (pos_to_uint_nonnil p) as Hnil.
    destruct (string_of_uint_digits (Pos.to_uint p) false) as [_ Hns];
      [by right|].
    assert (NilZero.string_of_uint (Pos.to_uint p)
            = NilEmpty.string_of_uint (Pos.to_uint p)) as ->.
    { by destruct (Pos.to_uint p). }
    rewrite strip_no_space by done.
    destruct (Pos.to_uint p); try done; simpl in *; exact Hp.
  - simpl. pose proof (int_unsigned_to_uint p) as Hp.
    pose proof (pos_to_uint_nonnil p) as Hnil.
    destruct (string_of_uint_digits (Pos.to_uint p) false) as [_ Hns];
      [by right|].
    assert (NilZero.string_of_uint (Pos.to_uint p)
            = NilEmpty.string_of_uint (Pos.to_uint p)) as ->.
    { by destruct (Pos.to_uint p). }
    rewrite strip_no_space by (simpl; done).
    by rewrite Hp.
Qed.

Lemma py_str_inj n m : py_str n = py_str m → n = m.
Proof.
  intros Heq. pose proof (int_literal_str n) as Hn.
  rewrite Heq, int_literal_str in Hn. congruence.
Qed.

Lemma py_str_truthy n : truthy (Some (py_str n)) = true.
Proof.
  destruct (py_str n) eqn:Hs; [|done].
  pose proof (int_literal_str n) as Hn. rewrite Hs in Hn. done.
Qed.

(** The reading of the literals in ASCII digits is one [int]; it is used to
    run the model on examples. *)
Lemma literal_int : PyInt.
Proof.
  exact {| py_int := int_literal;
           py_int_str := int_literal_str;
           py_int_empty := eq_refl |}.
Defined.

(** ** ElementTree *)

Lemma findall_remove_all root t t' :
  t ≠ t' → findall (remove_all root t) t' = findall root t'.
Proof.
  intros Hne. unfold findall, remove_all. simpl.
  induction (children root) as [|x l IH]; [done|].
  rewrite !filter_cons. destruct (decide (tag x ≠ t)) as [Hx|Hx].
  - rewrite filter_cons. by rewrite IH.
  - apply dec_stable in Hx. destruct (decide (tag x = t')); [|done]. congruence.
Qed.

Lemma remove_all_not_tag root t :
  Forall (λ c, tag c ≠ t) (children (remove_all root t)).
Proof.
  unfold remove_all. simpl. apply Forall_forall.
  by intros x [? _]%list_elem_of_filter.
Qed.

Lemma remove_all_id root t :
  Forall (λ c, tag c ≠ t) (children root) → children (remove_all root t) = children root.
Proof.
  unfold remove_all. simpl. induction 1 as [|x l Hx _ IH]; [done|].
  rewrite filter_cons. destruct (decide (tag x ≠ t)); [|done]. by rewrite IH.
Qed.

Lemma findall_append root c t :
  findall (append root c) t
  = findall root t ++ (if decide (tag c = t) then [c] else []).
Proof.
  unfold findall, append. simpl. rewrite filter_app. reflexivity.
Qed.

Lemma filter_alter_channel f k l :
  (∀ x, tag x = "channel" → tag (f x) = "channel") →
  filter is_channel (alter_channel f k l) = alter f k (filter is_channel l).
Proof.
  intros Hf. revert k. induction l as [|x l IH]; intros k; simpl; [done|].
  destruct (decide (tag x = "channel")) as [Hx|Hx].
  - destruct k as [|k].
    + rewrite !filter_cons. destruct (decide (tag (f x) = "channel")) as [|[]];
        [|by auto]. by destruct (decide (tag x = "channel")).
    + rewrite !filter_cons. destruct (decide (tag x = "channel")); [|done].
      simpl. by rewrite IH.
  - rewrite !filter_cons. destruct (decide (tag x = "channel")); [done|]. apply IH.
Qed.

Lemma alter_channel_not_programme f k l :
  (∀ x, tag x = "channel" → tag (f x) = "channel") →
  Forall not_programme l → Forall not_programme (alter_channel f k l).
Proof.
  intros Hf Hl. revert k. induction Hl as [|x l Hx Hl IH]; intros k; simpl; [done|].
  destruct (decide (tag x = "channel")) as [Hc|Hc].
  - destruct k; constructor; auto. rewrite Hf; done.
  - constructor; auto.
Qed.

Lemma index_of_channel_app done x t :
  tag x = "channel" →
  index_of_channel (length (filter is_channel done)) (done ++ x :: t)
  = Some (length done).
Proof.
  intros Hx. induction done as [|y l IH]; simpl.
  - by destruct (decide (tag x = "channel")).
  - rewrite filter_cons. destruct (decide (tag y = "channel")); simpl;
      by rewrite IH.
Qed.

Lemma insert_all_app (a ps t : list Element) :
  insert_all (length a) ps (a ++ t) = a ++ ps ++ t.
Proof.
  revert a. induction ps as [|p r IH]; intros a; simpl; [done|].
  unfold list_insert_at. rewrite take_app_length, drop_app_length.
  replace (a ++ p :: t) with ((a ++ [p]) ++ t) by by rewrite <-app_assoc.
  replace (S (length a)) with (length (a ++ [p])) by (rewrite length_app; simpl; lia).
  rewrite IH. by rewrite <-app_assoc.
Qed.

Lemma programmes_of_wf pm cid p :
  programmes_wf pm → p ∈ programmes_of pm cid →
  tag p = "programme" ∧ get p "channel" = cid ∧ truthy cid = true.
Proof.
  intros Hwf. unfold programmes_of. destruct cid as [k|]; simpl; [|by intros ?%elem_of_nil].
  destruct (pm !! k) as [l|] eqn:Hk; simpl; [|by intros ?%elem_of_nil].
  intros Hp. destruct (Hwf _ _ Hk) as [Hne Hl].
  rewrite Forall_forall in Hl. destruct (Hl _ Hp) as [? ?].
  split_and!; [done..|]. by destruct k.
Qed.

Lemma filter_channel_programmes_of pm cid :
  programmes_wf pm → filter is_channel (programmes_of pm cid) = [].
Proof.
  intros Hwf. pose proof (λ p, programmes_of_wf pm cid p Hwf) as Hp.
  induction (programmes_of pm cid) as [|p l IH]; [done|].
  rewrite filter_cons. destruct (Hp p) as (Ht & _); [by left|].
  destruct (decide (tag p = "channel")); [congruence|].
  apply IH. intros q Hq. apply Hp. by right.
Qed.

Lemma reinsert_loop pm done t :
  programmes_wf pm →
  foldl (reinsert_channel pm) (done ++ t)
    (seq (length (filter is_channel done)) (length (filter is_channel t)))
  = done ++ assemble pm t.
Proof.
  intros Hwf. revert done. induction t as [|x t IH]; intros done; simpl.
  - done.
  - rewrite filter_cons. destruct (decide (tag x = "channel")) as [Hx|Hx]; simpl.
    + unfold reinsert_channel at 2. rewrite index_of_channel_app by done.
      rewrite list_lookup_middle by done. simpl.
      replace (done ++ x :: t) with ((done ++ [x]) ++ t) by by rewrite <-app_assoc.
      replace (S (length done)) with (length (done ++ [x]))
        by (rewrite length_app; simpl; lia).
      rewrite insert_all_app.
      set (ps := programmes_of pm (get x "id")).
      specialize (IH ((done ++ [x]) ++ ps)).
      assert (length (filter is_channel ((done ++ [x]) ++ ps))
              = S (length (filter is_channel done))) as Hlen.
      { rewrite !filter_app, !length_app. rewrite filter_cons.
        destruct (decide (tag x = "channel")); [|done]. simpl.
        unfold ps. rewrite filter_channel_programmes_of by done. simpl. lia. }
      rewrite Hlen in IH. rewrite <-!app_assoc in IH. rewrite <-!app_assoc.
      simpl in IH. simpl. exact IH.
    + specialize (IH (done ++ [x])).
      rewrite filter_app, filter_cons in IH.
      destruct (decide (tag x = "channel")); [done|].
      rewrite filter_nil, app_nil_r in IH. rewrite <-!app_assoc in IH. exact IH.
Qed.

Lemma reinsert_children pm root :
  programmes_wf pm →
  children (reinsert pm root) = assemble pm (children root).
Proof.
  intros Hwf. unfold reinsert. simpl.
  exact (reinsert_loop pm [] (children root) Hwf).
Qed.

(** ** The invariant of the merge loop *)

Lemma extends_refl c : extends c c.
Proof. repeat split. exists []. simpl. by rewrite app_nil_r. Qed.

Lemma extends_trans c1 c2 c3 : extends c1 c2 → extends c2 c3 → extends c1 c3.
Proof.
  intros (Ht1 & Ha1 & Hx1 & l1 & Hl1) (Ht2 & Ha2 & Hx2 & l2 & Hl2).
  repeat split; try congruence. exists (l1 ++ l2).
  rewrite Hl2, Hl1, fmap_app. by rewrite app_assoc.
Qed.

Lemma foldl_append_extends t names :
  extends t (foldl append t (new_display_name <$> names)).
Proof.
  revert t. induction names as [|n r IH]; intros t; simpl; [apply extends_refl|].
  eapply extends_trans; [|apply IH].
  repeat split. by exists [n].
Qed.

Lemma descends_extends o c c' : descends o c → extends c c' → descends o c'.
Proof.
  intros [Ht Ho] Hext. split.
  - destruct Hext as (-> & _). done.
  - destruct o as [b|n].
    + by eapply extends_trans.
    + unfold get in *. destruct Hext as (_ & -> & _). done.
Qed.

Lemma foldl_id_bound_le `{PI : PyInt} m l : (m ≤ foldl id_bound m l)%Z.
Proof.
  revert m. induction l as [|c l IH]; intros m; simpl; [lia|].
  etrans; [|apply IH]. unfold id_bound.
  destruct (truthy _); [|lia]. destruct (py_int _); lia.
Qed.

Lemma foldl_id_bound_ub `{PI : PyInt} m l c s v :
  c ∈ l → get c "id" = Some s → py_int s = Some v →
  (v ≤ foldl id_bound m l)%Z.
Proof.
  revert m. induction l as [|x l IH]; intros m Hc Hs Hv; [by apply elem_of_nil in Hc|].
  apply elem_of_cons in Hc as [<-|Hc]; simpl; [|by eapply IH].
  etrans; [|apply foldl_id_bound_le]. unfold id_bound. rewrite Hs.
  destruct s as [|a s]; [by rewrite py_int_empty in Hv|]. simpl. rewrite Hv. lia.
Qed.

Lemma lookup_foldl_insert {K} `{Countable K} {A} (m : gmap K A) (l : list K) (v : A) x :
  foldl (λ m n, <[n := v]> m) m l !! x
  = if decide (x ∈ l) then Some v else m !! x.
Proof.
  revert m. induction l as [|n l IH]; intros m; simpl.
  - destruct (decide (x ∈ [])) as [?%elem_of_nil|]; done.
  - rewrite IH. destruct (decide (x ∈ l)) as [Hl|Hl].
    + rewrite decide_True; [done|by right].
    + destruct (decide (x = n)) as [->|Hne].
      * rewrite lookup_insert_eq. rewrite decide_True; [done|by left].
      * rewrite lookup_insert_ne by done. rewrite decide_False; [done|].
        intros [?|?]%elem_of_cons; done.
Qed.

Section invariant.
Context `{SetIter} `{PI : PyInt}.

(** *** The base document establishes the invariant *)

Lemma ingest_channels_fields k chs st :
  let st' := ingest_channels k chs st in
  base_root st' = base_root st ∧ id_map st' = id_map st ∧
  printed st' = printed st ∧
  max_id st' = foldl id_bound (max_id st) chs.
Proof.
  revert k st. induction chs as [|c r IH]; intros k st; simpl; [done|].
  destruct (IH (S k) (ingest_channel k c st)) as (-> & -> & -> & ->).
  unfold ingest_channel, id_bound. destruct (truthy (get c "id")); done.
Qed.

Lemma ingest_channels_names k chs st :
  map_Forall (λ _ j, j < k) (name_map st) →
  map_Forall (λ _ j, j < k + length chs)
    (name_map (ingest_channels k chs st)).
Proof.
  revert k st. induction chs as [|c r IH]; intros k st Hst; simpl.
  - by rewrite Nat.add_0_r.
  - replace (k + S (length r)) with (S k + length r) by lia. apply IH.
    unfold ingest_channel. destruct (truthy (get c "id")); simpl.
    + intros n j. rewrite lookup_foldl_insert.
      destruct (decide _); [intros [= <-]; lia|]. intros Hn.
      specialize (Hst _ _ Hn). simpl in Hst. lia.
    + eapply map_Forall_impl; [done|]. simpl. lia.
Qed.

Lemma ingest_channels_programmes k chs st :
  programmes_wf (programmes_map st) →
  programmes_wf (programmes_map (ingest_channels k chs st)).
Proof.
  revert k st. induction chs as [|c r IH]; intros k st Hst; simpl; [done|].
  apply IH. unfold ingest_channel.
  destruct (get c "id") as [[|a s]|] eqn:Hid; simpl; try done.
  apply map_Forall_insert_2; [|done]. done.
Qed.

Lemma collect_programme_wf p pm :
  tag p = "programme" → programmes_wf pm → programmes_wf (collect_programme p pm).
Proof.
  intros Hp Hwf. unfold collect_programme.
  destruct (get p "channel") as [c|] eqn:Hc; [|done].
  destruct (pm !! c) as [l|] eqn:Hl; [|done].
  destruct (Hwf _ _ Hl) as [Hne Hall].
  apply map_Forall_insert_2; [|done]. split; [done|].
  apply Forall_app. split; [done|]. by constructor.
Qed.

Lemma foldl_collect_programme_wf ps pm :
  Forall (λ p, tag p = "programme") ps → programmes_wf pm →
  programmes_wf (foldl (λ pm p, collect_programme p pm) pm ps).
Proof.
  intros Hps. revert pm. induction Hps as [|p ps Hp _ IH]; intros pm Hwf; simpl;
    [done|]. apply IH. by apply collect_programme_wf.
Qed.

Lemma findall_tag root t : Forall (λ c, tag c = t) (findall root t).
Proof. apply Forall_forall. by intros x [? _]%list_elem_of_filter. Qed.

Lemma findall_set root k v t : findall (set root k v) t = findall root t.
Proof. done. Qed.

Lemma findall_base_doc now root :
  findall (base_doc now root) "channel" = findall root "channel".
Proof. unfold base_doc. by rewrite findall_remove_all. Qed.

Lemma base_max_id_base_doc now root :
  base_max_id (base_doc now root) = base_max_id root.
Proof. unfold base_max_id. by rewrite findall_base_doc. Qed.

Lemma ingest_base_root now root st :
  base_root (ingest_base now root st) = Some (base_doc now root).
Proof. done. Qed.

Lemma ingest_base_inv now root st :
  name_map st = ∅ → programmes_map st = ∅ → max_id st = 0%Z →
  merge_inv (base_doc now root) (ingest_base now root st).
Proof.
  intros Hnm Hpm Hmax. exists (base_doc now root), 0.
  split_and!; try done.
  - unfold ingest_base. simpl.
    destruct (ingest_channels_fields 0 (findall root "channel") st)
      as (_ & _ & _ & Hm).
    rewrite !findall_set. rewrite Hm, Hmax, base_max_id_base_doc.
    unfold base_max_id. lia.
  - unfold origins. simpl. rewrite app_nil_r.
    apply Forall2_fmap_l, Forall_Forall2_diag.
    eapply Forall_impl; [apply findall_tag|]. simpl.
    intros c Hc. split; [done|apply extends_refl].
  - apply remove_all_not_tag.
  - unfold ingest_base. simpl. rewrite !findall_set, findall_base_doc.
    apply (ingest_channels_names 0). rewrite Hnm. apply map_Forall_empty.
  - unfold ingest_base. simpl. rewrite !findall_set.
    apply foldl_collect_programme_wf; [apply findall_tag|].
    apply ingest_channels_programmes. rewrite Hpm. apply map_Forall_empty.
Qed.
End invariant.

Section preservation.
Context `{SetIter} `{PI : PyInt}.

Lemma foldl_add_name k ex names t nm :
  foldl (add_name k ex) (t, nm) names
  = (foldl append t (new_display_name <$> added_names ex names),
     foldl (λ m n, <[n := k]> m) nm (added_names ex names)).
Proof.
  revert t nm. induction names as [|n r IH]; intros t nm; simpl; [done|].
  unfold added_names. rewrite filter_cons. unfold add_name at 2.
  destruct (decide (n ∈ ex)) as [Hn|Hn].
  - rewrite decide_False by auto. apply IH.
  - rewrite decide_True by done. simpl. apply IH.
Qed.

Lemma find_target_Some nm names k :
  find_target nm names = Some k → ∃ n, n ∈ names ∧ nm !! n = Some k.
Proof.
  induction names as [|n r IH]; simpl; [done|].
  destruct (nm !! n) as [j|] eqn:Hn.
  - intros [= ->]. exists n. split; [by left|done].
  - intros (m & Hm & Hk)%IH. exists m. split; [by right|done].
Qed.

Lemma find_target_None nm names :
  find_target nm names = None ↔ ∀ n, n ∈ names → nm !! n = None.
Proof.
  induction names as [|n r IH]; simpl.
  - split; [|done]. by intros _ n ?%elem_of_nil.
  - destruct (nm !! n) as [j|] eqn:Hn.
    + split; [done|]. intros Hall. specialize (Hall n (list_elem_of_here _ _)).
      congruence.
    + rewrite IH. split.
      * intros Hall m [->|Hm]%elem_of_cons; auto.
      * intros Hall m Hm. apply Hall. by right.
Qed.

Lemma merge_channel_merged ch st root k target_ch :
  get_all_names ch ≠ [] →
  find_target (name_map st) (get_all_names ch) = Some k →
  base_root st = Some root → channel_at root k = Some target_ch →
  merge_channel ch st
  = Ok (merged_state st root target_ch k (get_all_names ch) (get ch "id")).
Proof.
  intros Hne Hk Hroot Ht. unfold merge_channel.
  destruct (get_all_names ch) as [|n0 names] eqn:Hnames; [done|].
  rewrite Hk, Hroot, Ht. rewrite foldl_add_name. done.
Qed.

Lemma merge_channel_introduced ch st root :
  get_all_names ch ≠ [] →
  find_target (name_map st) (get_all_names ch) = None →
  base_root st = Some root →
  merge_channel ch st = Ok (introduced_state st root ch (get_all_names ch)).
Proof.
  intros Hne Hk Hroot. unfold merge_channel.
  destruct (get_all_names ch) as [|n0 names] eqn:Hnames; [done|].
  rewrite Hk, Hroot. done.
Qed.

Lemma merge_channel_skipped ch st :
  get_all_names ch = [] → merge_channel ch st = Ok st.
Proof. intros Hn. unfold merge_channel. by rewrite Hn. Qed.

Lemma merged_state_inv r0 st root k target_ch names old_id :
  merge_inv r0 st → base_root st = Some root →
  channel_at root k = Some target_ch →
  merge_inv r0 (merged_state st root target_ch k names old_id).
Proof.
  intros (root' & n & Hroot & Htag & Hattr & Htext & Hmax & Horig & Hnp & Hnm & Hpm)
    Hroot' Ht.
  assert (root' = root) as -> by congruence.
  set (add := added_names (get_all_names target_ch) names).
  set (t' := foldl append target_ch (new_display_name <$> add)).
  assert (extends target_ch t') as Hext by apply foldl_append_extends.
  assert (tag target_ch = "channel") as Htc.
  { apply list_elem_of_lookup_2 in Ht.
    by apply list_elem_of_filter in Ht as [? _]. }
  assert (tag t' = "channel") as Htc' by (destruct Hext as (-> & _); done).
  assert (findall (with_children root
            (alter_channel (λ _, t') k (children root))) "channel"
          = alter (λ _, t') k (findall root "channel")) as Hfind.
  { unfold findall. simpl. by apply filter_alter_channel. }
  exists (with_children root (alter_channel (λ _, t') k (children root))), n.
  split_and!; try done.
  - rewrite Hfind. apply Forall2_alter_r; [done|].
    intros o y _ Hy Hd. unfold channel_at in Ht.
    assert (y = target_ch) as -> by congruence.
    by eapply descends_extends.
  - simpl. by apply alter_channel_not_programme.
  - rewrite Hfind, length_alter. simpl. intros x j.
    rewrite lookup_foldl_insert. destruct (decide _).
    + intros [= <-]. by eapply lookup_lt_Some.
    + apply Hnm.
Qed.

Lemma origins_S bcs m0 n :
  origins bcs m0 (S n) = origins bcs m0 n ++ [Introduced (m0 + 1 + Z.of_nat n)].
Proof. unfold origins. by rewrite seqZ_S, fmap_app, app_assoc. Qed.

Lemma introduced_state_inv r0 st root ch names :
  merge_inv r0 st → base_root st = Some root → tag ch = "channel" →
  merge_inv r0 (introduced_state st root ch names).
Proof.
  intros (root' & n & Hroot & Htag & Hattr & Htext & Hmax & Horig & Hnp & Hnm & Hpm)
    Hroot' Hch.
  assert (root' = root) as -> by congruence.
  exists (append root (set ch "id" (py_str (max_id st + 1)))), (S n).
  split_and!; try done.
  - simpl. lia.
  - rewrite findall_append. simpl. rewrite decide_True by done.
    rewrite origins_S. apply Forall2_app; [done|].
    constructor; [|done]. split; [done|]. unfold get. simpl.
    rewrite lookup_insert_eq. do 2 f_equal. lia.
  - simpl. apply Forall_app. split; [done|]. constructor; [|done].
    simpl. by rewrite Hch.
  - rewrite findall_append. simpl. rewrite decide_True by done.
    rewrite length_app. simpl. intros x j. rewrite lookup_foldl_insert.
    destruct (decide _).
    + intros [= <-]. lia.
    + intros Hx. specialize (Hnm _ _ Hx). simpl in Hnm. lia.
  - simpl. apply map_Forall_insert_2; [|done]. split; [|done].
    pose proof (py_str_truthy (max_id st + 1)) as Ht.
    intros Heq. rewrite Heq in Ht. done.
Qed.

(** The channel loop does not raise once the base document is in place. *)
Lemma merge_channel_inv r0 ch st :
  merge_inv r0 st → tag ch = "channel" →
  ∃ st', merge_channel ch st = Ok st' ∧ merge_inv r0 st'
         ∧ printed st' = printed st.
Proof.
  intros Hinv Hch.
  destruct (decide (get_all_names ch = [])) as [Hn|Hn].
  { exists st. by rewrite merge_channel_skipped. }
  pose proof Hinv as (root & n & Hroot & _ & _ & _ & _ & _ & _ & Hnm & _).
  destruct (find_target (name_map st) (get_all_names ch)) as [k|] eqn:Hk.
  - destruct (find_target_Some _ _ _ Hk) as (x & _ & Hx).
    specialize (Hnm _ _ Hx). simpl in Hnm.
    destruct (lookup_lt_is_Some_2 _ _ Hnm) as [target_ch Ht].
    eexists. split; [by eapply merge_channel_merged|].
    split; [by apply merged_state_inv|done].
  - eexists. split; [by eapply merge_channel_introduced|].
    split; [by apply introduced_state_inv|done].
Qed.

Lemma merge_channels_inv r0 chs st :
  merge_inv r0 st → Forall is_channel chs →
  ∃ st', merge_channels chs st = Ok st' ∧ merge_inv r0 st'
         ∧ printed st' = printed st.
Proof.
  intros Hinv Hchs. revert st Hinv.
  induction Hchs as [|ch chs Hch _ IH]; intros st Hinv; simpl.
  - by exists st.
  - destruct (merge_channel_inv r0 ch st Hinv Hch) as (st1 & -> & Hinv1 & Hp1).
    simpl. destruct (IH st1 Hinv1) as (st2 & -> & Hinv2 & Hp2).
    exists st2. split_and!; [done..|congruence].
Qed.

Lemma print_inv r0 m st : merge_inv r0 st → merge_inv r0 (print m st).
Proof. done. Qed.

Lemma merge_programme_inv r0 st p :
  merge_inv r0 st → tag p = "programme" → merge_inv r0 (merge_programme st p).
Proof.
  intros Hinv Hp. unfold merge_programme.
  destruct (mjoin (id_map st !! get p "channel")) as [[|a s]|] eqn:Hnew; simpl;
    try by apply print_inv.
  destruct Hinv as (root & n & Hroot & Htag & Hattr & Htext & Hmax & Horig & Hnp & Hnm & Hpm).
  exists root, n. split_and!; try done. simpl.
  apply map_Forall_insert_2; [|done]. split; [done|].
  apply Forall_app. split.
  - destruct (programmes_map st !! String a s) as [l|] eqn:Hl; simpl; [|done].
    by destruct (Hpm _ _ Hl).
  - constructor; [|done]. split; [done|]. unfold get. simpl.
    by rewrite lookup_insert_eq.
Qed.

Lemma foldl_merge_programme_inv r0 ps st :
  merge_inv r0 st → Forall (λ p, tag p = "programme") ps →
  merge_inv r0 (foldl merge_programme st ps).
Proof.
  intros Hinv Hps. revert st Hinv.
  induction Hps as [|p ps Hp _ IH]; intros st Hinv; simpl; [done|].
  apply IH. by apply merge_programme_inv.
Qed.

Lemma merge_document_inv r0 root st :
  merge_inv r0 st → ∃ st', merge_document root st = Ok st' ∧ merge_inv r0 st'.
Proof.
  intros Hinv. unfold merge_document.
  destruct (merge_channels_inv r0 (findall root "channel") st Hinv)
    as (st1 & -> & Hinv1 & _); [apply findall_tag|].
  simpl. eexists. split; [done|].
  apply foldl_merge_programme_inv; [done|apply findall_tag].
Qed.

Lemma foldl_print_inv r0 out st :
  merge_inv r0 st → merge_inv r0 (foldl (λ st m, print m st) st out).
Proof.
  revert st. induction out as [|m out IH]; intros st Hinv; simpl; [done|].
  apply IH. by apply print_inv.
Qed.

Lemma merge_inputs_inv r0 now fs idx input_files st :
  merge_inv r0 st →
  ∃ st', merge_inputs now fs (S idx) input_files st = Ok st' ∧ merge_inv r0 st'.
Proof.
  revert idx st. induction input_files as [|f r IH]; intros idx st Hinv; simpl.
  - by exists st.
  - unfold merge_input. destruct (parse_tree fs f) as [[root|] out]; simpl.
    + destruct (merge_document_inv r0 root _ (foldl_print_inv r0 out st Hinv))
        as (st1 & -> & Hinv1). simpl. by apply IH.
    + apply IH. by apply foldl_print_inv.
Qed.
End preservation.

(** ** The written document *)

Section written.
Context `{SetIter} `{PI : PyInt}.

Lemma with_children_id root : with_children root (children root) = root.
Proof. by destruct root. Qed.

Lemma finish_written output_file st root :
  base_root st = Some root → Forall not_programme (children root) →
  programmes_wf (programmes_map st) →
  finish output_file st
  = Written output_file
      (with_children root (assemble (programmes_map st) (children root)))
      (printed st ++ [MsgDone output_file]).
Proof.
  intros Hroot Hnp Hwf. unfold finish. rewrite Hroot. f_equal.
  unfold reinsert. rewrite remove_all_id by done.
  pose proof (reinsert_loop (programmes_map st) [] (children root) Hwf) as Hl.
  simpl in Hl. unfold findall.
  set (root1 := remove_all root "programme").
  assert (children root1 = children root) as Hc by by apply remove_all_id.
  rewrite Hc, Hl. unfold root1, remove_all, with_children. done.
Qed.

(** With a readable base document the loop over the inputs ends in a state
    that satisfies the invariant, and [merge_files] writes its output: the
    accumulated root, each channel followed by its programmes. *)
Lemma merge_files_run now fs output_file f0 rest b :
  fs f0 = Xml b →
  ∃ st root,
    merge_inputs now fs 1 rest
      (ingest_base now b (init_state [MsgMerging (f0 :: rest) output_file]))
    = Ok st ∧
    merge_inv (base_doc now b) st ∧ base_root st = Some root ∧
    merge_files now fs output_file (f0 :: rest)
    = Written output_file
        (with_children root (assemble (programmes_map st) (children root)))
        (printed st ++ [MsgDone output_file]).
Proof.
  intros Hb. unfold merge_files. simpl. unfold merge_input at 1, parse_tree.
  rewrite Hb. simpl.
  set (st0 := init_state [MsgMerging (f0 :: rest) output_file]).
  pose proof (ingest_base_inv now b st0 eq_refl eq_refl eq_refl) as Hinv0.
  destruct (merge_inputs_inv _ now fs 0 rest _ Hinv0) as (st & Hrun & Hinv).
  rewrite Hrun.
  pose proof Hinv as (root & n & Hroot & _ & _ & _ & _ & _ & Hnp & _ & Hpm).
  exists st, root. split_and!; [done..|]. by apply finish_written.
Qed.

Lemma merge_files_written now fs output_file f0 rest b :
  fs f0 = Xml b →
  ∃ st root,
    merge_inv (base_doc now b) st ∧ base_root st = Some root ∧
    merge_files now fs output_file (f0 :: rest)
    = Written output_file
        (with_children root (assemble (programmes_map st) (children root)))
        (printed st ++ [MsgDone output_file]).
Proof.
  intros Hb.
  destruct (merge_files_run now fs output_file f0 rest b Hb)
    as (st & root & _ & ? & ? & ?).
  by exists st, root.
Qed.

Lemma filter_channel_assemble pm l :
  programmes_wf pm →
  filter is_channel (assemble pm l) = filter is_channel l.
Proof.
  intros Hwf. induction l as [|x l IH]; [done|].
  unfold assemble in *. simpl. rewrite !filter_cons, filter_app, IH.
  destruct (decide (tag x = "channel")); [|done].
  by rewrite filter_channel_programmes_of.
Qed.

Lemma elem_of_assemble pm l q :
  q ∈ assemble pm l ↔
  q ∈ l ∨ ∃ c, c ∈ l ∧ tag c = "channel" ∧ q ∈ programmes_of pm (get c "id").
Proof.
  induction l as [|x l IH].
  - split; [by intros ?%elem_of_nil|].
    intros [?%elem_of_nil|(c & ?%elem_of_nil & _)]; done.
  - unfold assemble in *. simpl. rewrite elem_of_cons, elem_of_app, IH.
    rewrite elem_of_cons. split.
    + intros [->|[Hq|[Hq|(c & Hc & Ht & Hq)]]].
      * left. by left.
      * destruct (decide (tag x = "channel")); [|by apply elem_of_nil in Hq].
        right. exists x. split_and!; [by left|done..].
      * left. by right.
      * right. exists c. split_and!; [by right|done..].
    + intros [[->|Hq]|(c & [->|Hc]%elem_of_cons & Ht & Hq)].
      * by left.
      * right. right. by left.
      * right. left. by rewrite decide_True.
      * right. right. right. by exists c.
Qed.

Lemma app_eq_skip_prefix (ps B P Q : list Element) c :
  c ∉ ps → ps ++ B = P ++ c :: Q → ∃ P', P = ps ++ P' ∧ B = P' ++ c :: Q.
Proof.
  revert P. induction ps as [|p ps IH]; intros P Hc Heq; simpl in *.
  - by exists P.
  - destruct P as [|y P]; simpl in *.
    + injection Heq as -> _. exfalso. apply Hc. by left.
    + injection Heq as -> Heq. destruct (IH P) as (P' & -> & ->); [|done|].
      * intros ?. apply Hc. by right.
      * by exists P'.
Qed.

Lemma assemble_split pm l pre c post :
  programmes_wf pm → tag c = "channel" →
  assemble pm l = pre ++ c :: post →
  ∃ l1 l2, l = l1 ++ c :: l2 ∧ pre = assemble pm l1 ∧
           post = programmes_of pm (get c "id") ++ assemble pm l2.
Proof.
  intros Hwf Hc. revert pre. induction l as [|x l IH]; intros pre Heq.
  - by destruct pre.
  - unfold assemble in Heq. simpl in Heq. fold (assemble pm l) in Heq.
    destruct pre as [|y pre]; simpl in Heq.
    + injection Heq as -> Heq. exists [], l. rewrite decide_True in Heq by done.
      done.
    + injection Heq as Hxy Heq. subst y.
      apply app_eq_skip_prefix in Heq as (P' & -> & Heq).
      * destruct (IH _ Heq) as (l1 & l2 & -> & -> & ->).
        exists (x :: l1), l2. done.
      * destruct (decide (tag x = "channel")); [|by intros ?%elem_of_nil].
        intros Hin. destruct (programmes_of_wf _ _ _ Hwf Hin) as (Ht & _).
        congruence.
Qed.
End written.

Section channels.
Context `{SetIter} `{PI : PyInt}.

(** The channels of the written document: those of the base document, with
    display-names appended at most, then the introduced ones, numbered from
    [base_max_id + 1] on. *)
Lemma merge_files_channels now fs output_file f0 rest b :
  fs f0 = Xml b →
  ∃ doc msgs kept news,
    merge_files now fs output_file (f0 :: rest) = Written output_file doc msgs ∧
    tag doc = tag b ∧ attrib doc = attrib (base_doc now b) ∧
    findall doc "channel" = kept ++ news ∧
    Forall2 extends (findall b "channel") kept ∧
    Forall2 (λ z c, get c "id" = Some (py_str z))
      (seqZ (base_max_id b + 1) (Z.of_nat (length news))) news.
Proof.
  intros Hb.
  destruct (merge_files_written now fs output_file f0 rest b Hb)
    as (st & root & Hinv & Hroot & Hrun).
  destruct Hinv as (root' & n & Hroot' & Htag & Hattr & _ & _ & Horig & _ & _ & Hpm).
  assert (root' = root) as -> by congruence.
  unfold origins in Horig. rewrite findall_base_doc, base_max_id_base_doc in Horig.
  apply Forall2_app_inv_l in Horig as (kept & news & Hkept & Hnews & Hsplit).
  assert (length news = n) as Hlen.
  { apply Forall2_length in Hnews.
    rewrite length_fmap, length_seqZ in Hnews. lia. }
  eexists _, _, kept, news. split; [exact Hrun|].
  split_and!; try done.
  - unfold findall. simpl. rewrite filter_channel_assemble by done. exact Hsplit.
  - rewrite Forall2_fmap_l in Hkept. eapply Forall2_impl; [exact Hkept|].
    by intros c c' [_ ?].
  - rewrite Forall2_fmap_l in Hnews. rewrite Hlen.
    eapply Forall2_impl; [exact Hnews|]. by intros z c' [_ ?].
Qed.
End channels.

(** ** Ids of the accumulated channels *)

Lemma omap_cons {A B} (f : A → option B) x l :
  omap f (x :: l)
  = match f x with Some y => y :: omap f l | None => omap f l end.
Proof. done. Qed.

Lemma cid_of_Some c s : cid_of c = Some s ↔ get c "id" = Some s ∧ s ≠ "".
Proof.
  unfold cid_of. destruct (get c "id") as [[|a r]|]; simpl; split;
    try done; try (by intros [? ?]); try (by intros [[= <-] ?]).
  - intros [= <-]. done.
Qed.

Lemma omap_cid_of_extends bcs kept :
  Forall2 extends bcs kept → omap cid_of kept = omap cid_of bcs.
Proof.
  induction 1 as [|c c' bcs kept (_ & Ha & _) _ IH]; [done|].
  rewrite !omap_cons, IH. unfold cid_of, get. by rewrite Ha.
Qed.

Lemma omap_cid_of_introduced zs news :
  Forall2 (λ z c, get c "id" = Some (py_str z)) zs news →
  omap cid_of news = py_str <$> zs.
Proof.
  induction 1 as [|z c zs news Hz _ IH]; [done|].
  rewrite omap_cons, IH. unfold cid_of. rewrite Hz, py_str_truthy. done.
Qed.

Instance py_str_Inj : Inj (=) (=) py_str.
Proof. intros n m. apply py_str_inj. Qed.

Lemma accumulated_ids_unique `{PI : PyInt} b kept news :
  unique_ids (findall b "channel") →
  Forall2 extends (findall b "channel") kept →
  Forall2 (λ z c, get c "id" = Some (py_str z))
    (seqZ (base_max_id b + 1) (Z.of_nat (length news))) news →
  unique_ids (kept ++ news).
Proof.
  intros Hbase Hkept Hnews. unfold unique_ids. rewrite omap_app.
  rewrite (omap_cid_of_extends _ _ Hkept), (omap_cid_of_introduced _ _ Hnews).
  apply NoDup_app. split_and!; [done| |].
  - intros s (c & Hc & Hs)%list_elem_of_omap (z & -> & Hz)%list_elem_of_fmap.
    apply cid_of_Some in Hs as [Hs _]. apply elem_of_seqZ in Hz.
    pose proof (foldl_id_bound_ub 0 _ c _ z Hc Hs (py_int_str z)) as Hub.
    fold (base_max_id b) in Hub. lia.
  - apply NoDup_fmap_2; [apply _|]. apply NoDup_seqZ.
Qed.

(** ** The ordering contract *)

Section order_and_ids.
Context `{SetIter} `{PI : PyInt}.

Lemma assemble_no_foreign_programme pm l1 c l2 cid q :
  programmes_wf pm → Forall not_programme (l1 ++ c :: l2) →
  unique_ids (filter is_channel (l1 ++ c :: l2)) →
  tag c = "channel" → get c "id" = Some cid →
  q ∈ assemble pm l1 ++ assemble pm l2 →
  ¬ (tag q = "programme" ∧ get q "channel" = Some cid).
Proof.
  intros Hwf Hnp Huniq Hc Hcid Hq [Htq Hchq].
  rewrite Forall_forall in Hnp.
  assert (∀ l, l = l1 ∨ l = l2 → q ∈ assemble pm l →
            Some cid ∈ (Some <$> omap cid_of (filter is_channel l))) as Hin.
  { intros l Hl [Hk|(c' & Hc' & Htc' & Hp)]%elem_of_assemble.
    - exfalso. apply (Hnp q); [|done].
      destruct Hl as [-> | ->]; rewrite elem_of_app, elem_of_cons; auto.
    - destruct (programmes_of_wf _ _ _ Hwf Hp) as (_ & Hch & Htr).
      apply list_elem_of_fmap_2, list_elem_of_omap. exists c'. split.
      + by apply list_elem_of_filter.
      + unfold cid_of. rewrite Htr. congruence. }
  unfold unique_ids in Huniq.
  rewrite filter_app, filter_cons, decide_True in Huniq by done.
  rewrite omap_app, omap_cons in Huniq.
  assert (cid_of c = Some cid) as Hcc.
  { apply elem_of_app in Hq as [Hq|Hq];
      [specialize (Hin l1 (or_introl eq_refl) Hq)
      |specialize (Hin l2 (or_intror eq_refl) Hq)];
      apply list_elem_of_fmap in Hin as (s & [= <-] & Hs);
      apply list_elem_of_omap in Hs as (c' & _ & Hs);
      apply cid_of_Some in Hs as [_ Hne]; by apply cid_of_Some. }
  rewrite Hcc in Huniq. apply NoDup_app in Huniq as (_ & Hdisj & Hnd).
  apply NoDup_cons in Hnd as [Hnotin _].
  apply elem_of_app in Hq as [Hq|Hq].
  - specialize (Hin l1 (or_introl eq_refl) Hq).
    apply list_elem_of_fmap in Hin as (s & [= <-] & Hs).
    apply (Hdisj _ Hs). by left.
  - specialize (Hin l2 (or_intror eq_refl) Hq).
    apply list_elem_of_fmap in Hin as (s & [= <-] & Hs). done.
Qed.

(** C2, amended.  When the channels of the base document carry pairwise
    distinct ids (empty and missing ids aside), the written document
    satisfies the ordering contract: every channel is directly followed by
    the programmes whose channel attribute is its id, as one run that ends
    at the next element that is no programme or at the end of the document,
    and no such programme stands elsewhere; a channel without id or without
    such programmes is directly followed by an element that is no
    programme. *)
Theorem ordering_contract_unique_ids now fs output_file f0 rest b :
  fs f0 = Xml b →
  unique_ids (findall b "channel") →
  ∃ doc msgs,
    merge_files now fs output_file (f0 :: rest) = Written output_file doc msgs ∧
    ordering_contract (children doc).
Proof.
  intros Hb Huniq.
  destruct (merge_files_channels now fs output_file f0 rest b Hb)
    as (doc & msgs & kept & news & Hrun & _ & _ & Hsplit & Hkept & Hnews).
  destruct (merge_files_written now fs output_file f0 rest b Hb)
    as (st & root & Hinv & Hroot & Hrun').
  rewrite Hrun' in Hrun. injection Hrun as <- <-.
  destruct Hinv as (root' & n & Hroot' & _ & _ & _ & _ & _ & Hnp & _ & Hpm).
  assert (root' = root) as -> by congruence.
  eexists _, _. split; [exact Hrun'|]. simpl.
  unfold findall in Hsplit. simpl in Hsplit.
  rewrite filter_channel_assemble in Hsplit by done.
  pose proof (accumulated_ids_unique b kept news Huniq Hkept Hnews) as Hacc.
  rewrite <-Hsplit in Hacc.
  intros pre c post Heq Hc.
  apply assemble_split in Heq as (l1 & l2 & Hl & -> & ->); [|done..].
  rewrite Hl in Hnp, Hacc.
  exists (programmes_of (programmes_map st) (get c "id")), (assemble (programmes_map st) l2).
  split_and!; [done| | |].
  - apply Forall_forall. intros p Hp.
    destruct (programmes_of_wf _ _ _ Hpm Hp) as (? & Hch & Htr). split; [done|].
    destruct (get c "id") as [cid|]; [|done]. by exists cid.
  - intros x r Hx. rewrite Forall_forall in Hnp. apply Hnp.
    destruct l2 as [|y l2]; [done|].
    unfold assemble in Hx. simpl in Hx. injection Hx as -> _.
    rewrite elem_of_app, !elem_of_cons. auto.
  - intros cid Hcid. apply Forall_forall. intros q Hq.
    by eapply assemble_no_foreign_programme.
Qed.

(** C4.  The channels introduced by a merge are numbered consecutively in
    the order of their introduction, and the number given to a channel
    exceeds every numeric id of the channels accumulated before it; ids
    that [int] rejects do not count. *)
Theorem introduced_ids_contiguous now fs output_file f0 rest b :
  fs f0 = Xml b →
  ∃ doc msgs kept news,
    merge_files now fs output_file (f0 :: rest) = Written output_file doc msgs ∧
    findall doc "channel" = kept ++ news ∧
    length kept = length (findall b "channel") ∧
    ∀ j c, news !! j = Some c →
      get c "id" = Some (py_str (base_max_id b + 1 + Z.of_nat j)) ∧
      ∀ i c0 s v,
        (kept ++ news) !! i = Some c0 → i < length kept + j →
        get c0 "id" = Some s → py_int s = Some v →
        (v < base_max_id b + 1 + Z.of_nat j)%Z.
Proof.
  intros Hb.
  destruct (merge_files_channels now fs output_file f0 rest b Hb)
    as (doc & msgs & kept & news & Hrun & _ & _ & Hsplit & Hkept & Hnews).
  exists doc, msgs, kept, news. split_and!; [done..| |].
  { symmetry. by eapply Forall2_length. }
  assert (∀ j c, news !! j = Some c →
            get c "id" = Some (py_str (base_max_id b + 1 + Z.of_nat j))) as Hid.
  { intros j c Hj.
    destruct (Forall2_lookup_r _ _ _ _ _ Hnews Hj) as (z & Hz & Hc).
    apply lookup_seqZ in Hz as [-> _]. done. }
  intros j c Hj. split; [by apply Hid|].
  intros i c0 s v Hi Hlt Hs Hv.
  destruct (decide (i < length kept)) as [Hik|Hik].
  - rewrite lookup_app_l in Hi by done.
    destruct (Forall2_lookup_r _ _ _ _ _ Hkept Hi) as (c1 & Hc1 & (_ & Ha & _)).
    apply list_elem_of_lookup_2 in Hc1.
    assert (get c1 "id" = Some s) as Hs1 by (unfold get in *; congruence).
    pose proof (foldl_id_bound_ub 0 _ c1 s v Hc1 Hs1 Hv) as Hub.
    fold (base_max_id b) in Hub. lia.
  - rewrite lookup_app_r in Hi by lia.
    pose proof (Hid _ _ Hi) as Hs'. rewrite Hs in Hs'. injection Hs' as ->.
    rewrite py_int_str in Hv. injection Hv as <-. lia.
Qed.

(** C10.  On the root of the base document the merge sets the attributes
    [generator-info-name], [generator-info-url] and [date] and no other;
    the channels of the base document stay in place and in order, with
    display-names appended at most, and the introduced channels follow
    them. *)
Theorem root_attributes_and_channel_order now fs output_file f0 rest b :
  fs f0 = Xml b →
  ∃ doc msgs kept news,
    merge_files now fs output_file (f0 :: rest) = Written output_file doc msgs ∧
    get doc "generator-info-name" = Some "tvsilo.vip" ∧
    get doc "generator-info-url" = Some "https://github.com/g12777/TV" ∧
    get doc "date" = Some now ∧
    (∀ k, k ≠ "generator-info-name" → k ≠ "generator-info-url" → k ≠ "date" →
          get doc k = get b k) ∧
    findall doc "channel" = kept ++ news ∧
    Forall2 extends (findall b "channel") kept ∧
    Forall (λ c, ∃ z, (base_max_id b < z)%Z ∧ get c "id" = Some (py_str z)) news.
Proof.
  intros Hb.
  destruct (merge_files_channels now fs output_file f0 rest b Hb)
    as (doc & msgs & kept & news & Hrun & _ & Hattr & Hsplit & Hkept & Hnews).
  exists doc, msgs, kept, news. unfold get. rewrite Hattr. simpl.
  split_and!; try done.
  - by rewrite lookup_insert_ne, lookup_insert_ne, lookup_insert_eq.
  - by rewrite lookup_insert_ne, lookup_insert_eq.
  - by rewrite lookup_insert_eq.
  - intros k H1 H2 H3. by rewrite !lookup_insert_ne.
  - apply Forall_forall. intros c Hc.
    apply list_elem_of_lookup_1 in Hc as [j Hj].
    destruct (Forall2_lookup_r _ _ _ _ _ Hnews Hj) as (z & Hz & Hid).
    apply lookup_seqZ in Hz as [-> _]. eexists. split; [|exact Hid]. lia.
Qed.
End order_and_ids.

Section missing_base.
Context `{SetIter} `{PI : PyInt}.

Lemma no_base_merge_channels msg o chs st :
  no_base msg o st →
  merge_channels chs st = Ok st ∨
  merge_channels chs st = Raise AttributeError (printed st).
Proof.
  intros (Hroot & Hnm & _). induction chs as [|ch chs IH]; simpl; [by left|].
  unfold merge_channel. destruct (get_all_names ch) as [|n names] eqn:Hn.
  - simpl. exact IH.
  - assert (find_target (name_map st) (n :: names) = None) as ->.
    { apply find_target_None. intros x _. by rewrite Hnm. }
    rewrite Hroot. simpl. by right.
Qed.

Lemma no_base_print msg o m st :
  m ≠ MsgNotGenerated o → no_base msg o st → no_base msg o (print m st).
Proof.
  intros Hm (Hroot & Hnm & Hin & Hnot). split_and!; [done..| |]; simpl.
  - apply elem_of_app. by left.
  - intros [?|?%list_elem_of_singleton]%elem_of_app; done.
Qed.

Lemma no_base_merge_programme msg o st p :
  no_base msg o st → no_base msg o (merge_programme st p).
Proof.
  intros Hnb. unfold merge_programme.
  destruct (truthy _); [|by apply no_base_print].
  destruct Hnb as (? & ? & ? & ?). done.
Qed.

Lemma no_base_merge_programmes msg o ps st :
  no_base msg o st → no_base msg o (foldl merge_programme st ps).
Proof.
  revert st. induction ps as [|p ps IH]; intros st Hnb; simpl; [done|].
  apply IH. by apply no_base_merge_programme.
Qed.

Lemma no_base_parse msg o fs f st :
  no_base msg o st →
  no_base msg o (foldl (λ st m, print m st) st (parse_tree fs f).2).
Proof.
  intros Hnb. unfold parse_tree. destruct (fs f); simpl; try done;
    by apply no_base_print.
Qed.

Lemma no_base_merge_inputs msg o now fs idx input_files st :
  no_base msg o st →
  (∃ st', merge_inputs now fs (S idx) input_files st = Ok st' ∧ no_base msg o st')
  ∨ (∃ out, merge_inputs now fs (S idx) input_files st = Raise AttributeError out
            ∧ msg ∈ out ∧ MsgNotGenerated o ∉ out).
Proof.
  revert idx st. induction input_files as [|f r IH]; intros idx st Hnb; simpl.
  - left. by exists st.
  - unfold merge_input. pose proof (no_base_parse msg o fs f st Hnb) as Hnb1.
    destruct (parse_tree fs f) as [[root|] out]; simpl in *.
    + unfold merge_document.
      destruct (no_base_merge_channels msg o (findall root "channel") _ Hnb1)
        as [-> | ->]; simpl.
      * apply IH. by apply no_base_merge_programmes.
      * right. destruct Hnb1 as (_ & _ & ? & ?). by eexists.
    + by apply IH.
Qed.

(** Without a base document [merge_files] ends in [AttributeError]: in the
    channel loop of a later input, or where the reordering starts. *)
Lemma merge_files_without_base msg now fs output_file f0 rest :
  parse_tree fs f0 = (None, [msg]) → msg ≠ MsgNotGenerated output_file →
  ∃ out,
    merge_files now fs output_file (f0 :: rest) = Raised AttributeError out ∧
    msg ∈ out ∧ MsgNotGenerated output_file ∉ out.
Proof.
  intros Hparse Hmsg. unfold merge_files. simpl. unfold merge_input at 1.
  set (st0 := init_state [MsgMerging (f0 :: rest) output_file]).
  rewrite Hparse. simpl.
  assert (no_base msg output_file (print msg st0)) as Hnb.
  { split_and!; [done..| |]; simpl.
    - apply elem_of_cons. right. by left.
    - intros [?|[?|?%elem_of_nil]%elem_of_cons]%elem_of_cons; done. }
  destruct (no_base_merge_inputs msg output_file now fs 0 rest _ Hnb)
    as [(st & -> & Hst)|(out & -> & Hin & Hnot)].
  - destruct Hst as (Hroot & _ & Hin & Hnot). unfold finish. rewrite Hroot.
    by eexists.
  - by eexists.
Qed.

Lemma parse_tree_None fs f :
  (parse_tree fs f).1 = None →
  parse_tree fs f = (None, [MsgFileMissing f]) ∨
  parse_tree fs f = (None, [MsgParseFailed f]).
Proof. unfold parse_tree. destruct (fs f); simpl; auto. done. Qed.

(** C1.  When the first input is missing or cannot be parsed,
    [merge_files] does not return: [AttributeError] is raised, at the
    latest where the reordering starts with [base_root.findall].  The
    warning for the input has been printed by then; the message that no
    file was generated is never printed. *)
Theorem missing_base_raises now fs output_file f0 rest :
  (parse_tree fs f0).1 = None →
  ∃ out,
    merge_files now fs output_file (f0 :: rest) = Raised AttributeError out ∧
    (MsgFileMissing f0 ∈ out ∨ MsgParseFailed f0 ∈ out) ∧
    MsgNotGenerated output_file ∉ out.
Proof.
  intros [Hparse|Hparse]%parse_tree_None.
  - destruct (merge_files_without_base _ now fs output_file f0 rest Hparse)
      as (out & Hrun & Hin & Hnot); [done|].
    exists out. auto.
  - destruct (merge_files_without_base _ now fs output_file f0 rest Hparse)
      as (out & Hrun & Hin & Hnot); [done|].
    exists out. auto.
Qed.

(** An empty list of inputs has no base document either. *)
Lemma no_inputs_raises now fs output_file :
  merge_files now fs output_file []
  = Raised AttributeError [MsgMerging [] output_file].
Proof. done. Qed.

(** After such a group, [main] makes no further call. *)
Lemma main_stops_at_missing_base clock fs :
  (parse_tree fs "epg/e.xml").1 = None →
  ∃ out, main clock fs = [Raised AttributeError out].
Proof.
  intros [Hparse|Hparse]%parse_tree_None; unfold main, MERGES; simpl;
    destruct (merge_files_without_base _ (hd "" clock) fs "epg/1d.xml"
                "epg/e.xml" ["epg/plsy1_1d.xml"; "epg/112114.xml"] Hparse)
      as (out & -> & _); try done; by exists out.
Qed.
End missing_base.

(** ** The id map and the programmes *)

Section id_map.
Context `{SetIter} `{PI : PyInt}.

Lemma merge_channel_cases ch st st' :
  merge_channel ch st = Ok st' →
  (get_all_names ch = [] ∧ st' = st) ∨
  (get_all_names ch ≠ [] ∧
   ((∃ root k target_ch,
       find_target (name_map st) (get_all_names ch) = Some k ∧
       base_root st = Some root ∧ channel_at root k = Some target_ch ∧
       st' = merged_state st root target_ch k (get_all_names ch) (get ch "id"))
    ∨ (∃ root,
       find_target (name_map st) (get_all_names ch) = None ∧
       base_root st = Some root ∧
       st' = introduced_state st root ch (get_all_names ch)))).
Proof.
  intros Hrun. destruct (decide (get_all_names ch = [])) as [Hn|Hn].
  { left. rewrite merge_channel_skipped in Hrun by done. split; congruence. }
  right. split; [done|].
  destruct (find_target (name_map st) (get_all_names ch)) as [k|] eqn:Hk.
  - left. unfold merge_channel in Hrun.
    destruct (get_all_names ch) as [|n0 names] eqn:Hnames; [done|].
    rewrite Hk in Hrun. destruct (base_root st) as [root|] eqn:Hroot; [|done].
    destruct (channel_at root k) as [t|] eqn:Ht; [|done].
    exists root, k, t. split_and!; [done..|].
    rewrite foldl_add_name in Hrun. by injection Hrun as <-.
  - right. unfold merge_channel in Hrun.
    destruct (get_all_names ch) as [|n0 names] eqn:Hnames; [done|].
    rewrite Hk in Hrun. destruct (base_root st) as [root|] eqn:Hroot; [|done].
    exists root. split_and!; [done..|]. by injection Hrun as <-.
Qed.

Lemma merge_channel_frame ch st st' :
  merge_channel ch st = Ok st' →
  printed st' = printed st ∧
  ∀ key, (get_all_names ch ≠ [] → get ch "id" ≠ key) →
         id_map st' !! key = id_map st !! key.
Proof.
  intros [[Hn ->]|[Hn [(root & k & t & _ & _ & _ & ->)|(root & _ & _ & ->)]]]
    %merge_channel_cases; [done| |]; (split; [done|]); intros key Hkey; simpl;
    by rewrite lookup_insert_ne by auto.
Qed.

Lemma merge_channels_frame chs st st' :
  merge_channels chs st = Ok st' →
  printed st' = printed st ∧
  ∀ key, (∀ ch, ch ∈ chs → get_all_names ch ≠ [] → get ch "id" ≠ key) →
         id_map st' !! key = id_map st !! key.
Proof.
  revert st. induction chs as [|ch chs IH]; intros st; simpl.
  - intros [= ->]. done.
  - destruct (merge_channel ch st) as [st1|] eqn:H1; [|done]. simpl.
    intros Hr. destruct (merge_channel_frame _ _ _ H1) as [Hp1 Hi1].
    destruct (IH _ Hr) as [Hp Hi]. split; [congruence|].
    intros key Hkey. rewrite Hi, Hi1; [done| |].
    + apply Hkey. by left.
    + intros c Hc. apply Hkey. by right.
Qed.

Lemma merge_programme_unresolved st p :
  truthy (mjoin (id_map st !! get p "channel")) = false →
  merge_programme st p = print (MsgNoChannel (get p "channel")) st.
Proof. intros Hf. unfold merge_programme. by rewrite Hf. Qed.

Lemma merge_programme_resolved st p new :
  mjoin (id_map st !! get p "channel") = Some new → new ≠ "" →
  merge_programme st p
  = MergeState (base_root st) (name_map st) (id_map st) (max_id st)
      (<[new := default [] (programmes_map st !! new) ++ [set p "channel" new]]>
         (programmes_map st))
      (printed st).
Proof.
  intros Hnew Hne. unfold merge_programme. rewrite Hnew.
  destruct new; [done|]. done.
Qed.

Lemma merge_programme_fields st p :
  let st' := merge_programme st p in
  base_root st' = base_root st ∧ name_map st' = name_map st ∧
  id_map st' = id_map st ∧ max_id st' = max_id st ∧
  printed st' = printed st ++ option_list (unresolved_warning (id_map st) p) ∧
  (∀ k q, recorded (programmes_map st) k q → recorded (programmes_map st') k q) ∧
  (∀ new, mjoin (id_map st !! get p "channel") = Some new → new ≠ "" →
          recorded (programmes_map st') new (set p "channel" new)).
Proof.
  unfold unresolved_warning.
  destruct (truthy (mjoin (id_map st !! get p "channel"))) eqn:Ht.
  - destruct (mjoin (id_map st !! get p "channel")) as [[|a s]|] eqn:Hnew;
      try done.
    rewrite (merge_programme_resolved st p (String a s)) by done. simpl.
    split_and!; try done.
    + by rewrite app_nil_r.
    + intros k q (l & Hl & Hq). destruct (decide (k = String a s)) as [->|Hne].
      * eexists. rewrite lookup_insert_eq. split; [done|].
        rewrite Hl. simpl. apply elem_of_app. by left.
      * exists l. by rewrite lookup_insert_ne.
    + intros new [= <-] _. eexists. rewrite lookup_insert_eq. split; [done|].
      apply elem_of_app. right. by left.
  - rewrite merge_programme_unresolved by done. simpl.
    split_and!; try done. intros new Hnew Hne. rewrite Hnew in Ht.
    by destruct new.
Qed.

Lemma merge_programmes_fields ps st :
  let st' := foldl merge_programme st ps in
  base_root st' = base_root st ∧ name_map st' = name_map st ∧
  id_map st' = id_map st ∧ max_id st' = max_id st ∧
  printed st' = printed st ++ omap (unresolved_warning (id_map st)) ps ∧
  (∀ k q, recorded (programmes_map st) k q → recorded (programmes_map st') k q) ∧
  (∀ p new, p ∈ ps → mjoin (id_map st !! get p "channel") = Some new →
            new ≠ "" → recorded (programmes_map st') new (set p "channel" new)).
Proof.
  revert st. induction ps as [|p ps IH]; intros st; cbn [foldl]; cbv zeta.
  - simpl. split_and!; try done.
    + by rewrite app_nil_r.
    + by intros p new ?%elem_of_nil.
  - destruct (IH (merge_programme st p)) as (-> & -> & Hi & -> & -> & Hmono & Hrec).
    destruct (merge_programme_fields st p) as (-> & -> & Hi1 & -> & -> & Hmono1 & Hrec1).
    rewrite Hi, Hi1. rewrite Hi1 in Hrec. split_and!; try done.
    + rewrite omap_cons, <-app_assoc. f_equal.
      by destruct (unresolved_warning (id_map st) p).
    + auto.
    + intros q new [->|Hq]%elem_of_cons Hnew Hne; [|by eapply Hrec].
      apply Hmono. by apply Hrec1.
Qed.

(** The id map across documents.  The id map is made once for a merge
    group and is not reset between documents.  After a further document has
    been merged, an
    entry under a key that none of its named channels carries as old id is
    the entry the earlier documents left there; a programme whose channel
    attribute has an entry with a non-empty id, whichever document recorded
    it, is recorded under that id with its attribute rewritten; the warnings
    printed are those for the programmes without such an entry. *)
Theorem id_map_kept_across_documents root st st' :
  merge_document root st = Ok st' →
  (∀ key,
     (∀ ch, ch ∈ findall root "channel" → get_all_names ch ≠ [] →
            get ch "id" ≠ key) →
     id_map st' !! key = id_map st !! key) ∧
  (∀ p new,
     p ∈ findall root "programme" →
     mjoin (id_map st' !! get p "channel") = Some new → new ≠ "" →
     recorded (programmes_map st') new (set p "channel" new)) ∧
  printed st' =
    printed st ++ omap (unresolved_warning (id_map st')) (findall root "programme").
Proof.
  unfold merge_document.
  destruct (merge_channels (findall root "channel") st) as [st1|] eqn:H1; [|done].
  simpl. intros [= <-].
  destruct (merge_channels_frame _ _ _ H1) as [Hp1 Hi1].
  destruct (merge_programmes_fields (findall root "programme") st1)
    as (_ & _ & Hi & _ & Hp & _ & Hrec).
  rewrite Hi, Hp, Hp1. split_and!; [done| |done].
  intros p new Hp' Hnew Hne. by apply Hrec.
Qed.
End id_map.

Section unresolved.
Context `{SetIter} `{PI : PyInt}.

Lemma collect_programme_unknown p pm :
  get p "channel" ≫= (pm !!.) = None → collect_programme p pm = pm.
Proof.
  unfold collect_programme. destruct (get p "channel") as [c|]; simpl; [|done].
  by intros ->.
Qed.

Lemma ingest_base_printed now root st :
  printed (ingest_base now root st) = printed st.
Proof.
  unfold ingest_base. simpl.
  by destruct (ingest_channels_fields 0
                 (findall (set (set (set root "generator-info-name" "tvsilo.vip")
                    "generator-info-url" "https://github.com/g12777/TV")
                    "date" now) "channel") st) as (_ & _ & -> & _).
Qed.

Lemma findall_remove_all_same root t : findall (remove_all root t) t = [].
Proof.
  unfold findall. pose proof (remove_all_not_tag root t) as Hall.
  induction Hall as [|x l Hx _ IH]; [done|].
  rewrite filter_cons. by destruct (decide (tag x = t)).
Qed.

Lemma merge_base_only now fs output_file f0 b :
  fs f0 = Xml b →
  ∃ doc, merge_files now fs output_file [f0]
         = Written output_file doc [MsgMerging [f0] output_file; MsgDone output_file].
Proof.
  intros Hb. unfold merge_files. simpl. unfold merge_input, parse_tree.
  rewrite Hb. simpl.
  set (st0 := init_state [MsgMerging [f0] output_file]).
  pose proof (ingest_base_inv now b st0 eq_refl eq_refl eq_refl)
    as (root & n & Hroot & _ & _ & _ & _ & _ & Hnp & _ & Hpm).
  rewrite (finish_written _ _ root) by done.
  rewrite ingest_base_printed. by eexists.
Qed.

(** What the two programme loops do with a programme that refers to no
    known channel.  A programme of a further document whose channel
    attribute has no entry with a non-empty id in the id map is warned
    about and not recorded, and the loop goes on.  A programme of the base
    document whose channel attribute is not the id of a base channel is not
    recorded either, and all programmes leave the root, but the base
    document is read without any warning. *)
Lemma unresolved_programme_dropped :
  (∀ st p,
     truthy (mjoin (id_map st !! get p "channel")) = false →
     merge_programme st p = print (MsgNoChannel (get p "channel")) st) ∧
  (∀ p pm,
     get p "channel" ≫= (pm !!.) = None → collect_programme p pm = pm) ∧
  (∀ now root st,
     printed (ingest_base now root st) = printed st ∧
     ∃ r, base_root (ingest_base now root st) = Some r ∧
          findall r "programme" = []) ∧
  (∀ now fs output_file f0 b,
     fs f0 = Xml b →
     ∃ doc, merge_files now fs output_file [f0]
            = Written output_file doc
                [MsgMerging [f0] output_file; MsgDone output_file]).
Proof.
  split_and!.
  - apply merge_programme_unresolved.
  - apply collect_programme_unknown.
  - intros now root st. split; [apply ingest_base_printed|].
    eexists. split; [apply ingest_base_root|]. apply findall_remove_all_same.
  - apply merge_base_only.
Qed.

(** C9.  The names of a channel are the texts of its display-name
    children with leading and trailing whitespace removed, each once; a
    display-name without text or with empty text contributes none.  What is
    removed from a text is whitespace, and what is left neither starts nor
    ends with whitespace.  Two display-names whose texts differ in
    surrounding whitespace only therefore give the same member, in whatever
    channels they stand. *)
Theorem get_all_names_stripped ch :
  NoDup (get_all_names ch) ∧
  (∀ n, n ∈ get_all_names ch ↔
        ∃ dn t, dn ∈ children ch ∧ tag dn = "display-name" ∧
                text dn = Some t ∧ t ≠ "" ∧ n = strip t) ∧
  (∀ t, (∃ pre post, t = pre +:+ strip t +:+ post ∧
                     all_space pre = true ∧ all_space post = true) ∧
        space_width (strip t) = 0 ∧
        (∀ x w, strip t = x +:+ w → all_space w = true → w = "")) ∧
  (∀ ch' dn dn' t pre post,
     dn ∈ children ch → tag dn = "display-name" → text dn = Some t → t ≠ "" →
     dn' ∈ children ch' → tag dn' = "display-name" →
     text dn' = Some (pre +:+ t +:+ post) →
     all_space pre = true → all_space post = true →
     strip t ∈ get_all_names ch ∧ strip t ∈ get_all_names ch').
Proof.
  assert (∀ c n, n ∈ get_all_names c ↔
            ∃ dn t, dn ∈ children c ∧ tag dn = "display-name" ∧
                    text dn = Some t ∧ t ≠ "" ∧ n = strip t) as Hmem.
  { intros c n. unfold get_all_names, findall.
    rewrite set_iter_elem, list_elem_of_omap. split.
    - intros (dn & [Htag Hdn]%list_elem_of_filter & Hn). unfold name_of in Hn.
      destruct (text dn) as [[|a t]|] eqn:Ht; try done.
      simpl in Hn. injection Hn as <-. by exists dn, (String a t).
    - intros (dn & t & Hdn & Htag & Ht & Hne & ->). exists dn. split.
      + by apply list_elem_of_filter.
      + unfold name_of. rewrite Ht. by destruct t. }
  split_and!.
  - apply set_iter_NoDup.
  - apply Hmem.
  - intros t. split_and!.
    + destruct (lstrip_split t) as (pre & Hpre & Hsp).
      destruct (rstrip_split (lstrip t)) as (post & Hpost & Hsp').
      exists pre, post. unfold strip. by rewrite <-Hpost.
    + apply space_width_rstrip, space_width_lstrip.
    + intros x w. apply rstrip_no_trailing.
  - intros ch' dn dn' t pre post Hdn Htag Ht Hne Hdn' Htag' Ht' Hpre Hpost.
    split; apply Hmem.
    + by exists dn, t.
    + exists dn', (pre +:+ t +:+ post). split_and!; [done..| |].
      * destruct pre; [|done]. by destruct t.
      * by rewrite strip_surrounding.
Qed.
End unresolved.

(** ** Display-names across channels *)

Section names.
Context `{SetIter} `{PI : PyInt}.

Lemma unambiguous_spec nm names n1 n2 k1 k2 :
  unambiguous nm names = true →
  n1 ∈ names → n2 ∈ names → nm !! n1 = Some k1 → nm !! n2 = Some k2 → k1 = k2.
Proof.
  unfold unambiguous. intros Hu H1 H2 Hk1 Hk2.
  assert (k1 ∈ omap (nm !!.) names) as Hin1 by (apply list_elem_of_omap; eauto).
  assert (k2 ∈ omap (nm !!.) names) as Hin2 by (apply list_elem_of_omap; eauto).
  destruct (omap (nm !!.) names) as [|k ks]; [by apply elem_of_nil in Hin1|].
  assert (∀ j, j ∈ k :: ks → j = k) as Heq.
  { intros j [->|Hj]%elem_of_cons; [done|].
    rewrite forallb_forall in Hu. apply list_elem_of_In in Hj.
    specialize (Hu _ Hj). apply Nat.eqb_eq in Hu. done. }
  rewrite (Heq _ Hin1), (Heq _ Hin2). done.
Qed.

Lemma children_foldl_append t l :
  children (foldl append t l) = children t ++ l
  ∧ tag (foldl append t l) = tag t ∧ attrib (foldl append t l) = attrib t.
Proof.
  revert t. induction l as [|x l IH]; intros t; simpl.
  - by rewrite app_nil_r.
  - destruct (IH (append t x)) as (-> & -> & ->). simpl.
    by rewrite <-app_assoc.
Qed.

Lemma get_all_names_elem ch n :
  n ∈ get_all_names ch ↔
  ∃ dn, dn ∈ children ch ∧ tag dn = "display-name" ∧ name_of dn = Some n.
Proof.
  unfold get_all_names. rewrite set_iter_elem, list_elem_of_omap. unfold findall.
  split.
  - intros (dn & [Ht Hdn]%list_elem_of_filter & Hn). by exists dn.
  - intros (dn & Hdn & Ht & Hn). exists dn. split; [|done].
    by apply list_elem_of_filter.
Qed.

Lemma get_all_names_strip_fixed ch n : n ∈ get_all_names ch → strip n = n.
Proof.
  intros (dn & _ & _ & Hn)%get_all_names_elem. unfold name_of in Hn.
  destruct (truthy (text dn)); [|done]. destruct (text dn) as [t|]; [|done].
  simpl in Hn. injection Hn as <-. apply strip_idemp.
Qed.

Lemma get_all_names_set ch k v : get_all_names (set ch k v) = get_all_names ch.
Proof. done. Qed.

(** The names of a target after the names [add] were appended to it. *)
Lemma get_all_names_appended t add n :
  (∀ a, a ∈ add → strip a = a) →
  n ∈ get_all_names (foldl append t (new_display_name <$> add)) →
  n ∈ get_all_names t ∨ n ∈ add.
Proof.
  intros Hadd (dn & Hdn & Ht & Hn)%get_all_names_elem.
  destruct (children_foldl_append t (new_display_name <$> add)) as (Hc & _).
  rewrite Hc in Hdn. apply elem_of_app in Hdn as [Hdn|Hdn].
  - left. apply get_all_names_elem. by exists dn.
  - right. apply list_elem_of_fmap in Hdn as (a & -> & Ha).
    unfold name_of in Hn. simpl in Hn. destruct a as [|x a]; [done|].
    simpl in Hn. injection Hn as <-. by rewrite Hadd.
Qed.

(** *** The base document *)

Lemma ingest_channels_name_other k chs st n :
  n ∉ chs ≫= get_all_names →
  name_map (ingest_channels k chs st) !! n = name_map st !! n.
Proof.
  revert k st. induction chs as [|c r IH]; intros k st Hn; simpl; [done|].
  rewrite bind_cons, elem_of_app in Hn. rewrite IH by tauto.
  unfold ingest_channel. destruct (truthy (get c "id")); [|done]. simpl.
  rewrite lookup_foldl_insert. rewrite decide_False; [done|tauto].
Qed.

Lemma ingest_channels_indexed k chs st :
  Forall (λ c, truthy (get c "id") = true) chs →
  names_unique chs →
  ∀ j c n, chs !! j = Some c → n ∈ get_all_names c →
           name_map (ingest_channels k chs st) !! n = Some (k + j).
Proof.
  intros Hids. revert k st. induction Hids as [|c r Hc _ IH];
    intros k st Huniq j c' n Hj Hn; [done|].
  unfold names_unique in Huniq. rewrite bind_cons in Huniq.
  apply NoDup_app in Huniq as (_ & Hdisj & Hr). simpl.
  destruct j as [|j]; simpl in Hj.
  - injection Hj as <-. rewrite ingest_channels_name_other by auto.
    unfold ingest_channel. rewrite Hc. simpl. rewrite lookup_foldl_insert.
    rewrite decide_True by done. f_equal. lia.
  - rewrite (IH (S k) _ Hr j c' n Hj Hn). f_equal. lia.
Qed.

Lemma ingest_base_indexed now b st :
  Forall (λ c, truthy (get c "id") = true) (findall b "channel") →
  names_unique (findall b "channel") →
  names_indexed (ingest_base now b st).
Proof.
  intros Hids Huniq. exists (base_doc now b). split; [done|].
  rewrite findall_base_doc. intros k c n Hk Hn. unfold ingest_base. simpl.
  rewrite !findall_set. by rewrite (ingest_channels_indexed 0 _ st Hids Huniq k c n).
Qed.

(** *** The channel loop *)

Lemma merged_state_indexed st root k target_ch ch_names old_id :
  names_indexed st → base_root st = Some root →
  channel_at root k = Some target_ch →
  (∀ n, n ∈ ch_names → strip n = n) →
  find_target (name_map st) ch_names = Some k →
  unambiguous (name_map st) ch_names = true →
  names_indexed (merged_state st root target_ch k ch_names old_id).
Proof.
  intros (root' & Hroot' & Hidx) Hroot Ht Hstrip Hk Hun.
  assert (root' = root) as -> by congruence.
  set (add := added_names (get_all_names target_ch) ch_names).
  set (t' := foldl append target_ch (new_display_name <$> add)).
  assert (tag target_ch = "channel") as Htc.
  { apply list_elem_of_lookup_2 in Ht.
    by apply list_elem_of_filter in Ht as [? _]. }
  assert (tag t' = "channel") as Htc'.
  { unfold t'. by destruct (children_foldl_append target_ch
      (new_display_name <$> add)) as (_ & -> & _). }
  assert (∀ a, a ∈ add → a ∈ ch_names) as Hadd.
  { intros a Ha. by apply list_elem_of_filter in Ha as [_ ?]. }
  eexists. split; [done|]. simpl. unfold findall. simpl.
  rewrite filter_alter_channel by done.
  intros j c n Hj Hn. rewrite lookup_foldl_insert.
  destruct (decide (n ∈ added_names (get_all_names target_ch) ch_names))
    as [Hin|Hin].
  - f_equal. destruct (decide (j = k)) as [->|Hne]; [done|].
    rewrite list_lookup_alter_ne in Hj by done.
    pose proof (Hidx _ _ _ Hj Hn) as Hnj.
    destruct (find_target_Some _ _ _ Hk) as (n0 & Hn0 & Hn0k).
    symmetry. eapply (unambiguous_spec _ _ n n0); eauto.
  - destruct (decide (j = k)) as [->|Hne].
    + rewrite list_lookup_alter_eq in Hj. unfold channel_at, findall in Ht.
      rewrite Ht in Hj. simpl in Hj. injection Hj as <-.
      apply get_all_names_appended in Hn as [Hn|Hn]; [by eapply Hidx|done|].
      intros a Ha. apply Hstrip. by apply Hadd.
    + rewrite list_lookup_alter_ne in Hj by done. by eapply Hidx.
Qed.

Lemma introduced_state_indexed st root ch :
  names_indexed st → base_root st = Some root → tag ch = "channel" →
  find_target (name_map st) (get_all_names ch) = None →
  names_indexed (introduced_state st root ch (get_all_names ch)).
Proof.
  intros (root' & Hroot' & Hidx) Hroot Hch Hk.
  assert (root' = root) as -> by congruence.
  eexists. split; [done|]. simpl. rewrite findall_append. simpl.
  rewrite decide_True by done. intros j c n Hj Hn.
  rewrite lookup_foldl_insert.
  destruct (decide (j < length (findall root "channel"))) as [Hlt|Hge].
  - rewrite lookup_app_l in Hj by done. pose proof (Hidx _ _ _ Hj Hn) as Hnj.
    rewrite decide_False; [done|]. intros Hin.
    rewrite find_target_None in Hk. rewrite (Hk _ Hin) in Hnj. done.
  - rewrite lookup_app_r in Hj by lia.
    destruct (j - length (findall root "channel")) as [|d] eqn:Hd; [|done].
    simpl in Hj. injection Hj as <-. rewrite get_all_names_set in Hn.
    rewrite decide_True by done. f_equal. lia.
Qed.

Lemma merge_channel_indexed ch st st' :
  names_indexed st → tag ch = "channel" →
  unambiguous (name_map st) (get_all_names ch) = true →
  merge_channel ch st = Ok st' → names_indexed st'.
Proof.
  intros Hidx Hch Hun
    [[Hn ->]|[Hn [(root & k & t & Hk & Hroot & Ht & ->)|(root & Hk & Hroot & ->)]]]
    %merge_channel_cases; [done| |].
  - apply merged_state_indexed; try done.
    intros n. apply get_all_names_strip_fixed.
  - by apply introduced_state_indexed.
Qed.

Lemma merge_channels_indexed chs st st' :
  names_indexed st → Forall is_channel chs →
  clear_channels chs st = true →
  merge_channels chs st = Ok st' → names_indexed st'.
Proof.
  intros Hidx Hchs. revert st Hidx.
  induction Hchs as [|ch chs Hch _ IH]; intros st Hidx; simpl.
  - by intros _ [= <-].
  - intros [Hun Hclear]%andb_prop.
    destruct (merge_channel ch st) as [st1|] eqn:H1; [|done]. simpl.
    apply IH; [|done]. by eapply merge_channel_indexed.
Qed.

Lemma foldl_print_fields out st :
  base_root (foldl (λ st m, print m st) st out) = base_root st ∧
  name_map (foldl (λ st m, print m st) st out) = name_map st.
Proof.
  revert st. induction out as [|m out IH]; intros st; simpl; [done|].
  by destruct (IH (print m st)) as [-> ->].
Qed.

Lemma names_indexed_fields st st' :
  base_root st' = base_root st → name_map st' = name_map st →
  names_indexed st → names_indexed st'.
Proof. intros Hr Hn (root & ? & ?). exists root. rewrite Hr, Hn. done. Qed.

Lemma merge_inputs_indexed now fs idx input_files st st' :
  names_indexed st →
  clear_inputs now fs (S idx) input_files st = true →
  merge_inputs now fs (S idx) input_files st = Ok st' → names_indexed st'.
Proof.
  revert idx st. induction input_files as [|f r IH]; intros idx st Hidx; simpl.
  - by intros _ [= <-].
  - unfold merge_input. destruct (parse_tree fs f) as [[root|] out]; simpl.
    + intros [Hclear Hrest]%andb_prop. unfold merge_document in *.
      set (st0 := foldl (λ st m, print m st) st out) in *.
      assert (names_indexed st0) as Hidx0.
      { destruct (foldl_print_fields out st) as [? ?].
        by eapply names_indexed_fields. }
      destruct (merge_channels (findall root "channel") st0) as [st1|] eqn:H1;
        [|done]. simpl in *. apply IH; [|done].
      destruct (merge_programmes_fields (findall root "programme") st1)
        as (? & ? & _).
      eapply names_indexed_fields; [done..|].
      eapply merge_channels_indexed; [done|apply findall_tag|done..].
    + intros Hrest. apply IH; [|done].
      destruct (foldl_print_fields out st) as [? ?].
      by eapply names_indexed_fields.
Qed.

Lemma indexed_names_unique (chs : list Element) (nm : gmap string nat) off :
  (∀ k c n, chs !! k = Some c → n ∈ get_all_names c → nm !! n = Some (off + k)) →
  names_unique chs.
Proof.
  unfold names_unique. revert off. induction chs as [|c r IH]; intros off Hidx.
  - constructor.
  - rewrite bind_cons. apply NoDup_app. split_and!.
    + apply set_iter_NoDup.
    + intros n Hn (c' & Hn' & Hc')%list_elem_of_bind.
      apply list_elem_of_lookup_1 in Hc' as [j Hj].
      pose proof (Hidx 0 c n eq_refl Hn) as H0.
      pose proof (Hidx (S j) c' n Hj Hn') as H1. rewrite H0 in H1.
      injection H1. lia.
    + apply (IH (S off)). intros k c' n Hk Hn.
      rewrite (Hidx (S k) c' n Hk Hn). f_equal. lia.
Qed.

(** C5, amended.  When every channel of the base document has a non-empty
    id, no display-name occurs on two channels of the base document, and no
    channel of a further document has, at the time it is merged, names that
    are indexed to two different channels, then no display-name occurs on
    two channels of the written document. *)
Theorem names_unique_when_unambiguous now fs output_file f0 rest b :
  fs f0 = Xml b →
  Forall (λ c, truthy (get c "id") = true) (findall b "channel") →
  names_unique (findall b "channel") →
  clear_merge now fs output_file (f0 :: rest) = true →
  ∃ doc msgs,
    merge_files now fs output_file (f0 :: rest) = Written output_file doc msgs ∧
    names_unique (findall doc "channel").
Proof.
  intros Hb Hids Huniq Hclear.
  destruct (merge_files_run now fs output_file f0 rest b Hb)
    as (st & root & Hloop & Hinv & Hroot & Hrun).
  eexists _, _. split; [exact Hrun|].
  destruct Hinv as (root' & n & Hroot' & _ & _ & _ & _ & _ & _ & _ & Hpm).
  unfold findall. simpl. rewrite filter_channel_assemble by done.
  unfold clear_merge in Hclear. simpl in Hclear.
  unfold merge_input at 1 in Hclear. unfold parse_tree in Hclear.
  rewrite Hb in Hclear. simpl in Hclear.
  assert (names_indexed st) as (root1 & Hroot1 & Hidx).
  { eapply merge_inputs_indexed; [|exact Hclear|exact Hloop].
    by apply ingest_base_indexed. }
  assert (root1 = root) as -> by congruence.
  by apply (indexed_names_unique _ (name_map st) 0).
Qed.
End names.

(** ** A channel known by name *)

Section scenario.
Context `{SetIter} `{PI : PyInt}.

Lemma set_iter_singleton x : set_iter [x] = [x].
Proof.
  pose proof (set_iter_NoDup [x]) as Hnd. pose proof (set_iter_elem [x]) as Hel.
  destruct (set_iter [x]) as [|a l].
  - specialize (Hel x). rewrite list_elem_of_singleton in Hel.
    destruct Hel as [_ Hel]. specialize (Hel eq_refl). by apply elem_of_nil in Hel.
  - assert (a = x) as ->.
    { apply list_elem_of_singleton, Hel. by left. }
    f_equal. destruct l as [|b l]; [done|].
    assert (b = x) as ->.
    { apply list_elem_of_singleton, Hel. right. by left. }
    apply NoDup_cons in Hnd as [Hnd _]. exfalso. apply Hnd. by left.
Qed.

(** C8.  The base document has one channel, with id 1 and display-name
    CNN; the second document has one channel with id 9 and display-name CNN
    and one programme of channel 9.  The written document holds the base
    channel, unchanged, directly followed by the programme with its channel
    attribute set to 1, and nothing else; no warning is printed.  All other
    attributes, texts and children are arbitrary. *)
Theorem scenario_same_name now fs output_file f0 f1
    tb ab xb a1 x1 ad1 kd1 ts as_ xs a9 x9 ad9 kd9 ap xp kp :
  let c1 := mkElement "channel" (<["id" := "1"]> a1) x1
              [mkElement "display-name" ad1 (Some "CNN") kd1] in
  let c9 := mkElement "channel" (<["id" := "9"]> a9) x9
              [mkElement "display-name" ad9 (Some "CNN") kd9] in
  let p := mkElement "programme" (<["channel" := "9"]> ap) xp kp in
  fs f0 = Xml (mkElement tb ab xb [c1]) →
  fs f1 = Xml (mkElement ts as_ xs [c9; p]) →
  ∃ doc,
    merge_files now fs output_file [f0; f1]
    = Written output_file doc
        [MsgMerging [f0; f1] output_file; MsgDone output_file] ∧
    children doc = [c1; set p "channel" "1"].
Proof.
  intros c1 c9 p H0 H1.
  assert (get_all_names c1 = ["CNN"]) as Hn1.
  { unfold get_all_names. simpl. apply set_iter_singleton. }
  assert (get_all_names c9 = ["CNN"]) as Hn9.
  { unfold get_all_names. simpl. apply set_iter_singleton. }
  assert (get c1 "id" = Some "1") as Hid1 by apply lookup_insert_eq.
  assert (get c9 "id" = Some "9") as Hid9 by apply lookup_insert_eq.
  assert (get p "channel" = Some "9") as Hpc by apply lookup_insert_eq.
  set (base := mkElement tb ab xb [c1]) in *.
  set (st0 := init_state [MsgMerging [f0; f1] output_file]).
  set (root := base_doc now base).
  set (m1 := match py_int "1" with Some v => Z.max 0 v | None => 0%Z end).
  assert (ingest_base now base st0
          = MergeState (Some root) {["CNN" := 0]} ∅ m1 {["1" := []]}
              [MsgMerging [f0; f1] output_file]) as Hst1.
  { unfold ingest_base.
    change (findall _ "channel") with [c1].
    change (findall _ "programme") with (@nil Element).
    cbn [ingest_channels foldl]. unfold ingest_channel.
    rewrite Hid1, Hn1. reflexivity. }
  set (st1 := MergeState (Some root) {["CNN" := 0]} ∅ m1 {["1" := []]}
              [MsgMerging [f0; f1] output_file]) in *.
  assert (merge_channel c9 st1
          = Ok (MergeState (Some root) {["CNN" := 0]}
                  {[Some "9" := Some "1"]} m1 {["1" := []]}
                  [MsgMerging [f0; f1] output_file])) as Hst2.
  { rewrite (merge_channel_merged c9 st1 root 0 c1); rewrite ?Hn9; try done.
    unfold merged_state. rewrite Hn1.
    change (added_names ["CNN"] ["CNN"]) with (@nil string).
    cbn [fmap list_fmap foldl]. rewrite Hid1, Hid9. reflexivity. }
  unfold merge_files. cbn [merge_inputs bind]. unfold merge_input, parse_tree.
  rewrite H0, H1. cbn [foldl bind]. fold base st0. rewrite Hst1.
  unfold merge_document.
  change (findall _ "channel") with [c9].
  change (findall _ "programme") with [p].
  cbn [merge_channels]. rewrite Hst2. cbn [bind foldl].
  rewrite (merge_programme_resolved _ p "1"); [|by rewrite Hpc|done].
  unfold finish. cbn [base_root programmes_map printed].
  eexists. split; [reflexivity|].
  unfold reinsert.
  change (findall _ "channel") with [c1].
  change (children (remove_all root "programme")) with [c1].
  cbn [length seq foldl]. unfold reinsert_channel.
  change (index_of_channel 0 [c1]) with (Some 0).
  cbn [lookup list_lookup mbind option_bind].
  rewrite Hid1. reflexivity.
Qed.
End scenario.

(** ** Runs on example documents *)

Section runs.
#[local] Existing Instance literal_int.

Lemma duplicate_id_run :
  merge_files (H := dedup_order) "20260101000000" duplicate_id_fs
    "epg/out.xml" ["epg/base.xml"]
  = Written "epg/out.xml"
      (merged_tv "20260101000000"
         [channel "1" ["A"]; programme "1" "News";
          channel "1" ["B"]; programme "1" "News"])
      [MsgMerging ["epg/base.xml"] "epg/out.xml"; MsgDone "epg/out.xml"].
Proof. vm_compute. reflexivity. Qed.

(** C2, as stated, fails: with two base channels of id 1 the programme of
    channel 1 is inserted behind each of them, so a programme of the first
    channel's id stands behind the second channel. *)
Lemma duplicate_ids_break_contract :
  ∃ doc msgs,
    merge_files (H := dedup_order) "20260101000000" duplicate_id_fs
      "epg/out.xml" ["epg/base.xml"] = Written "epg/out.xml" doc msgs ∧
    ¬ ordering_contract (children doc).
Proof.
  eexists _, _. split; [apply duplicate_id_run|]. simpl. intros Hc.
  destruct (Hc [] (channel "1" ["A"])
              [programme "1" "News"; channel "1" ["B"]; programme "1" "News"]
              eq_refl eq_refl)
    as (block & rest & Heq & Hblock & _ & Hrest).
  specialize (Hrest "1" eq_refl).
  destruct block as [|x1 [|x2 block]]; simpl in *.
  - subst rest. apply Forall_cons in Hrest as [Hp _]. by apply Hp.
  - injection Heq as <- <-. apply Forall_cons in Hrest as [_ Hrest].
    apply Forall_cons in Hrest as [Hp _]. by apply Hp.
  - injection Heq as <- <- _. apply Forall_cons in Hblock as [_ Hblock].
    apply Forall_cons in Hblock as [[Ht _] _]. done.
Defined.

Lemma stale_id_run :
  merge_files (H := dedup_order) "20260101000000" stale_id_fs
    "epg/out.xml" ["epg/a.xml"; "epg/b.xml"; "epg/c.xml"]
  = Written "epg/out.xml"
      (merged_tv "20260101000000" [channel "1" ["A"]; programme "1" "News"])
      [MsgMerging ["epg/a.xml"; "epg/b.xml"; "epg/c.xml"] "epg/out.xml";
       MsgDone "epg/out.xml"].
Proof. vm_compute. reflexivity. Qed.

(** C3.  The id map is not reset between the further documents.  The
    second document maps its channel 9 to channel 1; the third document
    declares no channel and holds a programme of channel 9.  The programme
    is resolved through the entry the second document left behind: it is
    written, re-pointed to channel 1, and no warning is printed for it. *)
Lemma stale_id_map_entry_used :
  ∃ doc msgs,
    merge_files (H := dedup_order) "20260101000000" stale_id_fs
      "epg/out.xml" ["epg/a.xml"; "epg/b.xml"; "epg/c.xml"]
    = Written "epg/out.xml" doc msgs ∧
    set (programme "9" "News") "channel" "1" ∈ children doc ∧
    MsgNoChannel (Some "9") ∉ msgs.
Proof.
  eexists _, _. split; [apply stale_id_run|]. split.
  - right. left.
  - intros [?|[?|?%elem_of_nil]%elem_of_cons]%elem_of_cons; done.
Qed.

Lemma two_targets_run :
  merge_files (H := dedup_order) "20260101000000" two_targets_fs
    "epg/out.xml" ["epg/a.xml"; "epg/b.xml"]
  = Written "epg/out.xml"
      (merged_tv "20260101000000" [channel "1" ["A"; "B"]; channel "2" ["B"]])
      [MsgMerging ["epg/a.xml"; "epg/b.xml"] "epg/out.xml"; MsgDone "epg/out.xml"].
Proof. vm_compute. reflexivity. Qed.

(** C5, as stated, fails: the incoming channel carries the names of two
    base channels; it is merged into the first match, which then carries a
    name of the other as well. *)
Lemma first_match_duplicates_name :
  ∃ doc msgs,
    merge_files (H := dedup_order) "20260101000000" two_targets_fs
      "epg/out.xml" ["epg/a.xml"; "epg/b.xml"] = Written "epg/out.xml" doc msgs ∧
    ¬ names_unique (H := dedup_order) (findall doc "channel").
Proof.
  eexists _, _. split; [apply two_targets_run|].
  apply (bool_decide_eq_false_1 (names_unique (H := dedup_order) _)).
  vm_compute. reflexivity.
Qed.

(** C6: a channel without id in a further document is not skipped.  It is
    appended with the next number, its missing old id is entered in the id
    map, and the programme without channel attribute is attached to it. *)
Example idless_channel_is_merged :
  merge_files (H := dedup_order) "20260101000000" idless_fs
    "epg/out.xml" ["epg/a.xml"; "epg/b.xml"]
  = Written "epg/out.xml"
      (merged_tv "20260101000000"
         [channel "1" ["A"]; channel "2" ["B"];
          mkElement "programme" {["channel" := "2"]} None []])
      [MsgMerging ["epg/a.xml"; "epg/b.xml"] "epg/out.xml"; MsgDone "epg/out.xml"].
Proof. vm_compute. reflexivity. Qed.

Lemma orphan_run :
  merge_files (H := dedup_order) "20260101000000" orphan_fs
    "epg/out.xml" ["epg/a.xml"]
  = Written "epg/out.xml" (merged_tv "20260101000000" [channel "1" ["A"]])
      [MsgMerging ["epg/a.xml"] "epg/out.xml"; MsgDone "epg/out.xml"].
Proof. vm_compute. reflexivity. Qed.

(** C7: the base document holds a programme of channel 99, which no input
    declares.  The programme is not written, but no warning is printed for
    it, as would be for the same programme in a further document. *)
Lemma base_orphan_dropped_silently :
  ∃ doc msgs,
    merge_files (H := dedup_order) "20260101000000" orphan_fs
      "epg/out.xml" ["epg/a.xml"] = Written "epg/out.xml" doc msgs ∧
    findall doc "programme" = [] ∧
    MsgNoChannel (Some "99") ∉ msgs.
Proof.
  eexists _, _. split; [apply orphan_run|]. split; [reflexivity|].
  intros [?|[?|?%elem_of_nil]%elem_of_cons]%elem_of_cons; done.
Qed.

(** ** The theorems at work *)

Lemma missing_base_raises_witness :
  (parse_tree (files []) "epg/base.xml").1 = None ∧
  ∃ out,
    merge_files (H := dedup_order) "20260101000000" (files []) "epg/out.xml"
      ["epg/base.xml"; "epg/second.xml"] = Raised AttributeError out ∧
    (MsgFileMissing "epg/base.xml" ∈ out ∨ MsgParseFailed "epg/base.xml" ∈ out) ∧
    MsgNotGenerated "epg/out.xml" ∉ out.
Proof.
  split; [reflexivity|].
  apply (missing_base_raises (H := dedup_order)). reflexivity.
Defined.

Lemma ordering_contract_unique_ids_witness :
  scenario1_fs "epg/base.xml" = Xml scenario1_base ∧
  unique_ids (findall scenario1_base "channel") ∧
  ∃ doc msgs,
    merge_files (H := dedup_order) "20260101000000" scenario1_fs "epg/out.xml"
      ["epg/base.xml"; "epg/second.xml"] = Written "epg/out.xml" doc msgs ∧
    ordering_contract (children doc).
Proof.
  assert (unique_ids (findall scenario1_base "channel")) as Hu.
  { apply (bool_decide_unpack _). vm_compute. exact I. }
  split; [reflexivity|]. split; [exact Hu|].
  apply (ordering_contract_unique_ids (H := dedup_order)) with (b := scenario1_base);
    [reflexivity|exact Hu].
Defined.

Lemma id_map_kept_across_documents_witness :
  ∃ st',
    merge_document (H := dedup_order) (tv [programme "9" "News"]) stale_id_state
    = Ok st' ∧
    id_map st' !! Some "9" = id_map stale_id_state !! Some "9" ∧
    recorded (programmes_map st') "1" (set (programme "9" "News") "channel" "1") ∧
    printed st' = printed stale_id_state.
Proof.
  exists (foldl merge_programme stale_id_state [programme "9" "News"]).
  split; [reflexivity|].
  destruct (id_map_kept_across_documents (H := dedup_order)
              (tv [programme "9" "News"]) stale_id_state
              (foldl merge_programme stale_id_state [programme "9" "News"])
              eq_refl)
    as (Hkeep & Hrec & Hprint).
  split_and!.
  - apply Hkeep. by intros ch ?%elem_of_nil.
  - apply Hrec; [by left|reflexivity|done].
  - exact Hprint.
Defined.

Lemma introduced_ids_contiguous_witness :
  scenario1_fs "epg/base.xml" = Xml scenario1_base ∧
  ∃ doc msgs kept news,
    merge_files (H := dedup_order) "20260101000000" scenario1_fs "epg/out.xml"
      ["epg/base.xml"; "epg/second.xml"] = Written "epg/out.xml" doc msgs ∧
    findall doc "channel" = kept ++ news ∧
    length kept = length (findall scenario1_base "channel") ∧
    ∀ j c, news !! j = Some c →
      get c "id" = Some (py_str (base_max_id scenario1_base + 1 + Z.of_nat j)) ∧
      ∀ i c0 s v,
        (kept ++ news) !! i = Some c0 → i < length kept + j →
        get c0 "id" = Some s → py_int s = Some v →
        (v < base_max_id scenario1_base + 1 + Z.of_nat j)%Z.
Proof.
  split; [reflexivity|].
  apply (introduced_ids_contiguous (H := dedup_order)). reflexivity.
Defined.

Lemma names_unique_when_unambiguous_witness :
  scenario5_fs "epg/base.xml" = Xml scenario5_base ∧
  Forall (λ c, truthy (get c "id") = true) (findall scenario5_base "channel") ∧
  names_unique (H := dedup_order) (findall scenario5_base "channel") ∧
  clear_merge (H := dedup_order) "20260101000000" scenario5_fs "epg/out.xml"
    ["epg/base.xml"; "epg/second.xml"] = true ∧
  ∃ doc msgs,
    merge_files (H := dedup_order) "20260101000000" scenario5_fs "epg/out.xml"
      ["epg/base.xml"; "epg/second.xml"] = Written "epg/out.xml" doc msgs ∧
    names_unique (H := dedup_order) (findall doc "channel").
Proof.
  assert (Forall (λ c, truthy (get c "id") = true)
            (findall scenario5_base "channel")) as Hids.
  { apply (bool_decide_unpack _). vm_compute. exact I. }
  assert (names_unique (H := dedup_order) (findall scenario5_base "channel"))
    as Hnames.
  { apply (bool_decide_unpack _). vm_compute. exact I. }
  assert (clear_merge (H := dedup_order) "20260101000000" scenario5_fs "epg/out.xml"
            ["epg/base.xml"; "epg/second.xml"] = true) as Hclear.
  { vm_compute. reflexivity. }
  split_and!; [reflexivity|exact Hids|exact Hnames|exact Hclear|].
  apply (names_unique_when_unambiguous (H := dedup_order))
    with (b := scenario5_base);
    [reflexivity|exact Hids|exact Hnames|exact Hclear].
Defined.

Lemma unresolved_programme_dropped_witness :
  truthy (mjoin (id_map stale_id_state !! get (programme "99" "Lost") "channel"))
    = false ∧
  merge_programme stale_id_state (programme "99" "Lost")
    = print (MsgNoChannel (Some "99")) stale_id_state ∧
  orphan_fs "epg/a.xml" = Xml (tv [channel "1" ["A"]; programme "99" "Lost"]) ∧
  ∃ doc,
    merge_files (H := dedup_order) "20260101000000" orphan_fs "epg/out.xml" ["epg/a.xml"]
    = Written "epg/out.xml" doc [MsgMerging ["epg/a.xml"] "epg/out.xml"; MsgDone "epg/out.xml"].
Proof.
  destruct (unresolved_programme_dropped (H := dedup_order))
    as (Hwarn & _ & _ & Hbase).
  split_and!; [reflexivity| |reflexivity|].
  - apply (Hwarn stale_id_state (programme "99" "Lost")). reflexivity.
  - apply (Hbase "20260101000000" orphan_fs "epg/out.xml" "epg/a.xml"
             (tv [channel "1" ["A"]; programme "99" "Lost"])). reflexivity.
Defined.

Lemma scenario_same_name_witness :
  let fs := files [("epg/base.xml", tv [channel "1" ["CNN"]]);
                   ("epg/second.xml", tv [channel "9" ["CNN"]; programme "9" "News"])] in
  fs "epg/base.xml" = Xml (tv [channel "1" ["CNN"]]) ∧
  fs "epg/second.xml" = Xml (tv [channel "9" ["CNN"]; programme "9" "News"]) ∧
  ∃ doc,
    merge_files (H := dedup_order) "20260101000000" fs "epg/out.xml"
      ["epg/base.xml"; "epg/second.xml"]
    = Written "epg/out.xml" doc
        [MsgMerging ["epg/base.xml"; "epg/second.xml"] "epg/out.xml"; MsgDone "epg/out.xml"] ∧
    children doc = [channel "1" ["CNN"]; programme "1" "News"].
Proof.
  intros fs. split_and!; [reflexivity..|].
  exact (scenario_same_name (H := dedup_order) "20260101000000" fs "epg/out.xml"
           "epg/base.xml" "epg/second.xml" "tv" ∅ None ∅ None ∅ [] "tv" ∅ None
           ∅ None ∅ [] ∅ None [mkElement "title" ∅ (Some "News") []]
           eq_refl eq_refl).
Defined.

Lemma get_all_names_stripped_witness :
  get_all_names (H := dedup_order) (channel "1" [" CNN "; ""; "CNN"]) = ["CNN"] ∧
  get_all_names (H := dedup_order) (channel "2" ["CNN" +:+ ideographic_space])
  = ["CNN"] ∧
  all_space (" " +:+ ideographic_space) = true ∧
  "CNN" ∈ get_all_names (H := dedup_order) (channel "1" [" CNN "; ""; "CNN"]) ∧
  "CNN" ∈ get_all_names (H := dedup_order)
            (channel "2" [" " +:+ ideographic_space +:+ "CNN" +:+ " "]).
Proof.
  split; [reflexivity|]. split; [reflexivity|]. split; [reflexivity|].
  destruct (get_all_names_stripped (H := dedup_order)
              (channel "1" [" CNN "; ""; "CNN"])) as (_ & _ & _ & Hkey).
  apply (Hkey (channel "2" [" " +:+ ideographic_space +:+ "CNN" +:+ " "])
           (display_name "CNN")
           (display_name (" " +:+ ideographic_space +:+ "CNN" +:+ " "))
           "CNN" (" " +:+ ideographic_space) " ").
  - right. right. by left.
  - reflexivity.
  - reflexivity.
  - done.
  - by left.
  - reflexivity.
  - reflexivity.
  - reflexivity.
  - reflexivity.
Defined.

Lemma root_attributes_and_channel_order_witness :
  scenario1_fs "epg/base.xml" = Xml scenario1_base ∧
  ∃ doc msgs kept news,
    merge_files (H := dedup_order) "20260101000000" scenario1_fs "epg/out.xml"
      ["epg/base.xml"; "epg/second.xml"] = Written "epg/out.xml" doc msgs ∧
    get doc "generator-info-name" = Some "tvsilo.vip" ∧
    get doc "generator-info-url" = Some "https://github.com/g12777/TV" ∧
    get doc "date" = Some "20260101000000" ∧
    (∀ k, k ≠ "generator-info-name" → k ≠ "generator-info-url" → k ≠ "date" →
          get doc k = get scenario1_base k) ∧
    findall doc "channel" = kept ++ news ∧
    Forall2 extends (findall scenario1_base "channel") kept ∧
    Forall (λ c, ∃ z, (base_max_id scenario1_base < z)%Z
                      ∧ get c "id" = Some (py_str z)) news.
Proof.
  split; [reflexivity|].
  apply (root_attributes_and_channel_order (H := dedup_order)). reflexivity.
Defined.
End runs.

(** ** The text cleaning of the serializer *)

Lemma drop_control_no_control s : no_control (drop_control s) = true.
Proof.
  induction s as [|c r IH]; simpl; [done|].
  destruct (is_control c) eqn:Hc; simpl; [done|]. by rewrite Hc.
Qed.

Lemma drop_control_id s : no_control s = true → drop_control s = s.
Proof.
  induction s as [|c r IH]; simpl; [done|].
  intros [Hc Hr]%andb_prop. apply negb_true_iff in Hc. rewrite Hc.
  by rewrite IH.
Qed.

Lemma drop_control_app a b :
  drop_control (a +:+ b) = drop_control a +:+ drop_control b.
Proof.
  induction a as [|c r IH]; simpl; [done|].
  destruct (is_control c); [done|]. by rewrite IH.
Qed.

Lemma clean_text_drop_control s : clean_text s = drop_control s.
Proof. by destruct s. Qed.

(** X1.  The result of [clean_text] holds none of the control characters
    of its class, and cleaning a second time changes nothing. *)
Theorem clean_text_no_control s :
  no_control (clean_text s) = true ∧ clean_text (clean_text s) = clean_text s.
Proof.
  rewrite !clean_text_drop_control. split.
  - apply drop_control_no_control.
  - apply drop_control_id, drop_control_no_control.
Qed.

(** X2.  [clean_text] leaves a string without such characters as it is, in
    particular every string made of printable characters, tabs and line
    breaks; it cleans a concatenation piece by piece and never makes a
    string longer. *)
Theorem clean_text_pieces :
  (∀ s, no_control s = true → clean_text s = s) ∧
  (∀ a b, clean_text (a +:+ b) = clean_text a +:+ clean_text b) ∧
  (∀ s, (String.length (clean_text s) ≤ String.length s)%nat) ∧
  is_control "009" = false ∧ is_control "010" = false ∧
  is_control "013" = false ∧ is_control " " = false.
Proof.
  split_and!; try reflexivity.
  - intros s Hs. rewrite clean_text_drop_control. by apply drop_control_id.
  - intros a b. rewrite !clean_text_drop_control. apply drop_control_app.
  - intros s. rewrite clean_text_drop_control.
    induction s as [|c r IH]; simpl; [done|].
    destruct (is_control c); simpl; lia.
Qed.

Lemma TElement_nested_ind (P : TElement → Prop) :
  (∀ e, Forall P (t_children e) → P e) → ∀ e, P e.
Proof.
  intros Hstep. fix IH 1. intros [tg at_ tx tl ch]. apply Hstep. simpl.
  induction ch as [|c ch IHch]; constructor; [apply IH|exact IHch].
Qed.

Lemma clean_field_clean o : field_clean (clean_field o).
Proof.
  intros s. unfold clean_field. destruct (truthy o) eqn:Ht.
  - destruct o as [t|]; [|done]. simpl. intros [= <-].
    rewrite clean_text_drop_control. apply drop_control_no_control.
  - destruct o as [[|a t]|]; [|done..]. by intros [= <-].
Qed.

(** X3.  [remove_whitespace_nodes] keeps the tree as it is up to texts and
    tails: the same tags and attributes in the same places.  The text and
    the tail of the element it is called on are not touched at all. *)
Theorem remove_whitespace_nodes_skeleton e :
  skeleton_of (remove_whitespace_nodes e) = skeleton_of e ∧
  t_text (remove_whitespace_nodes e) = t_text e ∧
  t_tail (remove_whitespace_nodes e) = t_tail e.
Proof.
  split; [|by destruct e].
  induction e as [e IH] using TElement_nested_ind.
  destruct e as [tg at_ tx tl ch]. simpl in *. f_equal.
  induction IH as [|c ch Hc _ IHch]; simpl; [done|].
  rewrite IHch. f_equal.
  destruct c as [tg' at' tx' tl' ch']. simpl in *.
  by injection Hc as ->.
Qed.

(** X4.  After [remove_whitespace_nodes] no text and no tail below the
    element holds a control character of the class of [clean_text]. *)
Theorem remove_whitespace_nodes_clean e :
  Forall (λ d, field_clean (t_text d) ∧ field_clean (t_tail d))
    (descendants (remove_whitespace_nodes e)).
Proof.
  induction e as [e IH] using TElement_nested_ind.
  destruct e as [tg at_ tx tl ch]. simpl in *.
  induction IH as [|c ch Hc _ IHch]; simpl; [done|].
  constructor; [split; apply clean_field_clean|].
  apply Forall_app. split; [|exact IHch].
  destruct c as [tg' at' tx' tl' ch']. simpl in *. exact Hc.
Qed.

(** ** Invariants of a run *)

Section run_invariant.
Context `{SetIter} `{PI : PyInt}.
Variable P : merge_state → Prop.
Hypothesis P_print : ∀ m st, P st → P (print m st).
Hypothesis P_programme :
  ∀ st p, tag p = "programme" → P st → P (merge_programme st p).
Hypothesis P_channel :
  ∀ ch st st', tag ch = "channel" → P st → merge_channel ch st = Ok st' → P st'.

Lemma run_invariant_prints out st :
  P st → P (foldl (λ st m, print m st) st out).
Proof.
  revert st. induction out as [|m out IH]; intros st HP; simpl; [done|].
  apply IH. by apply P_print.
Qed.

Lemma run_invariant_channels chs st st' :
  Forall is_channel chs → P st → merge_channels chs st = Ok st' → P st'.
Proof.
  intros Hchs. revert st. induction Hchs as [|ch chs Hch _ IH]; intros st HP; simpl.
  - by intros [= <-].
  - destruct (merge_channel ch st) as [st1|] eqn:H1; [|done]. simpl.
    apply IH. by eapply P_channel.
Qed.

Lemma run_invariant_programmes ps st :
  Forall (λ p, tag p = "programme") ps → P st → P (foldl merge_programme st ps).
Proof.
  intros Hps. revert st. induction Hps as [|p ps Hp _ IH]; intros st HP; simpl;
    [done|]. apply IH. by apply P_programme.
Qed.

Lemma run_invariant_document root st st' :
  P st → merge_document root st = Ok st' → P st'.
Proof.
  intros HP. unfold merge_document.
  destruct (merge_channels (findall root "channel") st) as [st1|] eqn:H1; [|done].
  simpl. intros [= <-]. apply run_invariant_programmes; [apply findall_tag|].
  eapply run_invariant_channels; [apply findall_tag|done..].
Qed.

Lemma run_invariant_input now fs idx f st st' :
  P st → merge_input now fs (S idx) f st = Ok st' → P st'.
Proof.
  intros HP. unfold merge_input. destruct (parse_tree fs f) as [[root|] out].
  - apply run_invariant_document. by apply run_invariant_prints.
  - intros [= <-]. by apply run_invariant_prints.
Qed.

Lemma run_invariant_inputs now fs idx input_files st st' :
  P st → merge_inputs now fs (S idx) input_files st = Ok st' → P st'.
Proof.
  revert idx st. induction input_files as [|f r IH]; intros idx st HP; simpl.
  - by intros [= <-].
  - destruct (merge_input now fs (S idx) f st) as [st1|] eqn:H1; [|done]. simpl.
    apply IH. by eapply run_invariant_input.
Qed.
End run_invariant.

Lemma merge_inputs_app `{SetIter} `{PI : PyInt} now fs idx l1 l2 st :
  merge_inputs now fs idx (l1 ++ l2) st
  = bind (merge_inputs now fs idx l1 st)
      (merge_inputs now fs (idx + length l1) l2).
Proof.
  revert idx st. induction l1 as [|f l1 IH]; intros idx st; simpl.
  - by rewrite Nat.add_0_r.
  - destruct (merge_input now fs idx f st) as [st1|]; simpl; [|done].
    rewrite IH. by replace (S idx + length l1) with (idx + S (length l1)) by lia.
Qed.

(** ** The ids in the maps *)

Section ids.
Context `{SetIter} `{PI : PyInt}.

Lemma ingest_channels_keys k chs st key :
  is_Some (programmes_map (ingest_channels k chs st) !! key) ↔
  is_Some (programmes_map st !! key) ∨ ∃ c, c ∈ chs ∧ cid_of c = Some key.
Proof.
  revert k st. induction chs as [|c r IH]; intros k st; simpl.
  - split; [by left|]. intros [?|(c & ?%elem_of_nil & _)]; done.
  - rewrite IH. unfold ingest_channel, cid_of.
    destruct (truthy (get c "id")) eqn:Ht; simpl.
    + destruct (get c "id") as [cid|] eqn:Hid; [|done]. simpl.
      rewrite lookup_insert_is_Some. split.
      * intros [[->|[_ ?]]|(c' & Hc' & Hk)]; [| by left |].
        -- right. exists c. rewrite Hid, Ht. split; [by left|done].
        -- right. exists c'. split; [by right|done].
      * intros [?|(c' & [->|Hc']%elem_of_cons & Hk)].
        -- left. destruct (decide (cid = key)); [by left|by right].
        -- rewrite Hid, Ht in Hk. injection Hk as ->. left. by left.
        -- right. by exists c'.
    + split.
      * intros [?|(c' & Hc' & Hk)]; [by left|]. right. exists c'.
        split; [by right|done].
      * intros [?|(c' & [->|Hc']%elem_of_cons & Hk)]; [by left| |].
        -- by rewrite Ht in Hk.
        -- right. by exists c'.
Qed.

Lemma ingest_channels_targets k chs st n j :
  name_map (ingest_channels k chs st) !! n = Some j →
  name_map st !! n = Some j ∨
  ∃ c, chs !! (j - k) = Some c ∧ (k ≤ j)%nat ∧ truthy (get c "id") = true.
Proof.
  revert k st. induction chs as [|c r IH]; intros k st; simpl; [by left|].
  intros [Hn|(c' & Hc' & Hle & Ht)]%IH.
  - unfold ingest_channel in Hn. destruct (truthy (get c "id")) eqn:Ht;
      [|by left]. simpl in Hn. rewrite lookup_foldl_insert in Hn.
    destruct (decide _); [|by left]. injection Hn as <-.
    right. exists c. rewrite Nat.sub_diag. done.
  - right. exists c'. split_and!; [|lia|done].
    replace (j - k) with (S (j - S k)) by lia. done.
Qed.

Lemma foldl_collect_keys ps pm key :
  is_Some (foldl (λ pm p, collect_programme p pm) pm ps !! key) ↔
  is_Some (pm !! key).
Proof.
  revert pm. induction ps as [|p ps IH]; intros pm; simpl; [done|].
  rewrite IH. unfold collect_programme.
  destruct (get p "channel") as [c|]; [|done].
  destruct (pm !! c) as [l|] eqn:Hl; [|done].
  rewrite lookup_insert_is_Some. split; [|by destruct (decide (c = key)); auto].
  intros [<-|[_ ?]]; [by rewrite Hl|done].
Qed.

Lemma cid_of_truthy c k : cid_of c = Some k → truthy (get c "id") = true.
Proof. unfold cid_of. by destruct (truthy (get c "id")). Qed.

Lemma ingest_base_ids_wf now b st :
  name_map st = ∅ → id_map st = ∅ → programmes_map st = ∅ → max_id st = 0%Z →
  ids_wf (ingest_base now b st).
Proof.
  intros Hnm Him Hpm Hmax. exists (base_doc now b). split; [done|].
  rewrite findall_base_doc. unfold ingest_base. simpl. rewrite !findall_set.
  destruct (ingest_channels_fields 0 (findall b "channel") st)
    as (_ & Hi & _ & Hm).
  split_and!.
  - intros k Hk. apply foldl_collect_keys, ingest_channels_keys in Hk
      as [Hk|(c & Hc & Hk)].
    + rewrite Hpm, lookup_empty in Hk. by destruct Hk.
    + exists c. split; [done|]. by apply cid_of_Some in Hk as [? _].
  - intros n k [Hk|(c & Hc & _ & Ht)]%ingest_channels_targets.
    + by rewrite Hnm in Hk.
    + exists c. by rewrite Nat.sub_0_r in Hc.
  - intros key v. by rewrite Hi, Him.
  - intros c s v Hc Hs Hv. rewrite Hm, Hmax. by eapply foldl_id_bound_ub.
Qed.

Lemma alter_same_id (chs : list Element) k t' (P : Element → Prop) c :
  (∀ t, chs !! k = Some t → get t' "id" = get t "id") →
  c ∈ chs → ∃ c', c' ∈ alter (λ _, t') k chs ∧ get c' "id" = get c "id".
Proof.
  intros Hid [j Hj]%list_elem_of_lookup_1.
  destruct (decide (j = k)) as [->|Hne].
  - exists t'. split; [|by apply Hid].
    apply (list_elem_of_lookup_2 _ k). by rewrite list_lookup_alter_eq, Hj.
  - exists c. split; [|done].
    apply (list_elem_of_lookup_2 _ j). by rewrite list_lookup_alter_ne.
Qed.

Lemma merged_state_ids_wf st root k target_ch ch_names old_id :
  ids_wf st → base_root st = Some root →
  channel_at root k = Some target_ch →
  find_target (name_map st) ch_names = Some k →
  ids_wf (merged_state st root target_ch k ch_names old_id).
Proof.
  intros (root' & Hroot' & Hkeys & Htargets & Hvalues & Hmax) Hroot Ht Hk.
  assert (root' = root) as -> by congruence.
  set (add := added_names (get_all_names target_ch) ch_names).
  set (t' := foldl append target_ch (new_display_name <$> add)).
  destruct (children_foldl_append target_ch (new_display_name <$> add))
    as (_ & Htag & Hattr). fold t' in Htag, Hattr.
  assert (tag target_ch = "channel") as Htc.
  { apply list_elem_of_lookup_2 in Ht.
    by apply list_elem_of_filter in Ht as [? _]. }
  assert (get t' "id" = get target_ch "id") as Hid
    by (unfold get; by rewrite Hattr).
  assert (findall (with_children root
            (alter_channel (λ _, t') k (children root))) "channel"
          = alter (λ _, t') k (findall root "channel")) as Hfind.
  { unfold findall. simpl. apply filter_alter_channel. intros _ _. congruence. }
  assert (∀ c, c ∈ findall root "channel" →
            ∃ c', c' ∈ alter (λ _, t') k (findall root "channel")
                  ∧ get c' "id" = get c "id") as Hkeep.
  { intros c Hc. apply (alter_same_id _ _ _ (λ _, True)); [|done].
    intros t Ht'. unfold channel_at in Ht. congruence. }
  assert (truthy (get target_ch "id") = true) as Htruthy.
  { destruct (find_target_Some _ _ _ Hk) as (n0 & _ & Hn0).
    destruct (Htargets _ _ Hn0) as (c & Hc & Htr).
    unfold channel_at in Ht. congruence. }
  eexists. split; [done|]. fold add t'. rewrite Hfind. simpl. split_and!.
  - intros key (c & Hc & Hck)%Hkeys. destruct (Hkeep c Hc) as (c' & ? & ?).
    exists c'. split; [done|congruence].
  - intros n j. rewrite lookup_foldl_insert. destruct (decide _).
    + intros [= <-]. exists t'. unfold channel_at in Ht.
      rewrite list_lookup_alter_eq, Ht. split; [done|congruence].
    + intros (c & Hc & Htr)%Htargets. destruct (decide (j = k)) as [->|Hne].
      * exists t'. unfold channel_at in Ht.
        rewrite list_lookup_alter_eq, Ht. split; [done|congruence].
      * exists c. by rewrite list_lookup_alter_ne.
  - intros key v. destruct (decide (old_id = key)) as [->|Hne].
    + rewrite lookup_insert_eq. intros [= <-] _. exists t'. split; [|done].
      apply (list_elem_of_lookup_2 _ k). unfold channel_at in Ht.
      by rewrite list_lookup_alter_eq, Ht.
    + rewrite lookup_insert_ne by done. intros Hv Htr.
      destruct (Hvalues _ _ Hv Htr) as (c & Hc & Hcv).
      destruct (Hkeep c Hc) as (c' & ? & ?). exists c'. split; [done|congruence].
  - intros c s v Hc Hs Hv.
    apply list_elem_of_lookup_1 in Hc as [j Hj].
    destruct (decide (j = k)) as [->|Hne].
    + unfold channel_at in Ht. rewrite list_lookup_alter_eq, Ht in Hj.
      simpl in Hj. injection Hj as <-. rewrite Hid in Hs.
      apply (Hmax target_ch s v); [|done..].
      by eapply list_elem_of_lookup_2.
    + rewrite list_lookup_alter_ne in Hj by done.
      apply (Hmax c s v); [|done..]. by eapply list_elem_of_lookup_2.
Qed.

Lemma introduced_state_ids_wf st root ch names :
  ids_wf st → base_root st = Some root → tag ch = "channel" →
  ids_wf (introduced_state st root ch names).
Proof.
  intros (root' & Hroot' & Hkeys & Htargets & Hvalues & Hmax) Hroot Hch.
  assert (root' = root) as -> by congruence.
  set (new_id := py_str (max_id st + 1)).
  set (ch' := set ch "id" new_id).
  assert (get ch' "id" = Some new_id) as Hid by apply lookup_insert_eq.
  eexists. split; [done|]. rewrite findall_append. simpl.
  rewrite decide_True by done. fold new_id ch'. split_and!.
  - intros key. rewrite lookup_insert_is_Some. intros [<-|[_ Hk]].
    + exists ch'. split; [|done]. apply elem_of_app. right. by left.
    + destruct (Hkeys _ Hk) as (c & ? & ?). exists c. split; [|done].
      apply elem_of_app. by left.
  - intros n j. rewrite lookup_foldl_insert. destruct (decide _).
    + intros [= <-]. exists ch'. rewrite lookup_app_r, Nat.sub_diag by done.
      split; [done|]. rewrite Hid. apply py_str_truthy.
    + intros (c & Hc & Htr)%Htargets. exists c. split; [|done].
      by apply lookup_app_l_Some.
  - intros key v. destruct (decide (get ch "id" = key)) as [->|Hne].
    + rewrite lookup_insert_eq. intros [= <-] _. exists ch'. split; [|done].
      apply elem_of_app. right. by left.
    + rewrite lookup_insert_ne by done. intros Hv Htr.
      destruct (Hvalues _ _ Hv Htr) as (c & ? & ?). exists c. split; [|done].
      apply elem_of_app. by left.
  - intros c s v [Hc|Hc%list_elem_of_singleton]%elem_of_app Hs Hv.
    + pose proof (Hmax c s v Hc Hs Hv). lia.
    + subst c. rewrite Hid in Hs. injection Hs as <-.
      unfold new_id in Hv. rewrite py_int_str in Hv. injection Hv as <-. lia.
Qed.

Lemma merge_channel_ids_wf ch st st' :
  tag ch = "channel" → ids_wf st → merge_channel ch st = Ok st' → ids_wf st'.
Proof.
  intros Hch Hwf
    [[Hn ->]|[Hn [(root & k & t & Hk & Hroot & Ht & ->)|(root & Hk & Hroot & ->)]]]
    %merge_channel_cases; [done| |].
  - by apply merged_state_ids_wf.
  - by apply introduced_state_ids_wf.
Qed.

Lemma merge_programme_ids_wf st p : ids_wf st → ids_wf (merge_programme st p).
Proof.
  intros Hwf. unfold merge_programme.
  destruct (truthy (mjoin (id_map st !! get p "channel"))) eqn:Htr; [|done].
  destruct Hwf as (root & Hroot & Hkeys & Htargets & Hvalues & Hmax).
  exists root. split; [done|]. simpl. split_and!; [|done..].
  intros key. rewrite lookup_insert_is_Some. intros [<-|[_ Hk]]; [|by apply Hkeys].
  destruct (id_map st !! get p "channel") as [[v|]|] eqn:Hv; try done.
  simpl in *. by destruct (Hvalues _ _ Hv Htr) as (c & ? & ?); exists c.
Qed.

(** Recording is kept by every step of the loop. *)
Lemma merge_channel_recorded ch st st' k p :
  tag ch = "channel" → ids_wf st → merge_channel ch st = Ok st' →
  recorded (programmes_map st) k p → recorded (programmes_map st') k p.
Proof.
  intros Hch (root' & Hroot' & Hkeys & _ & _ & Hmax)
    [[Hn ->]|[Hn [(root & j & t & Hk & Hroot & Ht & ->)|(root & Hk & Hroot & ->)]]]
    %merge_channel_cases; [done..|].
  assert (root' = root) as -> by congruence.
  intros (l & Hl & Hp). exists l. split; [|done]. simpl.
  rewrite lookup_insert_ne; [done|]. intros <-.
  destruct (Hkeys (py_str (max_id st + 1))) as (c & Hc & Hid); [by eexists|].
  pose proof (Hmax c _ _ Hc Hid (py_int_str _)). lia.
Qed.

Lemma keeps_recorded_inputs now fs idx input_files st st' :
  ids_wf st → merge_inputs now fs (S idx) input_files st = Ok st' →
  keeps_recorded st st'.
Proof.
  intros Hwf. apply (run_invariant_inputs (keeps_recorded st)).
  - intros m s [? ?]. by split.
  - intros s p _ [? Hrec]. split; [by apply merge_programme_ids_wf|].
    intros k q Hq. by apply merge_programme_fields, Hrec.
  - intros ch s s' Hch [? Hrec] Hrun. split; [by eapply merge_channel_ids_wf|].
    intros k q Hq. eapply merge_channel_recorded; [done..|]. by apply Hrec.
  - by split.
Qed.

Lemma recorded_written st root k p :
  ids_wf st → base_root st = Some root →
  recorded (programmes_map st) k p →
  p ∈ assemble (programmes_map st) (children root).
Proof.
  intros (root' & Hroot' & Hkeys & _) Hroot (l & Hl & Hp).
  assert (root' = root) as -> by congruence.
  destruct (Hkeys k) as (c & [Hc Hin]%list_elem_of_filter & Hid); [by eexists|].
  apply elem_of_assemble. right. exists c. split_and!; [done..|].
  unfold programmes_of. rewrite Hid. simpl. by rewrite Hl.
Qed.
End ids.

(** ** Programmes in the written document *)

Section conservation.
Context `{SetIter} `{PI : PyInt}.

Lemma assemble_programme_position pm l q :
  programmes_wf pm → Forall not_programme l →
  q ∈ assemble pm l → tag q = "programme" →
  ∃ l1 c l2 b1 b2,
    l = l1 ++ c :: l2 ∧ tag c = "channel" ∧
    programmes_of pm (get c "id") = b1 ++ q :: b2.
Proof.
  intros Hwf Hnp [Hq|(c & Hc & Htc & Hq)]%elem_of_assemble Htq.
  - rewrite Forall_forall in Hnp. by destruct (Hnp q Hq).
  - apply list_elem_of_split in Hc as (l1 & l2 & ->).
    apply list_elem_of_split in Hq as (b1 & b2 & Hb).
    by exists l1, c, l2, b1, b2.
Qed.

Lemma assemble_app pm l1 l2 :
  assemble pm (l1 ++ l2) = assemble pm l1 ++ assemble pm l2.
Proof. unfold assemble. by rewrite flat_map_app. Qed.

(** X5.  In the written document every programme stands behind a channel
    with a non-empty id which is the programme's channel attribute, and
    between the two stand programmes of that channel only.  This holds
    whatever the inputs are, also when ids repeat. *)
Theorem programmes_follow_their_channel now fs output_file f0 rest b :
  fs f0 = Xml b →
  ∃ doc msgs,
    merge_files now fs output_file (f0 :: rest) = Written output_file doc msgs ∧
    ∀ q, q ∈ children doc → tag q = "programme" →
      ∃ pre c block post,
        children doc = pre ++ c :: block ++ q :: post ∧
        tag c = "channel" ∧ truthy (get c "id") = true ∧
        Forall (λ p, tag p = "programme" ∧ get p "channel" = get c "id")
          (block ++ [q]).
Proof.
  intros Hb.
  destruct (merge_files_written now fs output_file f0 rest b Hb)
    as (st & root & Hinv & Hroot & Hrun).
  destruct Hinv as (root' & n & Hroot' & _ & _ & _ & _ & _ & Hnp & _ & Hpm).
  assert (root' = root) as -> by congruence.
  eexists _, _. split; [exact Hrun|]. simpl. intros q Hq Htq.
  destruct (assemble_programme_position _ _ _ Hpm Hnp Hq Htq)
    as (l1 & c & l2 & b1 & b2 & Hl & Hc & Hb12).
  exists (assemble (programmes_map st) l1), c, b1,
    (b2 ++ assemble (programmes_map st) l2).
  assert (∀ p, p ∈ b1 ++ q :: b2 →
            tag p = "programme" ∧ get p "channel" = get c "id"
            ∧ truthy (get c "id") = true) as Hall.
  { intros p Hp. rewrite <-Hb12 in Hp.
    by apply (programmes_of_wf _ _ _ Hpm) in Hp. }
  split_and!; [|done| |].
  - rewrite Hl, assemble_app. f_equal. unfold assemble at 1. simpl.
    rewrite decide_True by done. rewrite Hb12.
    by rewrite <-!app_assoc.
  - apply (Hall q). apply elem_of_app. right. by left.
  - apply Forall_forall. intros p Hp.
    destruct (Hall p) as (? & ? & _); [|done].
    apply elem_of_app in Hp as [?|Hp%list_elem_of_singleton];
      apply elem_of_app; [by left|subst p; right; by left].
Qed.

Lemma collect_programme_recorded p pm k q :
  recorded pm k q → recorded (collect_programme p pm) k q.
Proof.
  intros (l & Hl & Hq). unfold collect_programme.
  destruct (get p "channel") as [c|]; [|by exists l].
  destruct (pm !! c) as [l'|] eqn:Hc; [|by exists l].
  destruct (decide (c = k)) as [->|Hne].
  - eexists. rewrite lookup_insert_eq. split; [done|].
    apply elem_of_app. left. congruence.
  - exists l. by rewrite lookup_insert_ne.
Qed.

Lemma foldl_collect_recorded_mono ps pm k q :
  recorded pm k q → recorded (foldl (λ pm p, collect_programme p pm) pm ps) k q.
Proof.
  revert pm. induction ps as [|p ps IH]; intros pm Hq; simpl; [done|].
  by apply IH, collect_programme_recorded.
Qed.

Lemma foldl_collect_recorded ps pm k p :
  p ∈ ps → get p "channel" = Some k → is_Some (pm !! k) →
  recorded (foldl (λ pm p, collect_programme p pm) pm ps) k p.
Proof.
  revert pm. induction ps as [|q ps IH]; intros pm Hp Hk [l Hl];
    [by apply elem_of_nil in Hp|].
  simpl. apply elem_of_cons in Hp as [<-|Hp].
  - apply foldl_collect_recorded_mono. unfold collect_programme.
    rewrite Hk, Hl. eexists. rewrite lookup_insert_eq. split; [done|].
    apply elem_of_app. right. by left.
  - apply IH; [done..|]. apply (foldl_collect_keys [q]). by eexists.
Qed.

Lemma ingest_base_recorded now b st p c k :
  p ∈ findall b "programme" → c ∈ findall b "channel" →
  get p "channel" = Some k → get c "id" = Some k → k ≠ "" →
  recorded (programmes_map (ingest_base now b st)) k p.
Proof.
  intros Hp Hc Hpk Hck Hne. unfold ingest_base. simpl. rewrite !findall_set.
  apply foldl_collect_recorded; [done..|].
  apply ingest_channels_keys. right. exists c. split; [done|].
  by apply cid_of_Some.
Qed.

Lemma recorded_written_channel st root k p :
  ids_wf st → base_root st = Some root →
  recorded (programmes_map st) k p →
  p ∈ assemble (programmes_map st) (children root) ∧
  ∃ c, c ∈ assemble (programmes_map st) (children root) ∧
       tag c = "channel" ∧ get c "id" = Some k.
Proof.
  intros Hwf Hroot Hrec. split; [by eapply recorded_written|].
  destruct Hwf as (root' & Hroot' & Hkeys & _).
  assert (root' = root) as -> by congruence.
  destruct Hrec as (l & Hl & _).
  destruct (Hkeys k) as (c & [Hc Hin]%list_elem_of_filter & Hid); [by eexists|].
  exists c. split_and!; [|done..]. apply elem_of_assemble. by left.
Qed.

(** X6.  No programme of the base document is lost whose channel attribute
    is the non-empty id of a channel of the base document: it is written,
    unchanged, whatever the further inputs are. *)
Theorem base_programme_written now fs output_file f0 rest b p c :
  fs f0 = Xml b →
  p ∈ findall b "programme" → c ∈ findall b "channel" →
  get p "channel" = get c "id" → truthy (get c "id") = true →
  ∃ doc msgs,
    merge_files now fs output_file (f0 :: rest) = Written output_file doc msgs ∧
    p ∈ children doc.
Proof.
  intros Hb Hp Hc Hpc Htr.
  destruct (merge_files_run now fs output_file f0 rest b Hb)
    as (st & root & Hloop & _ & Hroot & Hrun).
  eexists _, _. split; [exact Hrun|]. simpl.
  destruct (get c "id") as [k|] eqn:Hk; [|done].
  set (st0 := ingest_base now b
                (init_state [MsgMerging (f0 :: rest) output_file])) in *.
  assert (ids_wf st0) as Hwf0 by by apply ingest_base_ids_wf.
  destruct (keeps_recorded_inputs _ _ _ _ _ _ Hwf0 Hloop) as [Hwf Hkeep].
  eapply recorded_written; [done..|]. apply Hkeep.
  eapply ingest_base_recorded; [done..|]. by destruct k.
Qed.

Lemma merge_channel_id_map_truthy ch st st' :
  ids_wf st → merge_channel ch st = Ok st' →
  (∀ key, truthy (mjoin (id_map st !! key)) = true →
          truthy (mjoin (id_map st' !! key)) = true) ∧
  (get_all_names ch ≠ [] →
   truthy (mjoin (id_map st' !! get ch "id")) = true).
Proof.
  intros (root' & Hroot' & _ & Htargets & _)
    [[Hn ->]|[Hn [(root & k & t & Hk & Hroot & Ht & ->)|(root & Hk & Hroot & ->)]]]
    %merge_channel_cases; [done| |]; simpl.
  - assert (root' = root) as -> by congruence.
    set (t' := foldl append t _).
    assert (truthy (get t' "id") = true) as Htr.
    { destruct (find_target_Some _ _ _ Hk) as (n0 & _ & Hn0).
      destruct (Htargets _ _ Hn0) as (c & Hc & Htr).
      unfold channel_at in Ht.
      destruct (children_foldl_append t
                  (new_display_name <$>
                     added_names (get_all_names t) (get_all_names ch)))
        as (_ & _ & Hattr).
      unfold get, t'. rewrite Hattr. unfold get in Htr. congruence. }
    split.
    + intros key Hkey. destruct (decide (get ch "id" = key)) as [->|Hne].
      * by rewrite lookup_insert_eq.
      * by rewrite lookup_insert_ne.
    + intros _. by rewrite lookup_insert_eq.
  - split.
    + intros key Hkey. destruct (decide (get ch "id" = key)) as [->|Hne].
      * rewrite lookup_insert_eq. apply py_str_truthy.
      * by rewrite lookup_insert_ne.
    + intros _. rewrite lookup_insert_eq. apply py_str_truthy.
Qed.

Lemma merge_channels_id_map_truthy chs st st' ch :
  ids_wf st → Forall is_channel chs → merge_channels chs st = Ok st' →
  ch ∈ chs → get_all_names ch ≠ [] →
  truthy (mjoin (id_map st' !! get ch "id")) = true.
Proof.
  intros Hwf Hchs. revert st Hwf.
  induction Hchs as [|c chs Hc Hchs IH]; intros st Hwf; simpl.
  - by intros _ ?%elem_of_nil.
  - destruct (merge_channel c st) as [st1|] eqn:H1; [|done]. simpl.
    intros Hrun [->|Hin]%elem_of_cons Hn.
    + destruct (merge_channel_id_map_truthy _ _ _ Hwf H1) as [_ Hset].
      specialize (Hset Hn).
      assert (ids_wf st1) as Hwf1 by by eapply merge_channel_ids_wf.
      clear IH H1. revert st1 Hrun Hset Hwf1.
      induction Hchs as [|c' chs' Hc' _ IH']; intros st1; simpl.
      * by intros [= <-].
      * destruct (merge_channel c' st1) as [st2|] eqn:H2; [|done]. simpl.
        intros Hrun Hset Hwf1. apply (IH' st2); [done| |].
        -- by apply (merge_channel_id_map_truthy _ _ _ Hwf1 H2).
        -- by eapply merge_channel_ids_wf.
    + apply (IH st1); [|done..]. by eapply merge_channel_ids_wf.
Qed.

(** X7.  No programme of a further document is lost whose channel
    attribute is the id of a channel of that document with a usable
    display-name: it is written with its channel attribute set to the id of
    a channel of the written document. *)
Theorem further_programme_written now fs output_file f0 l1 f l2 b r p ch :
  fs f0 = Xml b → fs f = Xml r →
  p ∈ findall r "programme" → ch ∈ findall r "channel" →
  get_all_names ch ≠ [] → get p "channel" = get ch "id" →
  ∃ doc msgs new c,
    merge_files now fs output_file (f0 :: l1 ++ f :: l2)
    = Written output_file doc msgs ∧
    set p "channel" new ∈ children doc ∧
    c ∈ children doc ∧ tag c = "channel" ∧ get c "id" = Some new.
Proof.
  intros Hb Hr Hp Hch Hn Hpc.
  destruct (merge_files_run now fs output_file f0 (l1 ++ f :: l2) b Hb)
    as (st & root & Hloop & _ & Hroot & Hrun).
  set (st0 := ingest_base now b
                (init_state [MsgMerging (f0 :: l1 ++ f :: l2) output_file])) in *.
  assert (ids_wf st0) as Hwf0 by by apply ingest_base_ids_wf.
  rewrite merge_inputs_app in Hloop.
  destruct (merge_inputs now fs 1 l1 st0) as [sa|] eqn:Ha; [|done].
  simpl in Hloop. unfold merge_input, parse_tree in Hloop. rewrite Hr in Hloop.
  simpl in Hloop. unfold merge_document in Hloop.
  destruct (merge_channels (findall r "channel") sa) as [s1|] eqn:H1; [|done].
  simpl in Hloop.
  set (sb := foldl merge_programme s1 (findall r "programme")) in *.
  destruct (keeps_recorded_inputs _ _ _ _ _ _ Hwf0 Ha) as [Hwfa _].
  assert (ids_wf s1) as Hwf1.
  { eapply (run_invariant_channels ids_wf); [|apply findall_tag|done..].
    intros c s s' Hc. by apply merge_channel_ids_wf. }
  pose proof (merge_channels_id_map_truthy _ _ _ ch Hwfa (findall_tag _ _)
                H1 Hch Hn) as Htr.
  rewrite <-Hpc in Htr.
  destruct (mjoin (id_map s1 !! get p "channel")) as [new|] eqn:Hnew; [|done].
  assert (new ≠ "") as Hne by (by destruct new).
  destruct (merge_programmes_fields (findall r "programme") s1)
    as (_ & _ & _ & _ & _ & _ & Hrec).
  specialize (Hrec p new Hp Hnew Hne). fold sb in Hrec.
  assert (ids_wf sb) as Hwfb.
  { apply (run_invariant_programmes ids_wf); [|apply findall_tag|done].
    intros s q _. apply merge_programme_ids_wf. }
  destruct (keeps_recorded_inputs _ _ _ _ _ _ Hwfb Hloop) as [Hwf Hkeep].
  destruct (recorded_written_channel st root new _ Hwf Hroot (Hkeep _ _ Hrec))
    as (Hin & c & Hc & Htc & Hid).
  eexists _, _, new, c. split; [exact Hrun|]. done.
Qed.
End conservation.

(** ** What the printed messages do not influence *)

Section same_data.
Context `{SetIter} `{PI : PyInt}.

Lemma data_of_print m st : data_of (print m st) = data_of st.
Proof. done. Qed.

Lemma data_of_prints out st :
  data_of (foldl (λ st m, print m st) st out) = data_of st.
Proof.
  revert st. induction out as [|m out IH]; intros st; simpl; [done|].
  by rewrite IH.
Qed.

Lemma merge_channel_same ch st1 st2 :
  data_of st1 = data_of st2 →
  same_result (merge_channel ch st1) (merge_channel ch st2).
Proof.
  destruct st1 as [r1 n1 i1 m1 p1 o1], st2 as [r2 n2 i2 m2 p2 o2].
  unfold data_of. simpl. intros [= -> -> -> -> ->].
  unfold merge_channel. simpl.
  destruct (get_all_names ch) as [|n0 names]; [done|].
  destruct (find_target n2 (n0 :: names)) as [k|].
  - destruct r2 as [root|]; [|done].
    destruct (channel_at root k) as [t|]; [|done].
    by destruct (foldl _ _ _).
  - by destruct r2.
Qed.

Lemma bind_same r1 r2 f1 f2 :
  same_result r1 r2 →
  (∀ st1 st2, data_of st1 = data_of st2 → same_result (f1 st1) (f2 st2)) →
  same_result (bind r1 f1) (bind r2 f2).
Proof. destruct r1, r2; simpl; try done. intros ? Hf. by apply Hf. Qed.

Lemma merge_channels_same chs st1 st2 :
  data_of st1 = data_of st2 →
  same_result (merge_channels chs st1) (merge_channels chs st2).
Proof.
  revert st1 st2. induction chs as [|ch chs IH]; intros st1 st2 Hd; simpl;
    [done|]. apply bind_same; [by apply merge_channel_same|done].
Qed.

Lemma merge_programme_same st1 st2 p :
  data_of st1 = data_of st2 →
  data_of (merge_programme st1 p) = data_of (merge_programme st2 p).
Proof.
  destruct st1 as [r1 n1 i1 m1 p1 o1], st2 as [r2 n2 i2 m2 p2 o2].
  unfold data_of. simpl. intros [= -> -> -> -> ->].
  unfold merge_programme. simpl. by destruct (truthy _).
Qed.

Lemma merge_programmes_same ps st1 st2 :
  data_of st1 = data_of st2 →
  data_of (foldl merge_programme st1 ps) = data_of (foldl merge_programme st2 ps).
Proof.
  revert st1 st2. induction ps as [|p ps IH]; intros st1 st2 Hd; simpl; [done|].
  by apply IH, merge_programme_same.
Qed.

Lemma merge_document_same root st1 st2 :
  data_of st1 = data_of st2 →
  same_result (merge_document root st1) (merge_document root st2).
Proof.
  intros Hd. unfold merge_document. apply bind_same.
  - by apply merge_channels_same.
  - intros s1 s2 Hs. simpl. by apply merge_programmes_same.
Qed.

Lemma ingest_channels_same k chs st1 st2 :
  data_of st1 = data_of st2 →
  data_of (ingest_channels k chs st1) = data_of (ingest_channels k chs st2).
Proof.
  revert k st1 st2. induction chs as [|c chs IH]; intros k st1 st2 Hd; simpl;
    [done|]. apply IH.
  destruct st1 as [r1 n1 i1 m1 p1 o1], st2 as [r2 n2 i2 m2 p2 o2].
  unfold data_of in *. simpl in *. injection Hd as -> -> -> -> ->.
  unfold ingest_channel. simpl. by destruct (truthy _).
Qed.

Lemma ingest_base_same now root st1 st2 :
  data_of st1 = data_of st2 →
  data_of (ingest_base now root st1) = data_of (ingest_base now root st2).
Proof.
  intros Hd. unfold ingest_base.
  set (chs := findall _ "channel"). set (ps := findall _ "programme").
  pose proof (ingest_channels_same 0 chs st1 st2 Hd) as Hi.
  unfold data_of in *. simpl. by injection Hi as _ -> -> -> ->.
Qed.

(** The place of an input in the list matters only as first or not. *)
Lemma merge_input_same now fs i j f st1 st2 :
  data_of st1 = data_of st2 → (i = 0 ↔ j = 0) →
  same_result (merge_input now fs i f st1) (merge_input now fs j f st2).
Proof.
  intros Hd Hij. unfold merge_input.
  destruct (parse_tree fs f) as [[root|] out]; simpl.
  - destruct i as [|i], j as [|j]; try (destruct Hij; done); try lia.
    + simpl. apply ingest_base_same. by rewrite !data_of_prints.
    + apply merge_document_same. by rewrite !data_of_prints.
  - by rewrite !data_of_prints.
Qed.

Lemma merge_inputs_same now fs i j l st1 st2 :
  data_of st1 = data_of st2 →
  same_result (merge_inputs now fs (S i) l st1) (merge_inputs now fs (S j) l st2).
Proof.
  revert i j st1 st2. induction l as [|f l IH]; intros i j st1 st2 Hd; simpl;
    [done|]. apply bind_same; [by apply merge_input_same|].
  intros s1 s2 Hs. by apply IH.
Qed.

Lemma merge_inputs_skip now fs i j l1 f l2 st1 st2 :
  (parse_tree fs f).1 = None → data_of st1 = data_of st2 →
  same_result (merge_inputs now fs (S i) (l1 ++ f :: l2) st1)
    (merge_inputs now fs (S j) (l1 ++ l2) st2).
Proof.
  intros Hf. revert i j st1 st2.
  induction l1 as [|g l1 IH]; intros i j st1 st2 Hd; simpl.
  - unfold merge_input at 1. destruct (parse_tree fs f) as [[root|] out];
      [done|]. simpl. apply merge_inputs_same. by rewrite data_of_prints.
  - apply bind_same; [by apply merge_input_same|].
    intros s1 s2 Hs. by apply IH.
Qed.

Lemma finish_same o st1 st2 :
  data_of st1 = data_of st2 →
  written_doc (finish o st1) = written_doc (finish o st2).
Proof.
  destruct st1 as [r1 n1 i1 m1 p1 o1], st2 as [r2 n2 i2 m2 p2 o2].
  unfold data_of. simpl. intros [= -> -> -> -> ->].
  unfold finish. simpl. by destruct r2.
Qed.

(** X8.  A further input that is missing or cannot be parsed is skipped:
    the written document, if any, is the one the same inputs without that
    file give. *)
Theorem unreadable_input_skipped now fs output_file f0 l1 f l2 :
  (parse_tree fs f).1 = None →
  written_doc (merge_files now fs output_file (f0 :: l1 ++ f :: l2))
  = written_doc (merge_files now fs output_file (f0 :: l1 ++ l2)).
Proof.
  intros Hf. unfold merge_files. simpl.
  set (sa := init_state [MsgMerging (f0 :: l1 ++ f :: l2) output_file]).
  set (sb := init_state [MsgMerging (f0 :: l1 ++ l2) output_file]).
  assert (same_result (merge_input now fs 0 f0 sa) (merge_input now fs 0 f0 sb))
    as H0 by by apply merge_input_same.
  assert (same_result
            (bind (merge_input now fs 0 f0 sa)
               (merge_inputs now fs 1 (l1 ++ f :: l2)))
            (bind (merge_input now fs 0 f0 sb)
               (merge_inputs now fs 1 (l1 ++ l2)))) as Hsame.
  { apply bind_same; [done|]. intros s1 s2 Hs. by apply merge_inputs_skip. }
  destruct (bind (merge_input now fs 0 f0 sa) _) as [s1|e1 o1],
    (bind (merge_input now fs 0 f0 sb) _) as [s2|e2 o2]; simpl in *; try done.
  by apply finish_same.
Qed.
End same_data.

(** ** What is printed *)

Section printed.
Context `{SetIter} `{PI : PyInt}.

Lemma merge_channel_raise ch st e out :
  merge_channel ch st = Raise e out → out = printed st.
Proof.
  unfold merge_channel. destruct (get_all_names ch) as [|n0 names]; [done|].
  destruct (find_target _ _) as [k|].
  - destruct (base_root st) as [root|]; [|by intros [= _ <-]].
    destruct (channel_at root k) as [t|]; [|by intros [= _ <-]].
    by destruct (foldl _ _ _).
  - destruct (base_root st) as [root|]; [done|by intros [= _ <-]].
Qed.

Lemma merge_channels_messages Q chs st :
  Forall Q (printed st) →
  match merge_channels chs st with
  | Ok st' => Forall Q (printed st')
  | Raise _ out => Forall Q out
  end.
Proof.
  revert st. induction chs as [|ch chs IH]; intros st HQ; simpl; [done|].
  destruct (merge_channel ch st) as [st1|e out] eqn:H1; simpl.
  - apply IH. by rewrite (proj1 (merge_channel_frame _ _ _ H1)).
  - by rewrite (merge_channel_raise _ _ _ _ H1).
Qed.

Lemma merge_programmes_messages Q ps st :
  (∀ o, Q (MsgNoChannel o)) → Forall Q (printed st) →
  Forall Q (printed (foldl merge_programme st ps)).
Proof.
  intros HQ Hst.
  destruct (merge_programmes_fields ps st) as (_ & _ & _ & _ & -> & _).
  apply Forall_app. split; [done|]. apply Forall_forall.
  intros m (p & _ & Hm)%list_elem_of_omap. unfold unresolved_warning in Hm.
  destruct (truthy _); [done|]. by injection Hm as <-.
Qed.

Lemma prints_messages Q out st :
  Forall Q out → Forall Q (printed st) →
  Forall Q (printed (foldl (λ st m, print m st) st out)).
Proof.
  intros Hout. revert st. induction Hout as [|m out Hm _ IH]; intros st Hst;
    simpl; [done|]. apply IH. simpl. apply Forall_app. split; [done|].
  by constructor.
Qed.

Lemma parse_tree_messages Q fs f :
  Q (MsgFileMissing f) → Q (MsgParseFailed f) → Forall Q (parse_tree fs f).2.
Proof.
  intros ? ?. unfold parse_tree. destruct (fs f); simpl; repeat constructor; done.
Qed.

Lemma merge_inputs_messages Q now fs idx input_files st :
  (∀ o, Q (MsgNoChannel o)) → (∀ f, Q (MsgFileMissing f)) →
  (∀ f, Q (MsgParseFailed f)) → Forall Q (printed st) →
  match merge_inputs now fs idx input_files st with
  | Ok st' => Forall Q (printed st')
  | Raise _ out => Forall Q out
  end.
Proof.
  intros Hno Hmiss Hparse. revert idx st.
  induction input_files as [|f r IH]; intros idx st Hst; simpl; [done|].
  unfold merge_input.
  pose proof (parse_tree_messages Q fs f (Hmiss f) (Hparse f)) as Hout.
  destruct (parse_tree fs f) as [[root|] out]; simpl in *.
  - pose proof (prints_messages Q out st Hout Hst) as Hst1.
    destruct idx as [|idx]; simpl.
    + apply IH. by rewrite ingest_base_printed.
    + unfold merge_document.
      pose proof (merge_channels_messages Q (findall root "channel") _ Hst1)
        as Hch.
      destruct (merge_channels _ _) as [st2|e o2]; simpl; [|done].
      apply IH. by apply merge_programmes_messages.
  - apply IH. by apply prints_messages.
Qed.

(** X9.  The message that no file was generated cannot be printed: whatever
    the inputs, it is not among the messages of [merge_files], and
    [merge_files] never ends in the branch that prints it. *)
Theorem not_generated_never_printed now fs output_file input_files :
  never_not_generated
    (outcome_messages (merge_files now fs output_file input_files)) ∧
  ∀ out, merge_files now fs output_file input_files ≠ NotWritten out.
Proof.
  unfold merge_files.
  set (st0 := init_state [MsgMerging input_files output_file]).
  pose proof (merge_inputs_messages (λ m, ∀ o, m ≠ MsgNotGenerated o)
                now fs 0 input_files st0) as Hrun.
  destruct (merge_inputs now fs 0 input_files st0) as [st|e out]; simpl.
  - assert (Forall (λ m, ∀ o, m ≠ MsgNotGenerated o) (printed st)) as Hst.
    { apply Hrun; try done. by repeat constructor. }
    unfold finish. destruct (base_root st) as [root|]; simpl.
    + split; [|done]. intros o [Hin|Hin%list_elem_of_singleton]%elem_of_app;
        [|done]. rewrite Forall_forall in Hst. by apply (Hst _ Hin o).
    + split; [|done]. intros o Hin. rewrite Forall_forall in Hst.
      by apply (Hst _ Hin o).
  - split; [|done]. intros o Hin.
    assert (Forall (λ m, ∀ o, m ≠ MsgNotGenerated o) out) as Hout.
    { apply Hrun; try done. by repeat constructor. }
    rewrite Forall_forall in Hout. by apply (Hout _ Hin o).
Qed.

(** X10.  [merge_files] writes a document only if its first input parses:
    with an empty list of inputs, or a first input that is missing or
    malformed, it raises [AttributeError] and writes nothing. *)
Theorem no_base_no_document now fs output_file input_files :
  (¬ ∃ f0 rest b, input_files = f0 :: rest ∧ fs f0 = Xml b) →
  (∃ out,
     merge_files now fs output_file input_files = Raised AttributeError out) ∧
  ¬ ∃ doc msgs,
      merge_files now fs output_file input_files = Written output_file doc msgs.
Proof.
  intros Hnot.
  assert (∃ out, merge_files now fs output_file input_files
                 = Raised AttributeError out) as (out & Hr).
  { destruct input_files as [|f0 rest]; [by eexists|].
    assert ((parse_tree fs f0).1 = None) as Hparse.
    { unfold parse_tree. destruct (fs f0) as [| |b] eqn:Hb; [done..|].
      destruct Hnot. by exists f0, rest, b. }
    apply parse_tree_None in Hparse as [Hp|Hp];
      destruct (merge_files_without_base _ now fs output_file f0 rest Hp)
        as (out & Hrun & _); try done; by exists out. }
  split; [by exists out|]. intros (doc & msgs & Hw). congruence.
Qed.

Lemma printed_kept_inputs msg now fs idx input_files st st' :
  msg ∈ printed st → merge_inputs now fs (S idx) input_files st = Ok st' →
  msg ∈ printed st'.
Proof.
  apply (run_invariant_inputs (λ s, msg ∈ printed s)).
  - intros m s Hs. simpl. apply elem_of_app. by left.
  - intros s p _ Hs.
    destruct (merge_programme_fields s p) as (_ & _ & _ & _ & -> & _).
    apply elem_of_app. by left.
  - intros ch s s' _ Hs Hr. by rewrite (proj1 (merge_channel_frame _ _ _ Hr)).
Qed.

(** X11.  When the first input parses, every further input that is missing
    or cannot be parsed is reported in the messages. *)
Theorem unreadable_input_reported now fs output_file f0 rest b f :
  fs f0 = Xml b → f ∈ rest → (parse_tree fs f).1 = None →
  ∃ doc msgs,
    merge_files now fs output_file (f0 :: rest) = Written output_file doc msgs ∧
    (MsgFileMissing f ∈ msgs ∨ MsgParseFailed f ∈ msgs).
Proof.
  intros Hb Hf Hparse.
  destruct (merge_files_run now fs output_file f0 rest b Hb)
    as (st & root & Hloop & _ & _ & Hrun).
  eexists _, _. split; [exact Hrun|].
  apply list_elem_of_split in Hf as (l1 & l2 & ->).
  rewrite merge_inputs_app in Hloop.
  destruct (merge_inputs now fs 1 l1 _) as [sa|]; [|done]. simpl in Hloop.
  unfold merge_input at 1 in Hloop.
  apply parse_tree_None in Hparse as [Hp|Hp]; rewrite Hp in Hloop;
    simpl in Hloop; [left|right]; apply elem_of_app; left;
    (eapply printed_kept_inputs; [|exact Hloop]);
    simpl; apply elem_of_app; right; by left.
Qed.
End printed.

(** ** What the merge leaves alone *)

Section frame.
Context `{SetIter} `{PI : PyInt}.

Lemma filter_other_alter_channel f k l :
  (∀ x, tag x = "channel" → tag (f x) = "channel") →
  filter is_other (alter_channel f k l) = filter is_other l.
Proof.
  intros Hf. revert k. induction l as [|x l IH]; intros k; simpl; [done|].
  destruct (decide (tag x = "channel")) as [Hx|Hx].
  - destruct k as [|k]; rewrite !filter_cons.
    + destruct (decide (is_other (f x))) as [[Hn _]|_].
      { exfalso. by apply Hn, Hf. }
      destruct (decide (is_other x)) as [[Hn _]|_]; done.
    + destruct (decide (is_other x)) as [[Hn _]|_]; [done|]. by rewrite IH.
  - rewrite !filter_cons. by rewrite IH.
Qed.

Lemma filter_other_assemble pm l :
  programmes_wf pm → filter is_other (assemble pm l) = filter is_other l.
Proof.
  intros Hwf. induction l as [|x l IH]; [done|].
  unfold assemble in *. simpl. rewrite !filter_cons, filter_app, IH.
  assert (filter is_other
            (if decide (tag x = "channel")
             then programmes_of pm (get x "id") else []) = []) as ->.
  { destruct (decide (tag x = "channel")); [|done].
    pose proof (λ p, programmes_of_wf pm (get x "id") p Hwf) as Hp.
    induction (programmes_of pm (get x "id")) as [|p ps IHp]; [done|].
    rewrite filter_cons. destruct (Hp p) as (Ht & _); [by left|].
    destruct (decide (is_other p)) as [[_ Hn]|_]; [done|].
    apply IHp. intros q Hq. apply Hp. by right. }
  by rewrite app_nil_l.
Qed.

Lemma others_kept_inputs others now fs idx input_files st st' :
  others_kept others st → merge_inputs now fs (S idx) input_files st = Ok st' →
  others_kept others st'.
Proof.
  apply (run_invariant_inputs (others_kept others)).
  - done.
  - intros s p _ (root & Hroot & Ho). exists root.
    by destruct (merge_programme_fields s p) as (-> & _).
  - intros ch s s' Hch (root' & Hroot' & Ho)
      [[Hn ->]|[Hn [(root & k & t & Hk & Hroot & Ht & ->)|(root & Hk & Hroot & ->)]]]
      %merge_channel_cases; [by exists root'| |];
      assert (root' = root) as -> by congruence; eexists; (split; [done|]);
      simpl.
    + rewrite filter_other_alter_channel; [done|]. intros _ _.
      destruct (children_foldl_append t
                  (new_display_name <$>
                     added_names (get_all_names t) (get_all_names ch)))
        as (_ & -> & _).
      unfold channel_at in Ht. apply list_elem_of_lookup_2 in Ht.
      by apply list_elem_of_filter in Ht as [? _].
    + rewrite filter_app, filter_cons. simpl.
      destruct (decide _) as [[Hnc _]|_]; [done|]. by rewrite app_nil_r.
Qed.

(** X12.  Children of the base root that are neither channels nor
    programmes stay, in their order, with their tags and attributes and
    those of their descendants; the root keeps its tag. *)
Theorem other_children_kept now fs output_file f0 rest b :
  fs f0 = Xml b →
  ∃ doc msgs,
    merge_files now fs output_file (f0 :: rest) = Written output_file doc msgs ∧
    shape <$> filter is_other (children doc)
    = shape <$> filter is_other (children b) ∧
    tag doc = tag b.
Proof.
  intros Hb.
  destruct (merge_files_run now fs output_file f0 rest b Hb)
    as (st & root & Hloop & Hinv & Hroot & Hrun).
  destruct Hinv as (root' & n & Hroot' & Htag & _ & Htext & _ & _ & _ & _ & Hpm).
  assert (root' = root) as -> by congruence.
  eexists _, _. split; [exact Hrun|]. simpl. split_and!; [|done].
  rewrite filter_other_assemble by done.
  assert (others_kept (filter is_other (children b)) st) as (r & Hr & Ho).
  { eapply others_kept_inputs; [|exact Hloop]. eexists. split; [done|].
    unfold base_doc, remove_all. simpl.
    induction (children b) as [|x l IH]; [done|].
    rewrite !filter_cons. destruct (decide (tag x ≠ "programme")) as [Hx|Hx].
    - rewrite filter_cons, IH. done.
    - destruct (decide (is_other x)) as [[_ Hn]|_]; done. }
  congruence.
Qed.

(** X13.  When the ids of the base channels are pairwise distinct (empty
    and missing ids aside), so are the ids of the channels of the written
    document. *)
Theorem written_ids_unique now fs output_file f0 rest b :
  fs f0 = Xml b → unique_ids (findall b "channel") →
  ∃ doc msgs,
    merge_files now fs output_file (f0 :: rest) = Written output_file doc msgs ∧
    unique_ids (findall doc "channel").
Proof.
  intros Hb Huniq.
  destruct (merge_files_channels now fs output_file f0 rest b Hb)
    as (doc & msgs & kept & news & Hrun & _ & _ & Hsplit & Hkept & Hnews).
  exists doc, msgs. split; [done|]. rewrite Hsplit.
  by eapply accumulated_ids_unique.
Qed.
End frame.

(** ** One channel of a further document *)

Section one_channel.
Context `{SetIter} `{PI : PyInt}.

Lemma get_all_names_appended_iff t add n :
  (∀ a, a ∈ add → strip a = a) →
  n ∈ get_all_names (foldl append t (new_display_name <$> add)) ↔
  n ∈ get_all_names t ∨ (n ∈ add ∧ n ≠ "").
Proof.
  intros Hadd.
  destruct (children_foldl_append t (new_display_name <$> add)) as (Hc & _).
  rewrite !get_all_names_elem. rewrite Hc. split.
  - intros (dn & [Hdn|Hdn]%elem_of_app & Ht & Hn).
    + left. by exists dn.
    + right. apply list_elem_of_fmap in Hdn as (a & -> & Ha).
      unfold name_of in Hn. simpl in Hn. destruct a as [|x a]; [done|].
      simpl in Hn. injection Hn as <-. by rewrite Hadd.
  - intros [(dn & Hdn & Ht & Hn)|[Hn Hne]].
    + exists dn. split_and!; [|done..]. apply elem_of_app. by left.
    + exists (new_display_name n). split_and!; [|done|].
      * apply elem_of_app. right. by apply list_elem_of_fmap_2.
      * unfold name_of. simpl. destruct n as [|x n]; [done|]. simpl.
        by rewrite Hadd.
Qed.

(** X14.  A channel of a further document one of whose names is indexed is
    merged into the indexed channel and not added: the number of channels
    and [max_id] stay, the target keeps its id, the old id is mapped to
    that id, and the target then carries its own names and the non-empty
    names of the incoming channel, and no others. *)
Theorem duplicate_channel_merged ch st root k t :
  base_root st = Some root → channel_at root k = Some t →
  get_all_names ch ≠ [] →
  find_target (name_map st) (get_all_names ch) = Some k →
  ∃ st' root' t',
    merge_channel ch st = Ok st' ∧
    base_root st' = Some root' ∧ channel_at root' k = Some t' ∧
    length (findall root' "channel") = length (findall root "channel") ∧
    max_id st' = max_id st ∧
    get t' "id" = get t "id" ∧
    id_map st' !! get ch "id" = Some (get t "id") ∧
    ∀ n, n ∈ get_all_names t' ↔
         n ∈ get_all_names t ∨ (n ∈ get_all_names ch ∧ n ≠ "").
Proof.
  intros Hroot Ht Hn Hk.
  set (add := added_names (get_all_names t) (get_all_names ch)).
  set (t' := foldl append t (new_display_name <$> add)).
  destruct (children_foldl_append t (new_display_name <$> add))
    as (_ & Htag & Hattr). fold t' in Htag, Hattr.
  assert (tag t = "channel") as Htc.
  { unfold channel_at in Ht. apply list_elem_of_lookup_2 in Ht.
    by apply list_elem_of_filter in Ht as [? _]. }
  assert (get t' "id" = get t "id") as Hid by (unfold get; by rewrite Hattr).
  eexists _, _, t'. split; [by eapply merge_channel_merged|].
  unfold merged_state. fold add t'. simpl.
  assert (findall (with_children root
            (alter_channel (λ _, t') k (children root))) "channel"
          = alter (λ _, t') k (findall root "channel")) as Hfind.
  { unfold findall. simpl. apply filter_alter_channel. intros _ _. congruence. }
  split_and!; try done.
  - unfold channel_at in *. by rewrite Hfind, list_lookup_alter_eq, Ht.
  - by rewrite Hfind, length_alter.
  - rewrite lookup_insert_eq. by rewrite Hid.
  - intros n. unfold t'. rewrite get_all_names_appended_iff.
    + split; [intros [?|[Hin ?]]|intros [?|[Hin Hne]]]; auto.
      * right. split; [|done]. by apply list_elem_of_filter in Hin as [_ ?].
      * destruct (decide (n ∈ get_all_names t)); [by left|].
        right. split; [|done]. by apply list_elem_of_filter.
    + intros a [_ Ha]%list_elem_of_filter.
      by apply get_all_names_strip_fixed in Ha.
Qed.

Lemma set_iter_nil_iff l : set_iter l = [] ↔ l = [].
Proof.
  split.
  - intros Hs. destruct l as [|x l]; [done|].
    assert (x ∈ set_iter (x :: l)) as Hx by (apply set_iter_elem; by left).
    rewrite Hs in Hx. by apply elem_of_nil in Hx.
  - intros ->. destruct (set_iter []) as [|x l] eqn:Hs; [done|].
    assert (x ∈ (@nil string)) as Hx.
    { apply set_iter_elem. rewrite Hs. by left. }
    by apply elem_of_nil in Hx.
Qed.

Lemma get_all_names_nil_iff ch :
  get_all_names ch = [] ↔
  Forall (λ dn, truthy (text dn) = false) (findall ch "display-name").
Proof.
  unfold get_all_names. rewrite set_iter_nil_iff.
  induction (findall ch "display-name") as [|dn l IH]; [done|].
  rewrite omap_cons, Forall_cons. unfold name_of at 1.
  destruct (truthy (text dn)) eqn:Ht.
  - destruct (text dn); [|done]. simpl. split; [done|]. by intros [? _].
  - rewrite IH. tauto.
Qed.

(** X15.  A channel of a further document is left out exactly when none of
    its display-name children has a non-empty text, and then nothing
    changes.  Any other channel, also one without id, enters its old id in
    the id map; a text of whitespace only counts as the empty name. *)
Theorem nameless_channel_left_out ch st :
  (Forall (λ dn, truthy (text dn) = false) (findall ch "display-name") →
   merge_channel ch st = Ok st) ∧
  (¬ Forall (λ dn, truthy (text dn) = false) (findall ch "display-name") →
   ∀ st', merge_channel ch st = Ok st' →
          is_Some (id_map st' !! get ch "id")) ∧
  (∀ dn t, dn ∈ findall ch "display-name" → text dn = Some t →
           t ≠ "" → all_space t = true → "" ∈ get_all_names ch).
Proof.
  split_and!.
  - intros Hall. apply merge_channel_skipped. by apply get_all_names_nil_iff.
  - intros Hnot st'
      [[Hn _]|[_ [(root & k & t & _ & _ & _ & ->)|(root & _ & _ & ->)]]]
      %merge_channel_cases.
    + by apply get_all_names_nil_iff in Hn.
    + simpl. by rewrite lookup_insert_eq.
    + simpl. by rewrite lookup_insert_eq.
  - intros dn t Hdn Ht Hne Hsp. unfold get_all_names.
    apply set_iter_elem, list_elem_of_omap. exists dn. split; [done|].
    unfold name_of. rewrite Ht. destruct t as [|a t]; [done|]. simpl.
    f_equal. unfold strip. by rewrite lstrip_all_space.
Qed.
End one_channel.

(** ** The run over the merge groups *)

Section groups.
Context `{SetIter} `{PI : PyInt}.

(** X16.  [main] calls [merge_files] for the two groups in turn.  When the
    first input of each group parses, both output files are written; when
    only that of the first group does, the first file is written and the
    run ends in the second call with [AttributeError]. *)
Theorem main_outcomes clock fs b1 :
  fs "epg/e.xml" = Xml b1 →
  (∀ b2, fs "epg/all.xml" = Xml b2 →
     ∃ d1 m1 d2 m2,
       main clock fs = [Written "epg/1d.xml" d1 m1; Written "epg/7d.xml" d2 m2]) ∧
  ((parse_tree fs "epg/all.xml").1 = None →
     ∃ d1 m1 out,
       main clock fs = [Written "epg/1d.xml" d1 m1; Raised AttributeError out]).
Proof.
  intros Hb1. unfold main, MERGES. simpl.
  destruct (merge_files_written (hd "" clock) fs "epg/1d.xml" "epg/e.xml"
              ["epg/plsy1_1d.xml"; "epg/112114.xml"] b1 Hb1)
    as (s1 & r1 & _ & _ & ->).
  split.
  - intros b2 Hb2.
    destruct (merge_files_written (hd "" (tl clock)) fs "epg/7d.xml"
                "epg/all.xml" ["epg/plsy1_7d.xml"] b2 Hb2)
      as (s2 & r2 & _ & _ & ->).
    by eexists _, _, _, _.
  - intros [Hp|Hp]%parse_tree_None;
      destruct (merge_files_without_base _ (hd "" (tl clock)) fs "epg/7d.xml"
                  "epg/all.xml" ["epg/plsy1_7d.xml"] Hp)
        as (out & -> & _); try done; by eexists _, _, _.
Qed.
End groups.

(** ** The base document on its own *)

Section base_only.
Context `{SetIter} `{PI : PyInt}.

Lemma foldl_collect_lookup ps pm k :
  foldl (λ pm p, collect_programme p pm) pm ps !! k
  = (λ l, l ++ filter (λ p, get p "channel" = Some k) ps) <$> pm !! k.
Proof.
  revert pm. induction ps as [|p ps IH]; intros pm; simpl.
  - destruct (pm !! k); simpl; [|done]. by rewrite app_nil_r.
  - rewrite IH. rewrite filter_cons. unfold collect_programme.
    destruct (get p "channel") as [c|] eqn:Hc.
    + destruct (decide (Some c = Some k)) as [[= ->]|Hne].
      * destruct (pm !! k) as [l|] eqn:Hl; [|by rewrite Hl].
        rewrite lookup_insert_eq. simpl. by rewrite <-app_assoc.
      * destruct (pm !! c) as [l|] eqn:Hl; [|done].
        rewrite lookup_insert_ne by congruence. done.
    + destruct (decide (None = Some k)); done.
Qed.

Lemma ingest_channels_values k chs st :
  (∀ key l, programmes_map st !! key = Some l → l = []) →
  ∀ key l, programmes_map (ingest_channels k chs st) !! key = Some l → l = [].
Proof.
  revert k st. induction chs as [|c r IH]; intros k st Hst; simpl; [done|].
  apply IH. unfold ingest_channel. destruct (truthy (get c "id")); [|done].
  simpl. intros key l. destruct (decide (default "" (get c "id") = key)) as [->|?].
  - rewrite lookup_insert_eq. by intros [= <-].
  - rewrite lookup_insert_ne by done. apply Hst.
Qed.

Lemma ingest_base_programmes_of now b st x :
  programmes_map st = ∅ → x ∈ findall b "channel" →
  programmes_of (programmes_map (ingest_base now b st)) (get x "id")
  = base_programmes b x.
Proof.
  intros Hpm Hx. unfold ingest_base, programmes_of, base_programmes. simpl.
  rewrite !findall_set.
  destruct (get x "id") as [k|] eqn:Hid; simpl; [|done].
  rewrite foldl_collect_lookup.
  set (pm0 := programmes_map (ingest_channels 0 (findall b "channel") st)).
  destruct (pm0 !! k) as [l|] eqn:Hl; simpl.
  - assert (l = []) as ->.
    { eapply (ingest_channels_values 0 (findall b "channel") st); [|exact Hl].
      intros key l'. by rewrite Hpm. }
    assert (is_Some (pm0 !! k)) as Hk by by eexists.
    apply ingest_channels_keys in Hk as [Hk|(c & _ & Hc)].
    + rewrite Hpm, lookup_empty in Hk. by destruct Hk.
    + apply cid_of_Some in Hc as [_ Hne]. by destruct k.
  - destruct k as [|a k]; [done|]. simpl. exfalso.
    assert (is_Some (pm0 !! String a k)) as [? ?]; [|congruence].
    apply ingest_channels_keys. right. exists x. split; [done|].
    by apply cid_of_Some.
Qed.

Lemma flat_map_ext_elem {A B} (f g : A → list B) l :
  (∀ x, x ∈ l → f x = g x) → flat_map f l = flat_map g l.
Proof.
  induction l as [|x l IH]; intros Hfg; simpl; [done|].
  rewrite Hfg by by left. rewrite IH; [done|]. intros y Hy. apply Hfg. by right.
Qed.

(** X17.  Merged on its own, the base document is regrouped: the root
    gets its three attributes, every child that is not a programme stays in
    place, and every channel with a non-empty id is followed by exactly the
    programmes of the document that name this id, in document order.
    Nothing but the banner and the completion line is printed. *)
Theorem base_only_regrouped now fs output_file f0 b :
  fs f0 = Xml b →
  merge_files now fs output_file [f0]
  = Written output_file
      (with_children (base_doc now b)
         (flat_map (λ x, x :: if decide (tag x = "channel")
                              then base_programmes b x else [])
            (children (base_doc now b))))
      [MsgMerging [f0] output_file; MsgDone output_file].
Proof.
  intros Hb. unfold merge_files. simpl. unfold merge_input, parse_tree.
  rewrite Hb. simpl.
  set (st0 := init_state [MsgMerging [f0] output_file]).
  pose proof (ingest_base_inv now b st0 eq_refl eq_refl eq_refl)
    as (root & n & Hroot & _ & _ & _ & _ & _ & Hnp & _ & Hpm).
  rewrite (finish_written _ _ root) by done.
  rewrite ingest_base_printed. rewrite ingest_base_root in Hroot.
  injection Hroot as <-. f_equal. f_equal. unfold assemble.
  apply flat_map_ext_elem. intros x Hx. f_equal.
  destruct (decide (tag x = "channel")) as [Ht|]; [|done].
  apply ingest_base_programmes_of; [done|].
  rewrite <-(findall_base_doc now). by apply list_elem_of_filter.
Qed.
End base_only.

(** ** The further theorems at work *)

Section further_runs.
#[local] Existing Instance literal_int.

Lemma clean_text_pieces_witness :
  no_control "a b" = true ∧ clean_text "a b" = "a b".
Proof.
  split; [reflexivity|]. apply (proj1 clean_text_pieces). reflexivity.
Defined.

Lemma programmes_follow_their_channel_witness :
  scenario1_fs "epg/base.xml" = Xml scenario1_base ∧
  ∃ doc msgs,
    merge_files (H := dedup_order) "20260101000000" scenario1_fs "epg/out.xml"
      ["epg/base.xml"; "epg/second.xml"] = Written "epg/out.xml" doc msgs ∧
    ∀ q, q ∈ children doc → tag q = "programme" →
      ∃ pre c block post,
        children doc = pre ++ c :: block ++ q :: post ∧
        tag c = "channel" ∧ truthy (get c "id") = true ∧
        Forall (λ p, tag p = "programme" ∧ get p "channel" = get c "id")
          (block ++ [q]).
Proof.
  split; [reflexivity|].
  apply (programmes_follow_their_channel (H := dedup_order))
    with (b := scenario1_base). reflexivity.
Defined.

Lemma base_programme_written_witness :
  scenario1_fs "epg/base.xml" = Xml scenario1_base ∧
  programme "1" "Morning" ∈ findall scenario1_base "programme" ∧
  channel "1" ["CNN"] ∈ findall scenario1_base "channel" ∧
  get (programme "1" "Morning") "channel" = get (channel "1" ["CNN"]) "id" ∧
  truthy (get (channel "1" ["CNN"]) "id") = true ∧
  ∃ doc msgs,
    merge_files (H := dedup_order) "20260101000000" scenario1_fs "epg/out.xml"
      ["epg/base.xml"; "epg/second.xml"] = Written "epg/out.xml" doc msgs ∧
    programme "1" "Morning" ∈ children doc.
Proof.
  assert (programme "1" "Morning" ∈ findall scenario1_base "programme") as Hp.
  { apply list_elem_of_filter. split; [reflexivity|]. right. left. }
  assert (channel "1" ["CNN"] ∈ findall scenario1_base "channel") as Hc.
  { apply list_elem_of_filter. split; [reflexivity|]. left. }
  split_and!; [reflexivity|exact Hp|exact Hc|reflexivity..|].
  apply (base_programme_written (H := dedup_order))
    with (b := scenario1_base) (c := channel "1" ["CNN"]);
    [reflexivity|exact Hp|exact Hc|reflexivity..].
Defined.

Lemma further_programme_written_witness :
  scenario1_fs "epg/base.xml" = Xml scenario1_base ∧
  scenario1_fs "epg/second.xml" = Xml scenario1_second ∧
  programme "9" "News" ∈ findall scenario1_second "programme" ∧
  channel "9" ["CNN"] ∈ findall scenario1_second "channel" ∧
  get_all_names (H := dedup_order) (channel "9" ["CNN"]) ≠ [] ∧
  get (programme "9" "News") "channel" = get (channel "9" ["CNN"]) "id" ∧
  ∃ doc msgs new c,
    merge_files (H := dedup_order) "20260101000000" scenario1_fs "epg/out.xml"
      ("epg/base.xml" :: [] ++ "epg/second.xml" :: [])
    = Written "epg/out.xml" doc msgs ∧
    set (programme "9" "News") "channel" new ∈ children doc ∧
    c ∈ children doc ∧ tag c = "channel" ∧ get c "id" = Some new.
Proof.
  assert (programme "9" "News" ∈ findall scenario1_second "programme") as Hp.
  { apply list_elem_of_filter. split; [reflexivity|]. right. left. }
  assert (channel "9" ["CNN"] ∈ findall scenario1_second "channel") as Hc.
  { apply list_elem_of_filter. split; [reflexivity|]. left. }
  assert (get_all_names (H := dedup_order) (channel "9" ["CNN"]) ≠ []) as Hn.
  { vm_compute. discriminate. }
  split_and!; [reflexivity|reflexivity|exact Hp|exact Hc|exact Hn|reflexivity|].
  apply (further_programme_written (H := dedup_order))
    with (b := scenario1_base) (r := scenario1_second)
         (ch := channel "9" ["CNN"]);
    [reflexivity|reflexivity|exact Hp|exact Hc|exact Hn|reflexivity].
Defined.

Lemma unreadable_input_skipped_witness :
  (parse_tree scenario1_fs "epg/none.xml").1 = None ∧
  written_doc
    (merge_files (H := dedup_order) "20260101000000" scenario1_fs "epg/out.xml"
       ("epg/base.xml" :: [] ++ "epg/none.xml" :: ["epg/second.xml"]))
  = written_doc
      (merge_files (H := dedup_order) "20260101000000" scenario1_fs
         "epg/out.xml" ("epg/base.xml" :: [] ++ ["epg/second.xml"])).
Proof.
  split; [reflexivity|].
  apply (unreadable_input_skipped (H := dedup_order)). reflexivity.
Defined.

Lemma unreadable_input_reported_witness :
  scenario1_fs "epg/base.xml" = Xml scenario1_base ∧
  "epg/none.xml" ∈ ["epg/none.xml"; "epg/second.xml"] ∧
  (parse_tree scenario1_fs "epg/none.xml").1 = None ∧
  ∃ doc msgs,
    merge_files (H := dedup_order) "20260101000000" scenario1_fs "epg/out.xml"
      ["epg/base.xml"; "epg/none.xml"; "epg/second.xml"]
    = Written "epg/out.xml" doc msgs ∧
    (MsgFileMissing "epg/none.xml" ∈ msgs ∨ MsgParseFailed "epg/none.xml" ∈ msgs).
Proof.
  assert ("epg/none.xml" ∈ ["epg/none.xml"; "epg/second.xml"]) as Hin by left.
  split_and!; [reflexivity|exact Hin|reflexivity|].
  apply (unreadable_input_reported (H := dedup_order))
    with (b := scenario1_base); [reflexivity|exact Hin|reflexivity].
Defined.

Lemma other_children_kept_witness :
  scenario1_fs "epg/base.xml" = Xml scenario1_base ∧
  ∃ doc msgs,
    merge_files (H := dedup_order) "20260101000000" scenario1_fs "epg/out.xml"
      ["epg/base.xml"; "epg/second.xml"] = Written "epg/out.xml" doc msgs ∧
    shape <$> filter is_other (children doc)
    = shape <$> filter is_other (children scenario1_base) ∧
    tag doc = tag scenario1_base.
Proof.
  split; [reflexivity|].
  apply (other_children_kept (H := dedup_order)). reflexivity.
Defined.

Lemma written_ids_unique_witness :
  scenario1_fs "epg/base.xml" = Xml scenario1_base ∧
  unique_ids (findall scenario1_base "channel") ∧
  ∃ doc msgs,
    merge_files (H := dedup_order) "20260101000000" scenario1_fs "epg/out.xml"
      ["epg/base.xml"; "epg/second.xml"] = Written "epg/out.xml" doc msgs ∧
    unique_ids (findall doc "channel").
Proof.
  assert (unique_ids (findall scenario1_base "channel")) as Hu.
  { apply (bool_decide_unpack _). vm_compute. exact I. }
  split_and!; [reflexivity|exact Hu|].
  apply (written_ids_unique (H := dedup_order)) with (b := scenario1_base);
    [reflexivity|exact Hu].
Defined.

Lemma duplicate_channel_merged_witness :
  base_root scenario5_state = Some scenario5_base ∧
  channel_at scenario5_base 0 = Some (channel "1" ["HBO"; "HBO2"]) ∧
  get_all_names (H := dedup_order) (channel "7" ["HBO2"; "Cinemax"]) ≠ [] ∧
  find_target (name_map scenario5_state)
    (get_all_names (H := dedup_order) (channel "7" ["HBO2"; "Cinemax"]))
  = Some 0 ∧
  ∃ st' root' t',
    merge_channel (H := dedup_order) (channel "7" ["HBO2"; "Cinemax"])
      scenario5_state = Ok st' ∧
    base_root st' = Some root' ∧ channel_at root' 0 = Some t' ∧
    length (findall root' "channel") = length (findall scenario5_base "channel") ∧
    max_id st' = max_id scenario5_state ∧
    get t' "id" = get (channel "1" ["HBO"; "HBO2"]) "id" ∧
    id_map st' !! get (channel "7" ["HBO2"; "Cinemax"]) "id"
    = Some (get (channel "1" ["HBO"; "HBO2"]) "id") ∧
    ∀ n, n ∈ get_all_names (H := dedup_order) t' ↔
         n ∈ get_all_names (H := dedup_order) (channel "1" ["HBO"; "HBO2"]) ∨
         (n ∈ get_all_names (H := dedup_order) (channel "7" ["HBO2"; "Cinemax"])
          ∧ n ≠ "").
Proof.
  assert (get_all_names (H := dedup_order) (channel "7" ["HBO2"; "Cinemax"]) ≠ [])
    as Hn.
  { vm_compute. discriminate. }
  assert (find_target (name_map scenario5_state)
            (get_all_names (H := dedup_order) (channel "7" ["HBO2"; "Cinemax"]))
          = Some 0) as Hk.
  { vm_compute. reflexivity. }
  split_and!; [reflexivity|reflexivity|exact Hn|exact Hk|].
  apply (duplicate_channel_merged (H := dedup_order)
           (channel "7" ["HBO2"; "Cinemax"]) scenario5_state scenario5_base 0
           (channel "1" ["HBO"; "HBO2"]) eq_refl eq_refl Hn Hk).
Defined.

Lemma nameless_channel_left_out_witness :
  Forall (λ dn, truthy (text dn) = false)
    (findall (mkElement "channel" {["id" := "4"]} None
                [mkElement "display-name" ∅ None []]) "display-name") ∧
  merge_channel (H := dedup_order)
    (mkElement "channel" {["id" := "4"]} None
       [mkElement "display-name" ∅ None []]) scenario5_state
  = Ok scenario5_state.
Proof.
  assert (Forall (λ dn, truthy (text dn) = false)
            (findall (mkElement "channel" {["id" := "4"]} None
                        [mkElement "display-name" ∅ None []]) "display-name"))
    as Hall.
  { apply Forall_forall. intros dn [_ Hdn]%list_elem_of_filter.
    apply list_elem_of_singleton in Hdn. by subst dn. }
  split; [exact Hall|].
  apply (proj1 (nameless_channel_left_out (H := dedup_order) _ scenario5_state)).
  exact Hall.
Defined.

Lemma main_outcomes_witness :
  merges_fs "epg/e.xml" = Xml (tv [channel "1" ["CNN"]]) ∧
  merges_fs "epg/all.xml" = Xml (tv [channel "5" ["BBC"]]) ∧
  ∃ d1 m1 d2 m2,
    main (H := dedup_order) ["20260101000000"; "20260101000001"] merges_fs
    = [Written "epg/1d.xml" d1 m1; Written "epg/7d.xml" d2 m2].
Proof.
  split_and!; [reflexivity..|].
  apply (proj1 (main_outcomes (H := dedup_order)
                  ["20260101000000"; "20260101000001"] merges_fs
                  (tv [channel "1" ["CNN"]]) eq_refl)
           (tv [channel "5" ["BBC"]])).
  reflexivity.
Defined.

Lemma base_only_regrouped_witness :
  scenario1_fs "epg/base.xml" = Xml scenario1_base ∧
  merge_files (H := dedup_order) "20260101000000" scenario1_fs "epg/out.xml"
    ["epg/base.xml"]
  = Written "epg/out.xml"
      (with_children (base_doc "20260101000000" scenario1_base)
         (flat_map (λ x, x :: if decide (tag x = "channel")
                              then base_programmes scenario1_base x else [])
            (children (base_doc "20260101000000" scenario1_base))))
      [MsgMerging ["epg/base.xml"] "epg/out.xml"; MsgDone "epg/out.xml"].
Proof.
  split; [reflexivity|].
  apply (base_only_regrouped (H := dedup_order)). reflexivity.
Defined.
Lemma no_base_no_document_witness :
  (¬ ∃ f0 rest b, @nil string = f0 :: rest ∧ scenario1_fs f0 = Xml b) ∧
  (∃ out,
     merge_files (H := dedup_order) "20260101000000" scenario1_fs "epg/out.xml" []
     = Raised AttributeError out) ∧
  ¬ ∃ doc msgs,
      merge_files (H := dedup_order) "20260101000000" scenario1_fs "epg/out.xml" []
      = Written "epg/out.xml" doc msgs.
Proof.
  assert (¬ ∃ f0 rest b, @nil string = f0 :: rest ∧ scenario1_fs f0 = Xml b)
    as Hnot by (by intros (? & ? & ? & ? & _)).
  split; [exact Hnot|].
  apply (no_base_no_document (H := dedup_order)). exact Hnot.
Defined.
End further_runs.
